(** * Fitness Tracker: the glucose chart, the zoom window, the body-metric
      classifier and the weekly grid, embedded from the single-page
      application's [setup()] function.

    Conventions of the embedding.
    - A JavaScript [Date] is the integer [getTime()] gives: milliseconds
      since the epoch ([Z]).
    - A JavaScript number that holds a glucose value, a mean, a rate or a
      score is an IEEE 754 double ([Num.number]): every operation rounds
      its exact result to the nearest double, ties to even, and
      [Infinity] and [NaN] are values like the others.
    - A JavaScript string is the list of its UTF-16 code units ([list N]),
      so that [.length], [includes] and the regular expressions count
      what the engine counts.
    - An object used as a dictionary is a [gmap] for the properties of
      its own; where the code reads a key that may be one every object
      inherits from [Object.prototype], those are modelled beside it. *)

From Stdlib Require Import Ascii String.
From stdpp Require Import base option list gmap.
From Stdlib Require Import ZArith NArith QArith Qabs Qminmax Qreduction Lia Lqa Sorted
  DecimalString.
From Stdlib Require Qcanon DecimalZ DecimalPos.

Local Open Scope Z_scope.

(** ** Numbers *)

Module Num.

(** A JavaScript number is an IEEE 754 double-precision value. A finite
    one is written [Fin q] for a rational [q] and is the double nearest to
    [q], as a numeric literal or [parseFloat] reads a decimal; [double]
    gives its exact value. The two zeros are not told apart: no divisor of
    this program is [-0], and [toFixed(0)] prints both as ["0"]. *)
Inductive number := Fin (q : Q) | PosInf | NegInf | NaN.

(** The integer nearest to [a / b], for [0 <= a] and [0 < b]; of two that
    are as near, the even one. *)
Definition nearestEven (a b : Z) : Z :=
  let k := a / b in
  match 2 * (a mod b) ?= b with
  | Lt => k
  | Gt => k + 1
  | Eq => if Z.even k then k else k + 1
  end.

(** Every finite double is a whole number of [2^-1074], the least positive
    double; [2^1024], past the largest, is [2^2098] of them. *)
Definition tiny : Z := 2 ^ 1074.
Definition huge : Z := 2 ^ 2098.

(** The double nearest to [a / b] ([0 <= a], [0 < b]), in units of
    [2^-1074], before the test for overflow: the doubles from [2^(52+g)]
    to [2^(53+g)] units are [2^g] units apart, so that [a / b] is rounded
    to a whole number of [2^(g-1074)]. *)
Definition nearestDouble (a b : Z) : Z :=
  let units := a * tiny in
  let g := Z.max 0 (Z.log2 (units / b) - 52) in
  (if g <=? 1074 then nearestEven (a * 2 ^ (1074 - g)) b
   else nearestEven a (b * 2 ^ (g - 1074))) * 2 ^ g.

(** Rounding to nearest, ties to even: what the exact result [q] of an
    operation becomes. *)
Definition round64 (q : Q) : number :=
  let q := Qred q in
  let n := nearestDouble (Z.abs (Qnum q)) (Z.pos (Qden q)) in
  if huge <=? n then (if Qnum q <? 0 then NegInf else PosInf)
  else Fin (Qred (Z.sgn (Qnum q) * n # Z.to_pos tiny)).

(** The double a number is, a finite one by its exact value in lowest
    terms. *)
Definition double (x : number) : number :=
  match x with
  | Fin q => round64 q
  | _ => x
  end.

(** An integer as a number: a length, or a difference of two [getTime()]. *)
Definition ofZ (z : Z) : number := Fin (inject_Z z).

(** [x + y] *)
Definition add (x y : number) : number :=
  match double x, double y with
  | NaN, _ | _, NaN => NaN
  | PosInf, NegInf | NegInf, PosInf => NaN
  | PosInf, _ | _, PosInf => PosInf
  | NegInf, _ | _, NegInf => NegInf
  | Fin a, Fin b => round64 (a + b)
  end.

(** [x - y] *)
Definition sub (x y : number) : number :=
  match double x, double y with
  | NaN, _ | _, NaN => NaN
  | PosInf, PosInf | NegInf, NegInf => NaN
  | PosInf, _ | _, NegInf => PosInf
  | NegInf, _ | _, PosInf => NegInf
  | Fin a, Fin b => round64 (a - b)
  end.

(** [x * y] *)
Definition mul (x y : number) : number :=
  match double x, double y with
  | NaN, _ | _, NaN => NaN
  | Fin a, Fin b => round64 (a * b)
  | Fin a, PosInf | PosInf, Fin a =>
      match (a ?= 0)%Q with Gt => PosInf | Lt => NegInf | Eq => NaN end
  | Fin a, NegInf | NegInf, Fin a =>
      match (a ?= 0)%Q with Gt => NegInf | Lt => PosInf | Eq => NaN end
  | PosInf, PosInf | NegInf, NegInf => PosInf
  | PosInf, NegInf | NegInf, PosInf => NegInf
  end.

(** [x / y]; a divisor that is zero is [+0]. *)
Definition div (x y : number) : number :=
  match double x, double y with
  | NaN, _ | _, NaN => NaN
  | Fin a, Fin b =>
      if Qeq_bool b 0 then
        match (a ?= 0)%Q with Gt => PosInf | Lt => NegInf | Eq => NaN end
      else round64 (a / b)
  | Fin _, _ => Fin 0
  | PosInf, Fin b => if Qle_bool 0 b then PosInf else NegInf
  | NegInf, Fin b => if Qle_bool 0 b then NegInf else PosInf
  | _, _ => NaN
  end.

(** [x < y], [x <= y], [x > y], [x >= y]: false when either is [NaN]. *)
Definition lt (x y : number) : bool :=
  match double x, double y with
  | NaN, _ | _, NaN => false
  | _, NegInf | PosInf, _ => false
  | NegInf, _ | _, PosInf => true
  | Fin a, Fin b => negb (Qle_bool b a)
  end.

Definition le (x y : number) : bool :=
  match double x, double y with
  | NaN, _ | _, NaN => false
  | NegInf, _ | _, PosInf => true
  | _, NegInf | PosInf, _ => false
  | Fin a, Fin b => Qle_bool a b
  end.

Definition gt (x y : number) : bool := lt y x.
Definition ge (x y : number) : bool := le y x.

(** The integer nearest to [x]; of two that are as near, the one away from
    zero. *)
Definition roundHalfAway (x : Q) : Z :=
  let n := Qnum x in
  let d := Z.pos (Qden x) in
  if 0 <=? n then (2 * n + d) / (2 * d) else - ((2 * (- n) + d) / (2 * d)).

(** The text [x.toFixed(0)] gives, by the number it reads back as: the
    digits of the nearest integer, a tie going away from zero (["-0"] reads
    back as zero), or ["NaN"], ["Infinity"], ["-Infinity"]. Where [x] is
    [1e21] or more in magnitude the text is [String(x)]; [x] is then a
    whole number and the text reads back as [x]. *)
Inductive fixed := Int (z : Z) | NaNText | InfinityText | MinusInfinityText.

Definition toFixed0 (x : number) : fixed :=
  match double x with
  | Fin q => Int (roundHalfAway q)
  | PosInf => InfinityText
  | NegInf => MinusInfinityText
  | NaN => NaNText
  end.

(** The number a text of [toFixed(0)], or the number 40, is read as. *)
Definition asNumber (v : fixed) : number :=
  match v with
  | Int z => ofZ z
  | NaNText => NaN
  | InfinityText => PosInf
  | MinusInfinityText => NegInf
  end.

(** [Number.isNaN(x)] *)
Definition isNaN (x : number) : bool :=
  match x with
  | NaN => true
  | _ => false
  end.

(** A rational that is a double: a whole number [n] of units of
    [2^-1074] that is a multiple of the distance between the doubles of
    its size. *)
Definition representable (n : Z) : Prop := n mod 2 ^ Z.max 0 (Z.log2 n - 52) = 0.

End Num.

(** ** Strings and arrays *)

Module Js.

(** A string, by its UTF-16 code units. *)
Definition jsstring : Type := list N.

(** Literals are written as Rocq strings, whose bytes are UTF-8: [utf16]
    decodes them to the code units the JavaScript source denotes. *)
Fixpoint utf16_of_bytes (bs : list N) : jsstring :=
  match bs with
  | [] => []
  | b :: rest =>
      if (b <? 128)%N then b :: utf16_of_bytes rest
      else if (b <? 224)%N then
        match rest with
        | b2 :: rest' => ((b - 192) * 64 + (b2 - 128))%N :: utf16_of_bytes rest'
        | _ => []
        end
      else if (b <? 240)%N then
        match rest with
        | b2 :: b3 :: rest' =>
            ((b - 224) * 4096 + (b2 - 128) * 64 + (b3 - 128))%N :: utf16_of_bytes rest'
        | _ => []
        end
      else
        match rest with
        | b2 :: b3 :: b4 :: rest' =>
            let cp := ((b - 240) * 262144 + (b2 - 128) * 4096
                       + (b3 - 128) * 64 + (b4 - 128))%N in
            (55296 + (cp - 65536) / 1024)%N :: (56320 + (cp - 65536) mod 1024)%N
              :: utf16_of_bytes rest'
        | _ => []
        end
  end.

Definition utf16 (s : String.string) : jsstring :=
  utf16_of_bytes (map Ascii.N_of_ascii (String.list_ascii_of_string s)).

(** [a === b] on strings. *)
Fixpoint jseq (a b : jsstring) : bool :=
  match a, b with
  | [], [] => true
  | x :: a', y :: b' => (x =? y)%N && jseq a' b'
  | _, _ => false
  end.

(** The class [\s] of a regular expression, which is also what [trim]
    removes: white space and line terminators. *)
Definition isSpace (c : N) : bool :=
  ((9 <=? c) && (c <=? 13) || (c =? 32) || (c =? 160) || (c =? 5760)
   || (8192 <=? c) && (c <=? 8202) || (c =? 8232) || (c =? 8233) || (c =? 8239)
   || (c =? 8287) || (c =? 12288) || (c =? 65279))%N.

(** The class [\w]: [A-Za-z0-9_]. *)
Definition isWord (c : N) : bool :=
  ((48 <=? c) && (c <=? 57) || (65 <=? c) && (c <=? 90) || (c =? 95)
   || (97 <=? c) && (c <=? 122))%N.

Definition LF : N := 10.
Definition SPACE : N := 32.
Definition LPAREN : N := 40.
Definition RPAREN : N := 41.
Definition SLASH : N := 47.
Definition BULLET : N := 8226.

Fixpoint dropWhile (p : N -> bool) (s : jsstring) : jsstring :=
  match s with
  | [] => []
  | c :: s' => if p c then dropWhile p s' else s
  end.

Fixpoint takeWhile (p : N -> bool) (s : jsstring) : jsstring :=
  match s with
  | [] => []
  | c :: s' => if p c then c :: takeWhile p s' else []
  end.

Definition isEmpty (s : jsstring) : bool :=
  match s with [] => true | _ => false end.

(** [s.trim()] *)
Definition trim (s : jsstring) : jsstring :=
  rev (dropWhile isSpace (rev (dropWhile isSpace s))).

(** [s.toLowerCase()], on the Basic Latin and Latin-1 letters; a code unit
    above U+00FF is left as it is. *)
Definition lowerUnit (c : N) : N :=
  if ((65 <=? c) && (c <=? 90))%N then (c + 32)%N
  else if ((192 <=? c) && (c <=? 222) && negb (c =? 215))%N then (c + 32)%N
  else c.

Definition toLowerCase (s : jsstring) : jsstring := map lowerUnit s.

(** [s.replace(re, '')] for a regular expression that ends in [$] and
    cannot match the empty string: the match is the longest suffix of [s]
    in the language of [re], given by [suffix]. *)
Fixpoint removeSuffixMatch (suffix : jsstring -> bool) (s : jsstring) : jsstring :=
  if suffix s then []
  else match s with
       | [] => []
       | c :: s' => c :: removeSuffixMatch suffix s'
       end.

Fixpoint startsWith (s p : jsstring) : bool :=
  match p, s with
  | [], _ => true
  | x :: p', y :: s' => (x =? y)%N && startsWith s' p'
  | _ :: _, [] => false
  end.

(** [s.includes(sub)] *)
Fixpoint includes (s sub : jsstring) : bool :=
  startsWith s sub ||
  match s with
  | [] => false
  | _ :: s' => includes s' sub
  end.

(** [s.split(sep)] for a separator of one code unit. *)
Fixpoint splitOn (sep : N) (s : jsstring) : list jsstring :=
  match s with
  | [] => [[]]
  | c :: s' =>
      match splitOn sep s' with
      | piece :: pieces =>
          if (c =? sep)%N then [] :: piece :: pieces else (c :: piece) :: pieces
      | [] => [[c]] (* not reached: [splitOn] never gives the empty array *)
      end
  end.

(** [s.split(/\s+/)]: [cur] is the piece being read, in reverse, and
    [inRun] says that the code unit before was white space. *)
Fixpoint splitSpaces (s : jsstring) (inRun : bool) (cur : jsstring) : list jsstring :=
  match s with
  | [] => [rev cur]
  | c :: s' =>
      if isSpace c then
        if inRun then splitSpaces s' true cur
        else rev cur :: splitSpaces s' true []
      else splitSpaces s' false (c :: cur)
  end.

(** [pieces.join(sep)] *)
Fixpoint join (sep : jsstring) (pieces : list jsstring) : jsstring :=
  match pieces with
  | [] => []
  | [piece] => piece
  | piece :: rest => piece ++ sep ++ join sep rest
  end.

(** The number of code units up to and including the last line feed of [run]. *)
Fixpoint throughLastLF (run : jsstring) : option nat :=
  match run with
  | [] => None
  | c :: run' =>
      match throughLastLF run' with
      | Some k => Some (S k)
      | None => if (c =? LF)%N then Some 1%nat else None
      end
  end.

(** [s.split(/\n\s*\n/)]. A match starts at a line feed whose following
    run of white space holds another line feed, and ends at the last line
    feed of that run. [skip] counts the code units of the current match
    still to pass; [cur] is the piece being read, in reverse. *)
Fixpoint splitBlankLines (s : jsstring) (skip : nat) (cur : jsstring) : list jsstring :=
  match s with
  | [] => [rev cur]
  | c :: s' =>
      match skip with
      | S k => splitBlankLines s' k cur
      | O =>
          if (c =? LF)%N then
            match throughLastLF (takeWhile isSpace s') with
            | Some k => rev cur :: splitBlankLines s' k []
            | None => splitBlankLines s' 0 (c :: cur)
            end
          else splitBlankLines s' 0 (c :: cur)
      end
  end.

(** [Array.prototype.sort], which is stable: [le a b] stands for
    [compare(a, b) <= 0]. *)
Fixpoint insertBy {A : Type} (le : A -> A -> bool) (a : A) (l : list A) : list A :=
  match l with
  | [] => [a]
  | b :: l' => if le a b then a :: l else b :: insertBy le a l'
  end.

Definition sortBy {A : Type} (le : A -> A -> bool) (l : list A) : list A :=
  fold_right (insertBy le) [] l.

End Js.

(** ** Sample aggregator *)

Module Glucose.
Import Num.

(** An element of [glucoseData]: [{ value, timestamp }]. *)
Record reading := Reading { value : number; timestamp : Z }.

(** An element of [grouped]: [{ value: avgValue.toFixed(0), timestamp }]. *)
Record point := Point { g_value : fixed; g_timestamp : Z }.

(** [currentGroup.reduce((sum, r) => sum + r.value, 0) / currentGroup.length] *)
Definition avgValue (currentGroup : list reading) : number :=
  div (fold_left (fun sum r => add sum (value r)) currentGroup (Fin 0))
    (ofZ (Z.of_nat (length currentGroup))).

(** The object pushed on [grouped] when a group is closed. *)
Definition closeGroup (firstReading : reading) (currentGroup : list reading) : point :=
  Point (toFixed0 (avgValue currentGroup)) (timestamp firstReading).

(** One iteration of the [for] loop; the state is [(grouped, currentGroup)]. *)
Definition groupStep (groupThresholdMs : Z)
    (st : list point * list reading) (currentReading : reading)
    : list point * list reading :=
  let '(grouped, currentGroup) := st in
  match currentGroup with
  | [] => (grouped, [currentReading]) (* not reached: the group is never empty *)
  | firstReading :: _ =>
      let timeDiff := timestamp currentReading - timestamp firstReading in
      if timeDiff <=? groupThresholdMs
      then (grouped, currentGroup ++ [currentReading])
      else (grouped ++ [closeGroup firstReading currentGroup], [currentReading])
  end.

(** The [if (currentGroup.length > 0)] after the loop. *)
Definition groupFinish (st : list point * list reading) : list point :=
  let '(grouped, currentGroup) := st in
  match currentGroup with
  | [] => grouped
  | firstReading :: _ => grouped ++ [closeGroup firstReading currentGroup]
  end.

Definition groupGlucoseReadings (readings : list reading) (groupThresholdMs : Z)
    : list point :=
  match readings with
  | [] => []
  | r0 :: rest => groupFinish (fold_left (groupStep groupThresholdMs) rest ([], [r0]))
  end.

(** The groups the loop goes through, each kept as its first sample and
    the samples that joined it: used only to state and prove what
    [groupGlucoseReadings] emits. *)
Definition group : Type := reading * list reading.

Definition members (g : group) : list reading := fst g :: snd g.

Fixpoint groupsFrom (T : Z) (first : reading) (joined rest : list reading)
    : list group :=
  match rest with
  | [] => [(first, joined)]
  | r :: rest' =>
      if timestamp r - timestamp first <=? T
      then groupsFrom T first (joined ++ [r]) rest'
      else (first, joined) :: groupsFrom T r [] rest'
  end.

(** Every sample that joined a group is at most [T] after its first sample. *)
Definition group_ok (T : Z) (g : group) : Prop :=
  Forall (fun r => timestamp r - timestamp (fst g) <= T) (snd g).

(** The sample that opens a group is more than [T] after the first sample
    of the group before it. *)
Fixpoint boundaries_ok (T : Z) (gs : list group) : Prop :=
  match gs with
  | g :: ((g' :: _) as tl) =>
      T < timestamp (fst g') - timestamp (fst g) /\ boundaries_ok T tl
  | _ => True
  end.

(** The point emitted for a group. *)
Definition aggregate (g : group) : point := closeGroup (fst g) (members g).

(** The exact value of a finite number. *)
Definition exactValue (x : number) : option Q :=
  match double x with
  | Fin q => Some q
  | _ => None
  end.



(** A reading of a whole number [z] of mg/dL, from 0 to [2^31]. *)
Definition whole (r : reading) (z : Z) : Prop :=
  exactValue (value r) = Some (inject_Z z) /\ 0 <= z <= 2 ^ 31.


(** The samples in chronological order, and no two at the same instant. *)
Definition chronological (readings : list reading) : Prop :=
  Sorted (fun a b => timestamp a <= timestamp b) readings.

Definition distinct_instants (readings : list reading) : Prop :=
  NoDup (map timestamp readings).

(** *** Event correlator: the body of the [.map] that builds [scatterData] *)

(** [minDiff] starts at [Infinity]. *)
Inductive distance := Infinity | Finite (d : Z).

(** [diff < minDiff] *)
Definition diff_lt (diff : Z) (minDiff : distance) : bool :=
  match minDiff with
  | Infinity => true
  | Finite m => diff <? m
  end.

(** The callback of [groupedGlucoseData.forEach]; the state is
    [(closestGlucose, minDiff)]. *)
Definition closestStep (eventTimestamp : Z)
    (st : option point * distance) (glucose : point) : option point * distance :=
  let '(closestGlucose, minDiff) := st in
  let diff := Z.abs (g_timestamp glucose - eventTimestamp) in
  if diff_lt diff minDiff then (Some glucose, Finite diff) else (closestGlucose, minDiff).

Definition closestGlucose (groupedGlucoseData : list point) (eventTimestamp : Z)
    : option point :=
  fst (fold_left (closestStep eventTimestamp) groupedGlucoseData (None, Infinity)).

(** [closestGlucose ? closestGlucose.value : 40] *)
Definition yValue (groupedGlucoseData : list point) (eventTimestamp : Z) : fixed :=
  match closestGlucose groupedGlucoseData eventTimestamp with
  | Some glucose => g_value glucose
  | None => Int 40
  end.

(** The distance of a point from the instant [e] of an event. *)
Definition dist (e : Z) (p : point) : Z := Z.abs (g_timestamp p - e).

(** What the scan knows after the points [pre]: nothing, or a point at the
    least distance, the first of those at that distance. *)
Definition scanned (e : Z) (pre : list point) (st : option point * distance) : Prop :=
  match st with
  | (None, Infinity) => pre = []
  | (Some p, Finite d) =>
      d = dist e p /\
      exists i, pre !! i = Some p /\
        (forall j q, pre !! j = Some q -> dist e p <= dist e q) /\
        (forall j q, pre !! j = Some q -> dist e q = dist e p -> (i <= j)%nat)
  | _ => False
  end.

(** The aggregated points in the order of their timestamps. *)
Definition by_time (points : list point) : Prop :=
  forall i j a b, (i <= j)%nat -> points !! i = Some a -> points !! j = Some b ->
    g_timestamp a <= g_timestamp b.

(** *** Trend estimator *)

Inductive arrow := ArrowUp | ArrowUpRight | ArrowRight | ArrowDownRight | ArrowDown.

(** [trendArrows[trend] || null] *)
Definition trendArrows (trend : Z) : option arrow :=
  match trend with
  | 1 => Some ArrowUp
  | 2 => Some ArrowUpRight
  | 3 => Some ArrowRight
  | 4 => Some ArrowDownRight
  | 5 => Some ArrowDown
  | _ => None
  end.

(** The rate the bands are read from. The two instants are integers that
    are doubles, and so is their difference. *)
Definition ratePerMinute (oldestReading latestReading : reading) : number :=
  let timeDiffMs := ofZ (timestamp latestReading - timestamp oldestReading) in
  let timeDiffMinutes := div timeDiffMs (mul (Fin 60) (Fin 1000)) in
  let glucoseChange := sub (value latestReading) (value oldestReading) in
  div glucoseChange timeDiffMinutes.

Definition currentTrend (readings : list reading) : option arrow :=
  match readings with
  | [] => None
  | oldestReading :: _ =>
      let latestReading := List.last readings oldestReading in
      if (length readings <? 2)%nat then None
      else
        let rate := ratePerMinute oldestReading latestReading in
        let trend :=
          if gt rate (Fin 2) then 1
          else if gt rate (Fin 1) then 2
          else if ge rate (Fin (-1)) then 3
          else if ge rate (Fin (-2)) then 4
          else 5 in
        trendArrows trend
  end.

End Glucose.

(** ** The chart: events, zoom window and rendering *)

Module Chart.
Import Num Js Glucose.

(** [event.type]: the code only asks whether it is ['glucose_reading']. *)
Inductive event_type := glucose_reading | food | gym | medicine.

Definition is_glucose (t : event_type) : bool :=
  match t with glucose_reading => true | _ => false end.

(** An item of the response. [ev_timestamp] is the instant
    [new Date(event.timestamp.replace('Z', ''))] denotes. *)
Record event := Event {
  ev_type : event_type;
  ev_desc : jsstring;
  ev_timestamp : Z
}.

(** [zoomLevel]: ['all'], or a number of hours followed by ['h'], read by
    [parseInt]. *)
Inductive level := All | Hours (hours : Z).

(** The argument of [moveZoomWindow]: ['left'], or anything else. *)
Inductive direction := PanLeft | PanRight.

(** [fullDataRange]: [{ min, max }]. *)
Record range := Range { range_min : Z; range_max : Z }.

(** A point of the line, [{ x, y }], and a marker of the scatter series,
    [{ x, y, event }]. *)
Record xy := XY { pt_x : Z; pt_y : fixed }.
Record marker := Marker { m_x : Z; m_y : fixed; m_event : event }.

(** What [updateChart] hands to [new Chart]: the points of the line, the
    markers, the bounds of the x axis; and the zoom window the two filters
    used ([windowStart], [windowEnd]: locals of [updateChart]). *)
Record chart := MkChart {
  windowStart : Z;
  windowEnd : Z;
  axis_min : Z;
  axis_max : Z;
  displayDataPoints : list xy;
  scatterData : list marker
}.

(** The refs of [setup()] the chart depends on. *)
Record state := State {
  events : list event;
  timeThreshold : Z;
  zoomLevel : level;
  zoomWindowStart : Z;
  fullDataRange : range;
  chartInstance : option chart
}.

(** [Math.min(...l)] and [Math.max(...l)] of a list that is not empty. *)
Definition minOf (l : list Z) : Z :=
  match l with
  | [] => 0 (* not reached *)
  | t :: l' => fold_left Z.min l' t
  end.

Definition maxOf (l : list Z) : Z :=
  match l with
  | [] => 0 (* not reached *)
  | t :: l' => fold_left Z.max l' t
  end.

Definition getZoomWindowSize (st : state) : Z :=
  match zoomLevel st with
  | All => range_max (fullDataRange st) - range_min (fullDataRange st)
  | Hours hours => hours * 60 * 60 * 1000
  end.

(** The zoom window of [updateChart], from "Calculate zoom window based on
    zoom level" to "Ensure window stays within data bounds". *)
Definition zoomWindow (zoom : level) (start windowSize dataMinTimestamp dataMaxTimestamp : Z)
    : Z * Z :=
  let '(windowStart, windowEnd) :=
    match zoom with
    | All => (dataMinTimestamp, dataMaxTimestamp)
    | Hours _ =>
        let windowStart :=
          if (start =? 0) || (start <? dataMinTimestamp)
          then Z.max dataMinTimestamp (dataMaxTimestamp - windowSize)
          else start in
        (windowStart, windowStart + windowSize)
    end in
  let '(windowStart, windowEnd) :=
    if dataMaxTimestamp <? windowEnd
    then (dataMaxTimestamp - windowSize, dataMaxTimestamp)
    else (windowStart, windowEnd) in
  if windowStart <? dataMinTimestamp
  then (dataMinTimestamp, dataMaxTimestamp)
  else (windowStart, windowEnd).

(** [point.x >= windowStart && point.x <= windowEnd] *)
Definition inWindow (windowStart windowEnd t : Z) : bool :=
  (windowStart <=? t) && (t <=? windowEnd).

Section WithParseFloat.

(** [parseFloat], on the texts of the glucose readings: a number, [NaN]
    for a text that does not start as one. *)
Variable parseFloat : jsstring -> number.

Definition glucoseData (evs : list event) : list reading :=
  sortBy (fun a b => timestamp a <=? timestamp b)
    (map (fun ev => Reading (parseFloat (ev_desc ev)) (ev_timestamp ev))
       (List.filter (fun ev => is_glucose (ev_type ev)) evs)).

Definition otherEvents (evs : list event) : list event :=
  sortBy (fun a b => ev_timestamp a <=? ev_timestamp b)
    (List.filter (fun ev => negb (is_glucose (ev_type ev))) evs).

(** The locals of [updateChart] that depend on the events and the threshold
    only. *)
Definition groupedGlucoseData (st : state) : list point :=
  groupGlucoseReadings (glucoseData (events st)) (timeThreshold st * 60 * 1000).

Definition glucoseDataPoints (st : state) : list xy :=
  map (fun r => XY (g_timestamp r) (g_value r)) (groupedGlucoseData st).

Definition allTimestamps (st : state) : list Z :=
  map g_timestamp (groupedGlucoseData st) ++ map ev_timestamp (otherEvents (events st)).

(** The marker of an event: the body of the [.map] of [scatterData]. *)
Definition markerOf (st : state) (ev : event) : marker :=
  let eventTimestamp := ev_timestamp ev in
  Marker eventTimestamp (yValue (groupedGlucoseData st) eventTimestamp) ev.

(** The canvas is taken to exist: [updateChart] does not return at
    [if (!ctx) return]. *)
Definition updateChart (st : state) : state :=
  if (length (groupedGlucoseData st) =? 0)%nat then
    State (events st) (timeThreshold st) (zoomLevel st) (zoomWindowStart st)
      (fullDataRange st) None
  else
    let dataMinTimestamp := minOf (allTimestamps st) in
    let dataMaxTimestamp := maxOf (allTimestamps st) in
    let stored := State (events st) (timeThreshold st) (zoomLevel st) (zoomWindowStart st)
                    (Range dataMinTimestamp dataMaxTimestamp) (chartInstance st) in
    let windowSize := getZoomWindowSize stored in
    let '(windowStart, windowEnd) :=
      zoomWindow (zoomLevel st) (zoomWindowStart st) windowSize
        dataMinTimestamp dataMaxTimestamp in
    let padding := 2 * 60 * 1000 in
    let minTimestamp := windowStart - padding in
    let maxTimestamp := windowEnd + padding in
    let filteredGlucoseDataPoints :=
      List.filter (fun point => inWindow windowStart windowEnd (pt_x point))
        (glucoseDataPoints st) in
    let displayDataPoints :=
      if (0 <? length filteredGlucoseDataPoints)%nat
      then filteredGlucoseDataPoints else glucoseDataPoints st in
    let scatterData :=
      map (markerOf st)
        (List.filter (fun ev => inWindow windowStart windowEnd (ev_timestamp ev))
           (otherEvents (events st))) in
    State (events st) (timeThreshold st) (zoomLevel st) (zoomWindowStart st)
      (Range dataMinTimestamp dataMaxTimestamp)
      (Some (MkChart windowStart windowEnd (minTimestamp - padding) (maxTimestamp + padding)
               displayDataPoints scatterData)).

Definition setZoomLevel (lvl : level) (st : state) : state :=
  let start :=
    match lvl with
    | All => 0
    | Hours hours =>
        let windowSize := hours * 60 * 60 * 1000 in
        let dataRange := range_max (fullDataRange st) - range_min (fullDataRange st) in
        if dataRange <=? windowSize
        then range_min (fullDataRange st)
        else range_max (fullDataRange st) - windowSize
    end in
  updateChart
    (State (events st) (timeThreshold st) lvl start (fullDataRange st) (chartInstance st)).

(** [step] is [windowSize * 0.5]: the size is a whole number of hours in
    milliseconds, so the half is exact. *)
Definition moveZoomWindow (dir : direction) (st : state) : state :=
  match zoomLevel st with
  | All => st
  | Hours _ =>
      let dataRange := range_max (fullDataRange st) - range_min (fullDataRange st) in
      if dataRange <=? 0 then st
      else
        let windowSize := getZoomWindowSize st in
        let step := windowSize / 2 in
        let start :=
          match dir with
          | PanLeft => Z.max (range_min (fullDataRange st)) (zoomWindowStart st - step)
          | PanRight =>
              Z.min (range_max (fullDataRange st) - windowSize) (zoomWindowStart st + step)
          end in
        updateChart
          (State (events st) (timeThreshold st) (zoomLevel st) start (fullDataRange st)
             (chartInstance st))
  end.

(** The stored range is the range of the events on display: drawing the
    chart again does not change it. *)
Definition synced (st : state) : Prop :=
  fullDataRange (updateChart st) = fullDataRange st.

(** The invariant of the zoom state, for the zoom refs as stored. *)
Definition stored_window_inside (st : state) : Prop :=
  forall hours, zoomLevel st = Hours hours ->
    range_min (fullDataRange st) <= zoomWindowStart st /\
    zoomWindowStart st + hours * 60 * 60 * 1000 <= range_max (fullDataRange st).

(** The same for the window of the chart on display. *)
Definition drawn_window_inside (st : state) : Prop :=
  forall c, chartInstance st = Some c ->
    range_min (fullDataRange st) <= windowStart c /\
    windowEnd c <= range_max (fullDataRange st).

(** A zoom level whose length is not negative and not longer than the
    stored range. *)
Definition fits (full : range) (lvl : level) : Prop :=
  match lvl with
  | All => True
  | Hours hours =>
      0 <= hours /\ hours * 60 * 60 * 1000 <= range_max full - range_min full
  end.

(** The operations of the zoom controls. *)
Inductive op := SetZoom (lvl : level) | Pan (dir : direction).

Definition run (o : op) (st : state) : state :=
  match o with
  | SetZoom lvl => setZoomLevel lvl st
  | Pan dir => moveZoomWindow dir st
  end.

(** The invariant of the zoom state: it is asked of the stored window
    when the zoom length fits the stored range. *)
Definition zoom_invariant (st : state) : Prop :=
  fits (fullDataRange st) (zoomLevel st) -> stored_window_inside st.

(** No event of the day is a glucose reading. *)
Definition no_glucose (st : state) : Prop :=
  forall ev, In ev (events st) -> ev_type ev <> glucose_reading.

End WithParseFloat.

(** The days of the examples: readings at 10:00 and at 12:00; readings at
    02:00 and at 12:00; readings at 10:00 and at 12:00 and a meal at 11:00.
    Every reading is of 100, whatever its text. *)
Definition hundred (text : jsstring) : number := Fin 100.

Definition two_hours : list event :=
  [Event glucose_reading (utf16 "100") 36000000;
   Event glucose_reading (utf16 "100") 43200000].

Definition ten_hours : list event :=
  [Event glucose_reading (utf16 "100") 7200000;
   Event glucose_reading (utf16 "100") 43200000].

Definition lunch_day : list event :=
  [Event glucose_reading (utf16 "100") 36000000;
   Event food (utf16 "lunch") 39600000;
   Event glucose_reading (utf16 "100") 43200000].

(** The state once the chart of a day has been drawn, at zoom ['all']. *)
Definition drawn (evs : list event) : state :=
  updateChart hundred (State evs 30 All 0 (Range 0 0) None).

End Chart.

(** ** Catalog classifier *)

Module Classifier.
Import Num Js.

(** [weightTypes] *)
Definition weightTypes : list jsstring :=
  map utf16
    ["Peso"; "BMI"; "Grasa"; "Peso de grasa corporal";
     "Porcentaje de masa muscular esquelética";
     "Peso de la masa muscular esquelética";
     "Músculo"; "Peso muscular"; "Grasa Visceral"; "Agua (%)";
     "Peso del agua"; "Metabolismo"]%string.

(** The languages of the regular expressions, each read from the start of
    a suffix to the end of the string.
    - [trailingMarker]: [\s*[\)•]+\s*$]
    - [trailingParens]: [\s*\([^)]*\)\s*$]
    - [trailingSlash]: [\s*\/\s*\w+$] *)
Definition isMarker (c : N) : bool := ((c =? RPAREN) || (c =? BULLET))%N.

Definition isLeadingMarker (c : N) : bool :=
  (isSpace c || (c =? LPAREN) || (c =? BULLET))%N.

Definition trailingMarker (s : jsstring) : bool :=
  match dropWhile isSpace s with
  | c :: r => isMarker c && isEmpty (dropWhile isSpace (dropWhile isMarker r))
  | [] => false
  end.

Definition trailingParens (s : jsstring) : bool :=
  match dropWhile isSpace s with
  | c :: r =>
      (c =? LPAREN)%N &&
      match dropWhile (fun d => negb (d =? RPAREN)%N) r with
      | _ :: r' => isEmpty (dropWhile isSpace r')
      | [] => false
      end
  | [] => false
  end.

Definition trailingSlash (s : jsstring) : bool :=
  match dropWhile isSpace s with
  | c :: r =>
      (c =? SLASH)%N &&
      match dropWhile isSpace r with
      | d :: r' => isWord d && isEmpty (dropWhile isWord r')
      | [] => false
      end
  | [] => false
  end.

(** [.replace(/^[\s(•]+\s*/, '')] *)
Definition removeLeadingMarker (s : jsstring) : jsstring :=
  match s with
  | c :: _ => if isLeadingMarker c then dropWhile isSpace (dropWhile isLeadingMarker s) else s
  | [] => []
  end.

(** An element of [getNormalizedTypes()]: [{ original, normalized }]. *)
Record normalizedType := NT { original : jsstring; normalized : jsstring }.

(** [type.replace(/\s*\([^)]*\)\s*$/g, '').toLowerCase().trim()] *)
Definition normalizeType (type : jsstring) : jsstring :=
  trim (toLowerCase (removeSuffixMatch trailingParens type)).

Definition getNormalizedTypes : list normalizedType :=
  map (fun type => NT type (normalizeType type)) weightTypes.

(** [normalizedInput] of [findMatchingType]. *)
Definition normalizeInput (input : jsstring) : jsstring :=
  trim (toLowerCase
    (removeSuffixMatch trailingSlash
      (removeSuffixMatch trailingParens
        (removeSuffixMatch trailingMarker
          (removeLeadingMarker input))))).

Fixpoint getCommonPrefixLength (str1 str2 : jsstring) : nat :=
  match str1, str2 with
  | x :: str1', y :: str2' => if (x =? y)%N then S (getCommonPrefixLength str1' str2') else O
  | _, _ => O
  end.

(** [s.length], as a number. *)
Definition len (s : jsstring) : number := ofZ (Z.of_nat (length s)).

(** An element of [matches]: [{ type, score }]. *)
Record scored := Scored { s_type : jsstring; score : number }.

Definition peso : jsstring := utf16 "peso".

(** The callback of [normalizedTypes.map] in [findMatchingType]: [None] is
    [null]. *)
Definition scoreType (normalizedInput : jsstring) (nt : normalizedType) : option scored :=
  let typeContainsInput := includes (normalized nt) normalizedInput in
  let inputContainsType := includes normalizedInput (normalized nt) in
  if negb typeContainsInput && negb inputContainsType then None
  else
    let score := Fin 0 in
    let score :=
      if inputContainsType
      then
        let score := add score (Fin 1000) in
        add score (mul (div (len (normalized nt)) (len normalizedInput)) (Fin 100))
      else score in
    let score :=
      if typeContainsInput
      then
        let score := add score (Fin 500) in
        sub score (mul (div (len normalizedInput) (len (normalized nt))) (Fin 50))
      else score in
    let score := add score (mul (len (normalized nt)) (Fin 10)) in
    let commonPrefix := getCommonPrefixLength normalizedInput (normalized nt) in
    let score := add score (mul (ofZ (Z.of_nat commonPrefix)) (Fin 20)) in
    let score :=
      if jseq normalizedInput peso && negb (jseq (normalized nt) peso)
      then sub score (Fin 5000)
      else score in
    Some (Scored (original nt) score).

(** The comparator of [matches.sort]: [a] stays before [b] unless
    [b.score - a.score] is positive. *)
Definition byScore (a b : scored) : bool := negb (gt (sub (score b) (score a)) (Fin 0)).

Definition findMatchingType (input : jsstring) : option jsstring :=
  let normalizedInput := normalizeInput input in
  let normalizedTypes := getNormalizedTypes in
  match List.find (fun nt => jseq (normalized nt) normalizedInput) normalizedTypes with
  | Some exactMatch => Some (original exactMatch)
  | None =>
      let matches := omap (scoreType normalizedInput) normalizedTypes in
      let sortedMatches := sortBy byScore matches in
      match sortedMatches with
      | [] => None
      | best :: _ => Some (s_type best)
      end
  end.

(** An element of [weightItems]: [{ type, value, comment }]. *)
Record weightItem := WeightItem {
  w_type : jsstring;
  w_value : jsstring;
  w_comment : jsstring
}.

(** The refs [parseWeightText] reads and writes. *)
Record form := Form {
  weightText : jsstring;
  weightItems : list weightItem;
  unmatchedBlocks : list jsstring
}.

(** [block.trim().split('\n').map(l => l.trim()).filter(l => l)] *)
Definition linesOf (block : jsstring) : list jsstring :=
  List.filter (fun l => negb (isEmpty l)) (map trim (splitOn LF (trim block))).

(** What the callback of [blocks.forEach] does with a block. *)
Inductive outcome :=
  | Matched (item : weightItem)
  | Unmatched (text : jsstring)
  | Skipped.

Definition classifyBlock (block : jsstring) : outcome :=
  match linesOf block with
  | typeInput :: value :: more =>
      let comment := match more with [] => [] | _ => join [SPACE] more end in
      let trimmedComment := trim comment in
      let filteredComment :=
        join [SPACE]
          (List.filter (fun word => (2 <=? length word)%nat)
             (splitSpaces trimmedComment false [])) in
      match findMatchingType typeInput with
      | Some ((_ :: _) as matchedType) =>
          Matched (WeightItem matchedType value filteredComment)
      | _ => Unmatched (trim block)
      end
  | _ => Skipped
  end.

(** The callback of [blocks.forEach]; the state is [(matched, unmatched)]. *)
Definition parseStep (st : list weightItem * list jsstring) (block : jsstring)
    : list weightItem * list jsstring :=
  let '(matched, unmatched) := st in
  match classifyBlock block with
  | Matched item => (matched ++ [item], unmatched)
  | Unmatched text => (matched, unmatched ++ [text])
  | Skipped => (matched, unmatched)
  end.

(** The entry, or the text, a block leaves behind. *)
Definition matchedOf (o : outcome) : option weightItem :=
  match o with Matched item => Some item | _ => None end.

Definition unmatchedOf (o : outcome) : option jsstring :=
  match o with Unmatched text => Some text | _ => None end.

(** A block has a label and a value: at least two lines that are not blank. *)
Definition hasTwoLines (block : jsstring) : bool := (2 <=? length (linesOf block))%nat.

(** The texts of the examples. *)
Definition matched_and_unmatched : jsstring :=
  utf16 "Peso" ++ [LF] ++ utf16 "80" ++ [LF; LF] ++ utf16 "Foo" ++ [LF] ++ utf16 "12".

Definition matched_and_label_only : jsstring :=
  utf16 "Peso" ++ [LF] ++ utf16 "80" ++ [LF; LF] ++ utf16 "foo".

Definition parseWeightText (f : form) : form :=
  let blocks := splitBlankLines (weightText f) 0 [] in
  let '(matched, unmatched) := fold_left parseStep blocks ([], []) in
  Form (join [LF; LF] unmatched) (weightItems f ++ matched) unmatched.

End Classifier.

(** ** Weekly grid *)

Module BodyStats.
Import Js.

(** An element of [bodyStats]: [{ type, value, comment, epoch }];
    [epoch] is the integer [parseInt(item.epoch)] gives. *)
Record item := Item {
  type : jsstring;
  value : jsstring;
  comment : jsstring;
  epoch : Z
}.

(** An element of a grid: [{ date, value, comment, hasData }]; the value
    [None] is [null]. *)
Record cell := Cell {
  date : Z;
  cell_value : option jsstring;
  cell_comment : jsstring;
  hasData : bool
}.

Definition msPerDay : Z := 86400000.

(** The UTC calendar date of an instant: year, month (1 to 12) and day of
    the month, in the proleptic Gregorian calendar. *)
Definition civil (t : Z) : Z * Z * Z :=
  let z := t / msPerDay + 719468 in
  let era := z / 146097 in
  let doe := z - era * 146097 in
  let yoe := (doe - doe / 1460 + doe / 36524 - doe / 146096) / 365 in
  let doy := doe - (365 * yoe + yoe / 4 - yoe / 100) in
  let mp := (5 * doy + 2) / 153 in
  let d := doy - (153 * mp + 2) / 5 + 1 in
  let m := if mp <? 10 then mp + 3 else mp - 9 in
  let y := yoe + era * 400 + (if m <=? 2 then 1 else 0) in
  (y, m, d).

Definition getUTCFullYear (t : Z) : Z := fst (fst (civil t)).
Definition getUTCMonth (t : Z) : Z := snd (fst (civil t)) - 1.
Definition getUTCDate (t : Z) : Z := snd (civil t).

(** [String(n)] for an integer. *)
Definition String_ (n : Z) : jsstring :=
  utf16 (NilZero.string_of_int (Z.to_int n)).

(** [s.padStart(2, '0')] *)
Definition padStart2 (s : jsstring) : jsstring :=
  repeat 48%N (2 - length s) ++ s.

(** [dateKey]: year, month and day of the month, in UTC. *)
Definition dateKey (t : Z) : jsstring :=
  String_ (getUTCFullYear t) ++ utf16 "-" ++
  padStart2 (String_ (getUTCMonth t + 1)) ++ utf16 "-" ++
  padStart2 (String_ (getUTCDate t)).

(** The seven dates from [startDate], the instant
    [new Date(bodyStatsFromDate + 'T00:00:00Z')] denotes;
    [date.setUTCDate(startDate.getUTCDate() + i)] is [i] days later. *)
Definition dates (startDate : Z) : list Z :=
  map (fun i => startDate + i * msPerDay) [0; 1; 2; 3; 4; 5; 6].

(** The names every object has from [Object.prototype]: for these
    [groups[name]] is there before any record is seen, a function or, for
    ['__proto__'], the prototype itself. *)
Definition inheritedNames : list jsstring :=
  map utf16
    ["constructor"; "__defineGetter__"; "__defineSetter__"; "hasOwnProperty";
     "__lookupGetter__"; "__lookupSetter__"; "isPrototypeOf"; "propertyIsEnumerable";
     "toString"; "valueOf"; "__proto__"; "toLocaleString"]%string.

Definition isInherited (name : jsstring) : bool := existsb (jseq name) inheritedNames.

Definition PROTO : jsstring := utf16 "__proto__".

(** The object [groups]: the properties of its own, which [Object.keys]
    lists, and the properties the loop has put on [Object.prototype],
    which [groups] and every object of a type inherit. *)
Record store := Store {
  own : gmap jsstring (gmap jsstring item);
  onPrototype : gmap jsstring item
}.

(** The callback of [bodyStats.forEach]. [groups[type]] is looked up along
    the prototype chain: when it is found there, no object is made for the
    type and [groups[type][dateKey] = item] writes on what was found, which
    is [Object.prototype] for ['__proto__'], and otherwise a function or a
    record, where nothing reads it. *)
Definition groupStep (groups : store) (it : item) : store :=
  match own groups !! type it with
  | Some byDate =>
      Store (<[type it := <[dateKey (epoch it) := it]> byDate]> (own groups))
        (onPrototype groups)
  | None =>
      if jseq (type it) PROTO then
        Store (own groups) (<[dateKey (epoch it) := it]> (onPrototype groups))
      else if isInherited (type it) then groups
      else
        match onPrototype groups !! type it with
        | Some _ => groups
        | None =>
            Store (<[type it := {[dateKey (epoch it) := it]}]> (own groups))
              (onPrototype groups)
        end
  end.

(** [const groups = {}], with [Object.prototype] as the page loads it. *)
Definition noGroups : store := Store ∅ ∅.

Definition groupsOf (bodyStats : list item) : store :=
  fold_left groupStep bodyStats noGroups.

(** [groups[type][dateKey]], for one of the keys of [groups]: a property
    of the object of the type or, failing that, the one it inherits. *)
Definition lookupDate (groups : store) (byDate : gmap jsstring item) (dateKey : jsstring)
    : option item :=
  match byDate !! dateKey with
  | Some it => Some it
  | None => onPrototype groups !! dateKey
  end.

(** The callback of [dates.map]. *)
Definition cellOf (groups : store) (byDate : gmap jsstring item) (d : Z) : cell :=
  match lookupDate groups byDate (dateKey d) with
  | Some it =>
      Cell d (if isEmpty (value it) then None else Some (value it)) (comment it) true
  | None => Cell d None [] false
  end.

Definition groupedBodyStats (bodyStats : list item) (startDate : Z)
    : gmap jsstring (list cell) :=
  let groups := groupsOf bodyStats in
  (fun byDate => map (cellOf groups byDate) (dates startDate)) <$> own groups.


(** The week of the example: it starts on 2026-02-23 and has one record,
    a weight taken on 2026-02-24 at 07:30 UTC. *)
Definition week_start : Z := 1771804800000.


(** The same week with the record under the type ['constructor'], and
    with a second record, of the next day, under the type ['__proto__']. *)
Definition constructor_week : list item :=
  [Item (utf16 "constructor") (utf16 "80.5") (utf16 "en ayunas") 1771918200000].

Definition proto_week : list item :=
  [Item (utf16 "Peso") (utf16 "80.5") (utf16 "en ayunas") 1771918200000;
   Item PROTO (utf16 "81") [] 1772004600000].









End BodyStats.


(** ** Summary statistics *)

Module Stats.
Import Num Js Glucose.

(** What a statistic shows: ['-'], or the text [toFixed(0)] gives. *)
Inductive shown := Dash | Fixed (v : fixed).






Definition avgGlucose (glucoseReadings : list reading) : shown :=
  let values := map value glucoseReadings in
  if (length values =? 0)%nat then Dash
  else
    let sum := fold_left (fun a b => add a b) values (Fin 0) in
    Fixed (toFixed0 (div sum (ofZ (Z.of_nat (length values))))).


(** An entry of [zones]: [{ min, max }]. *)
Record zone := Zone { zone_min : number; zone_max : number }.

Definition sweetSpot : zone := Zone (Fin 60) (Fin 180).
Definition perfectSpot : zone := Zone (Fin 80) (Fin 120).

(** [{ inRange, aboveRange, belowRange, total }] *)
Record spotStats := SpotStats {
  inRange : nat;
  aboveRange : nat;
  belowRange : nat;
  total : nat
}.

(** The body shared by [sweetSpotStats] and [perfectSpotStats]. *)
Definition statsFor (z : zone) (readings : list reading) : spotStats :=
  SpotStats
    (length (List.filter
       (fun r => ge (value r) (zone_min z) && le (value r) (zone_max z)) readings))
    (length (List.filter (fun r => gt (value r) (zone_max z)) readings))
    (length (List.filter (fun r => lt (value r) (zone_min z)) readings))
    (length readings).

Definition sweetSpotStats (glucoseReadings : list reading) : spotStats :=
  statsFor sweetSpot glucoseReadings.


(** The readings whose value is a number. *)
Definition numeric (readings : list reading) : list reading :=
  List.filter (fun r => negb (isNaN (value r))) readings.

Definition perfectSpotStats (glucoseReadings : list reading) : spotStats :=
  statsFor perfectSpot glucoseReadings.

End Stats.


(** ** Editing the classified entries *)

Module Weight.
Import Js Classifier.

(** [weightItems.value.filter((_, i) => i !== index)] *)
Definition withoutIndex {A : Type} (index : nat) (items : list A) : list A :=
  map snd
    (List.filter (fun p => negb (fst p =? index)%nat)
       (combine (seq 0 (length items)) items)).

(** The text an entry is turned back into:
    [`${item.type}\n${item.value}\n${item.comment}`.trim()]. *)
Definition textOf (item : weightItem) : jsstring :=
  trim (w_type item ++ [LF] ++ w_value item ++ [LF] ++ w_comment item).

(** [editWeightItem(index)]; [None] is the [TypeError] of reading
    [item.type] when there is no entry at [index]. *)
Definition editWeightItem (index : nat) (f : form) : option form :=
  match nth_error (weightItems f) index with
  | None => None
  | Some item =>
      let text := textOf item in
      Some (Form
              (if isEmpty (weightText f) then text
               else weightText f ++ [LF; LF] ++ text)
              (withoutIndex index (weightItems f))
              (unmatchedBlocks f))
  end.

Definition clearWeightItems (f : form) : form := Form [] [] [].

(** ** Shapes of the strings of an entry *)

(** A string that does not start with white space. *)
Definition headOk (s : jsstring) : Prop :=
  match s with [] => True | c :: _ => isSpace c = false end.

(** A string with no white space at either end: [trim] leaves it as it is. *)
Definition tidy (s : jsstring) : Prop := headOk s /\ headOk (rev s).

(** A word: not empty and without white space. *)
Definition word (w : jsstring) : Prop :=
  w <> [] /\ Forall (fun c => isSpace c = false) w.

(** No line feed of [s] is followed by white space up to another line
    feed: [/\n\s*\n/] has no match in [s]. *)
Fixpoint calm (s : jsstring) : bool :=
  match s with
  | [] => true
  | c :: s' =>
      (if (c =? LF)%N
       then match throughLastLF (takeWhile isSpace s') with
            | Some _ => false
            | None => true
            end
       else true) && calm s'
  end.

End Weight.


(** ** The order of the types and the first day of the week *)

Module BodyStatsOrder.
Import Js BodyStats.

(** [today.getUTCDay()]: 0 is Sunday; the epoch was a Thursday. *)
Definition getUTCDay (t : Z) : Z := (t / msPerDay + 4) mod 7.

(** The date [monday] of [getPreviousMonday], for [today : Date]:
    [monday.setUTCDate(today.getUTCDate() - diff)] is [diff] days earlier. *)
Definition previousMonday (today : Z) : Z :=
  let day := getUTCDay today in
  let diff := if day =? 0 then 6 else day - 1 in
  today - diff * msPerDay.

Definition priorityOrder : list jsstring :=
  map utf16 ["Peso"; "BMI"; "Grasa"; "Músculo"; "Agua (%)"; "Metabolismo"]%string.

(** [array.indexOf(s)], counting from [i]: -1 when [s] is not there. *)
Fixpoint indexFrom (i : Z) (array : list jsstring) (s : jsstring) : Z :=
  match array with
  | [] => -1
  | x :: array' => if jseq x s then i else indexFrom (i + 1) array' s
  end.

Definition indexOf (array : list jsstring) (s : jsstring) : Z := indexFrom 0 array s.

Section WithLocaleCompare.

(** [a.localeCompare(b)], which depends on the locale of the browser; it
    is a consistent comparison, so that the stable sort is determined. *)
Variable localeCompare : jsstring -> jsstring -> Z.

(** The comparator of [allTypes.sort]. *)
Definition compareTypes (a b : jsstring) : Z :=
  let indexA := indexOf priorityOrder a in
  let indexB := indexOf priorityOrder b in
  if negb (indexA =? -1) && negb (indexB =? -1) then indexA - indexB
  else if negb (indexA =? -1) then -1
  else if negb (indexB =? -1) then 1
  else localeCompare a b.

(** [orderedBodyStatsTypes], for [allTypes = Object.keys(groupedBodyStats)]. *)
Definition orderedBodyStatsTypes (allTypes : list jsstring) : list jsstring :=
  sortBy (fun a b => compareTypes a b <=? 0) allTypes.

End WithLocaleCompare.

(** [a] may stand before [b]: [b] is not a priority type, or both are and
    [a] is not later than [b] in the priority list. *)
Definition may_precede (a b : jsstring) : Prop :=
  indexOf priorityOrder b = -1 \/
  0 <= indexOf priorityOrder a <= indexOf priorityOrder b.

End BodyStatsOrder.

(** ** Sections and the login *)

Module Session.
Import Js.

(** [currentSection] *)
Inductive section := glucose | bodystats | weight.

(** The refs of the authentication, and the ['authToken'] entry of
    [localStorage] ([None] when there is none). *)
Record session := Session {
  authToken : jsstring;
  storedToken : option jsstring;
  currentSection : section;
  showLoginModal : bool;
  loginError : jsstring;
  loginUsername : jsstring;
  loginPassword : jsstring
}.

(** The state [setup()] starts from:
    [authToken = localStorage.getItem('authToken') || '']. *)
Definition start (stored : option jsstring) : session :=
  Session (default [] stored) stored glucose false [] [] [].

(** What the request of [login] comes back with: the [fetch] throws or
    the body of a successful response cannot be read, or there is a
    response with a status and a body whose [token] is [None] when the
    body has none. *)
Inductive response := Throws | Http (status : Z) (token : option jsstring).

Definition ok (status : Z) : bool := (200 <=? status) && (status <=? 299).

Definition wrongCredentials : jsstring := utf16 "Usuario o contraseña incorrectos".
Definition noToken : jsstring := utf16 "Error: No se recibió token".
Definition connectionError : jsstring := utf16 "Error de conexión. Intenta nuevamente.".

Definition withError (message : jsstring) (st : session) : session :=
  Session (authToken st) (storedToken st) (currentSection st) (showLoginModal st)
    message (loginUsername st) (loginPassword st).

Definition login (r : response) (st : session) : session :=
  match r with
  | Throws => withError connectionError st
  | Http status token =>
      if status =? 401 then withError wrongCredentials st
      else if negb (ok status) then withError connectionError st
      else
        match token with
        | Some ((_ :: _) as t) => Session t (Some t) weight false [] [] []
        | _ => withError noToken st
        end
  end.

Definition logout (st : session) : session :=
  Session [] None glucose (showLoginModal st) (loginError st)
    (loginUsername st) (loginPassword st).

Definition setSection (s : section) (st : session) : session :=
  match s, authToken st with
  | weight, [] =>
      Session (authToken st) (storedToken st) (currentSection st) true
        (loginError st) (loginUsername st) (loginPassword st)
  | _, _ =>
      Session (authToken st) (storedToken st) s (showLoginModal st)
        (loginError st) (loginUsername st) (loginPassword st)
  end.

(** What the user and the server can do. *)
Inductive action := SetSection (s : section) | Login (r : response) | Logout.

Definition act (a : action) (st : session) : session :=
  match a with
  | SetSection s => setSection s st
  | Login r => login r st
  | Logout => logout st
  end.

(** The token in use is the one kept in [localStorage], and the input
    section is shown only with a token. *)
Definition consistent (st : session) : Prop :=
  authToken st = default [] (storedToken st) /\
  (currentSection st = weight -> authToken st <> []).

End Session.

(** ** The label of a marker *)

Module Tooltip.
Import Js.

Definition maxCharsPerLine : nat := 50.

(** The callback of [words.forEach]; the state is [(lines, currentLine)]. *)
Definition wrapStep (st : list jsstring * jsstring) (word : jsstring)
    : list jsstring * jsstring :=
  let '(lines, currentLine) := st in
  if (length (currentLine ++ [SPACE] ++ word) <=? maxCharsPerLine)%nat
  then (lines, currentLine ++ (if isEmpty currentLine then [] else [SPACE]) ++ word)
  else ((if isEmpty currentLine then lines else lines ++ [currentLine]), word).

Definition wrapWords (words : list jsstring) : list jsstring :=
  let '(lines, currentLine) := fold_left wrapStep words ([], []) in
  if isEmpty currentLine then lines else lines ++ [currentLine].

(** What the [label] callback returns for a marker: the text, or its lines. *)
Inductive labelText := OneLine (text : jsstring) | Lines (lines : list jsstring).

(** [label] for the scatter series, from [text = `${event.type}: ${event.desc}`]. *)
Definition scatterLabel (text : jsstring) : labelText :=
  if (maxCharsPerLine <? length text)%nat
  then Lines (wrapWords (splitOn SPACE text))
  else OneLine text.

(** The words of a list of strings that are not empty. *)
Definition wordsOf (pieces : list jsstring) : list jsstring :=
  List.filter (fun w => negb (isEmpty w)) (flat_map (splitOn SPACE) pieces).

(** A line is fine when it is not empty and is either short enough or one
    of the words. *)
Definition fine (words : list jsstring) (line : jsstring) : Prop :=
  line <> [] /\ ((length line <= maxCharsPerLine)%nat \/ In line words).

End Tooltip.

(** ** The first version of the chart ([app.js]) *)

Module Legacy.
Import Num Js Glucose.

(** The callback of [glucoseData.reduce]; a reading is kept with its place
    in [glucoseData], which is what [indexOf] finds again. *)
Definition closerStep (eventTimestamp : Z)
    (closest : nat * reading) (current : nat * reading) : nat * reading :=
  let diff := Z.abs (timestamp (snd current) - eventTimestamp) in
  let closestDiff := Z.abs (timestamp (snd closest) - eventTimestamp) in
  if diff <? closestDiff then current else closest.

(** A point of the scatter series: [{ x: xIndex, y: closestGlucose.value }]. *)
Definition scatterPoint (glucoseData : list reading) (eventTimestamp : Z)
    : option (nat * number) :=
  match glucoseData with
  | [] => None (* [updateChart] has returned before *)
  | first :: _ =>
      let closestGlucose :=
        fold_left (closerStep eventTimestamp)
          (combine (seq 0 (length glucoseData)) glucoseData) (0%nat, first) in
      Some (fst closestGlucose, value (snd closestGlucose))
  end.

(** The distance of a reading from the instant [e] of an event. *)
Definition away (e : Z) (r : reading) : Z := Z.abs (timestamp r - e).

(** What the reduction holds after the readings [pre] of [g]: a reading of
    [g] with its place, nearest among [pre] and before every other reading
    of [pre] as near. *)
Definition nearest_so_far (e : Z) (g pre : list reading) (st : nat * reading) : Prop :=
  g !! fst st = Some (snd st) /\ (fst st <= length pre)%nat /\
  forall j q, pre !! j = Some q ->
    away e (snd st) <= away e q /\ (away e q = away e (snd st) -> (fst st <= j)%nat).

End Legacy.

(** * Properties *)

Module JsFacts.
Import Js.

Lemma jseq_eq (a b : jsstring) : jseq a b = true <-> a = b.
Proof.
  revert b. induction a as [|x a IH]; intros [|y b]; cbn; try (split; congruence).
  rewrite andb_true_iff, N.eqb_eq, IH. split; [intros [-> ->]; reflexivity | intros [= -> ->]; auto].
Qed.

End JsFacts.

Module NumFacts.
Import Num.

(** *** [toFixed(0)] *)



Lemma round_div_Qeq (n d m e : Z) :
  0 < d -> 0 < e -> n * e = m * d ->
  (2 * n + d) / (2 * d) = (2 * m + e) / (2 * e).
Proof.
  intros Hd He E.
  pose proof (Z.div_mod (2 * m + e) (2 * e) ltac:(lia)) as Hm.
  pose proof (Z.mod_pos_bound (2 * m + e) (2 * e) ltac:(lia)) as Hb.
  set (k := (2 * m + e) / (2 * e)) in *.
  set (r := (2 * m + e) mod (2 * e)) in *.
  symmetry. apply Z.div_unique with (r := (2 * n + d) - 2 * d * k); [|lia].
  left. nia.
Qed.

Lemma roundHalfAway_Qeq (x y : Q) : (x == y)%Q -> roundHalfAway x = roundHalfAway y.
Proof.
  unfold Qeq, roundHalfAway. destruct x as [n d], y as [m e]; simpl. intros E.
  assert (Hd : 0 < Z.pos d) by lia. assert (He : 0 < Z.pos e) by lia.
  destruct (Z.leb_spec 0 n), (Z.leb_spec 0 m); try nia.
  - apply round_div_Qeq; lia.
  - f_equal. apply round_div_Qeq; lia.
Qed.

Lemma round_div_int (z : Z) : (2 * z + 1) / (2 * 1) = z.
Proof. symmetry. apply Z.div_unique with (r := 1); lia. Qed.

Lemma roundHalfAway_inject_Z (z : Z) : roundHalfAway (inject_Z z) = z.
Proof.
  unfold roundHalfAway, inject_Z. cbn [Qnum Qden].
  destruct (Z.leb_spec 0 z); rewrite round_div_int; lia.
Qed.

(** *** Rounding to a double *)

Lemma round64_Qeq (p q : Q) : (p == q)%Q -> round64 p = round64 q.
Proof. intros H. unfold round64. now rewrite (Qred_complete _ _ H). Qed.

(** *** Ties to even *)

Lemma nearestEven_exact (m d : Z) : 0 < d -> nearestEven (m * d) d = m.
Proof.
  intros Hd. unfold nearestEven. rewrite Z.div_mul, Z.mod_mul by lia.
  rewrite Z.mul_0_r. destruct (Z.compare_spec 0 d); lia.
Qed.

Lemma nearestEven_bounds (a b : Z) :
  0 <= a -> 0 < b ->
  a / b <= nearestEven a b <= a / b + 1 /\
  2 * Z.abs (nearestEven a b * b - a) <= b.
Proof.
  intros Ha Hb. unfold nearestEven.
  pose proof (Z.div_mod a b ltac:(lia)) as E.
  pose proof (Z.mod_pos_bound a b Hb) as Hr.
  set (k := a / b) in *. set (r := a mod b) in *.
  destruct (Z.compare_spec (2 * r) b); [destruct (Z.even k)| |]; split; nia.
Qed.

Lemma nearestEven_scale (a b c : Z) :
  0 < b -> 0 < c -> nearestEven (a * c) (b * c) = nearestEven a b.
Proof.
  intros Hb Hc. unfold nearestEven.
  rewrite Z.div_mul_cancel_r, Zmult_mod_distr_r by lia.
  replace (2 * (a mod b * c)) with (2 * (a mod b) * c) by ring.
  now rewrite <- Zmult_compare_compat_r by lia.
Qed.

(** *** Doubles, in units of the least one *)

Lemma tiny_pos : 0 < tiny.
Proof. unfold tiny. apply Z.pow_pos_nonneg; lia. Qed.

(** The rounding, with the units written out. *)
Lemma nearestDouble_units (a b : Z) :
  0 < b ->
  nearestDouble a b =
    let g := Z.max 0 (Z.log2 (a * tiny / b) - 52) in
    nearestEven (a * tiny) (b * 2 ^ g) * 2 ^ g.
Proof.
  intros Hb. unfold nearestDouble. cbv zeta.
  set (g := Z.max 0 (Z.log2 (a * tiny / b) - 52)). f_equal.
  destruct (Z.leb_spec g 1074).
  - assert (Hp : 0 < 2 ^ g) by (apply Z.pow_pos_nonneg; lia).
    replace (a * tiny) with (a * 2 ^ (1074 - g) * 2 ^ g).
    + now rewrite nearestEven_scale.
    + unfold tiny. rewrite <- Z.mul_assoc, <- Z.pow_add_r by lia. do 2 f_equal. lia.
  - assert (Hp : 0 < 2 ^ (g - 1074)) by (apply Z.pow_pos_nonneg; lia).
    replace (b * 2 ^ g) with (b * 2 ^ (g - 1074) * tiny).
    + rewrite nearestEven_scale; [reflexivity|nia|apply tiny_pos].
    + unfold tiny. rewrite <- Z.mul_assoc, <- Z.pow_add_r by lia. do 2 f_equal. lia.
Qed.

Lemma representable_mul (m g : Z) :
  0 <= m <= 2 ^ 53 -> 0 <= g -> representable (m * 2 ^ g).
Proof.
  intros Hm Hg. unfold representable.
  destruct (Z.eq_dec m 0) as [->|Hne].
  { rewrite Z.mul_0_l. apply Z.mod_0_l. apply Z.pow_nonzero; lia. }
  assert (Hpos : 0 < m) by lia.
  rewrite Z.log2_mul_pow2 by lia.
  destruct (Z.eq_dec m (2 ^ 53)) as [->|Hlt].
  - rewrite Z.log2_pow2 by lia.
    replace (Z.max 0 (g + 53 - 52)) with (g + 1) by lia.
    replace (2 ^ 53 * 2 ^ g) with (2 ^ 52 * 2 ^ (g + 1)).
    + apply Z.mod_mul. apply Z.pow_nonzero; lia.
    + rewrite <- !Z.pow_add_r by lia. f_equal. lia.
  - assert (Hl : Z.log2 m < 53) by (apply Z.log2_lt_pow2; lia).
    pose proof (Z.log2_nonneg m) as Hl0.
    set (g' := Z.max 0 (g + Z.log2 m - 52)).
    assert (Hg' : 0 <= g' <= g) by lia.
    replace (2 ^ g) with (2 ^ (g - g') * 2 ^ g')
      by (rewrite <- Z.pow_add_r by lia; f_equal; lia).
    rewrite Z.mul_assoc. apply Z.mod_mul. apply Z.pow_nonzero; lia.
Qed.

Lemma div_lt_mul (a b k : Z) : 0 < b -> a / b < k -> a < b * k.
Proof.
  intros Hb H. pose proof (Z.mul_succ_div_gt a b Hb). nia.
Qed.

(** The shape of a rounded value: a significand of at most 53 bits times
    the spacing, within half the spacing of what was rounded. *)
Lemma nearestDouble_shape (a b : Z) :
  0 <= a -> 0 < b ->
  let g := Z.max 0 (Z.log2 (a * tiny / b) - 52) in
  exists m,
    nearestDouble a b = m * 2 ^ g /\ 0 <= m <= 2 ^ 53 /\
    2 * Z.abs (m * 2 ^ g * b - a * tiny) <= b * 2 ^ g /\
    b * 2 ^ g * 2 ^ 52 <= Z.max (b * 2 ^ 52) (a * tiny).
Proof.
  intros Ha Hb g. pose proof tiny_pos as Ht.
  set (u := a * tiny) in *. assert (Hu : 0 <= u) by (unfold u; nia).
  assert (Hg : 0 <= g) by lia.
  assert (Hp : 0 < 2 ^ g) by (apply Z.pow_pos_nonneg; lia).
  assert (Hbg : 0 < b * 2 ^ g) by nia.
  exists (nearestEven u (b * 2 ^ g)). rewrite nearestDouble_units by exact Hb.
  cbv zeta. fold u. fold g.
  split; [reflexivity|].
  destruct (nearestEven_bounds u (b * 2 ^ g) Hu Hbg) as [[B1 B2] B3].
  assert (Hq : 0 <= u / b) by (apply Z.div_pos; lia).
  assert (Hup : u < b * 2 ^ (g + 53)).
  { apply div_lt_mul; [exact Hb|].
    destruct (Z.eq_dec (u / b) 0) as [->|Hne]; [apply Z.pow_pos_nonneg; lia|].
    apply Z.log2_lt_pow2; lia. }
  split; [split|split].
  - pose proof (Z.div_pos u (b * 2 ^ g) Hu Hbg). lia.
  - assert (u / (b * 2 ^ g) < 2 ^ 53); [|lia].
    apply Z.div_lt_upper_bound; [exact Hbg|].
    rewrite Z.pow_add_r in Hup by lia. nia.
  - replace (nearestEven u (b * 2 ^ g) * 2 ^ g * b)
      with (nearestEven u (b * 2 ^ g) * (b * 2 ^ g)) by ring. exact B3.
  - destruct (Z.max_spec 0 (Z.log2 (u / b) - 52)) as [[Hlt E]|[Hge E]]; fold g in E.
    + assert (Hub : 2 ^ (g + 52) <= u / b).
      { apply Z.log2_le_pow2; [|lia].
        destruct (Z.eq_dec (u / b) 0) as [E0|]; [|lia].
        rewrite E0 in Hlt. cbn in Hlt. lia. }
      pose proof (Z.mul_div_le u b Hb) as Hle.
      rewrite Z.pow_add_r in Hub by lia. nia.
    + rewrite E. rewrite Z.pow_0_r. lia.
Qed.

Lemma nearestDouble_exact (a b n : Z) :
  0 < b -> 0 <= n -> a * tiny = n * b -> representable n -> nearestDouble a b = n.
Proof.
  intros Hb Hn E Hr. rewrite nearestDouble_units by exact Hb. cbv zeta.
  rewrite E, Z.div_mul by lia.
  set (g := Z.max 0 (Z.log2 n - 52)). unfold representable in Hr. fold g in Hr.
  assert (Hp : 0 < 2 ^ g) by (apply Z.pow_pos_nonneg; lia).
  pose proof (Z.div_mod n (2 ^ g) ltac:(lia)) as D. rewrite Hr, Z.add_0_r in D.
  set (k := n / 2 ^ g) in *.
  replace (n * b) with (k * (b * 2 ^ g)) by (rewrite D at 1; ring).
  rewrite nearestEven_exact by nia. lia.
Qed.

Lemma nearestDouble_representable (a b : Z) :
  0 <= a -> 0 < b -> 0 <= nearestDouble a b /\ representable (nearestDouble a b).
Proof.
  intros Ha Hb. destruct (nearestDouble_shape a b Ha Hb) as (m & -> & Hm & _).
  set (g := Z.max 0 _). assert (Hg : 0 <= g) by lia.
  assert (Hp : 0 < 2 ^ g) by (apply Z.pow_pos_nonneg; lia).
  split; [nia|]. now apply representable_mul.
Qed.

Lemma nearestDouble_zero (b : Z) : 0 < b -> nearestDouble 0 b = 0.
Proof.
  intros Hb. apply nearestDouble_exact; try lia.
  unfold representable. apply Z.mod_0_l. apply Z.pow_nonzero; lia.
Qed.

(** *** [round64] *)

(** What [round64] computes, with the rational in lowest terms. *)
Lemma round64_red (q : Q) :
  round64 q =
    let n := nearestDouble (Z.abs (Qnum (Qred q))) (Z.pos (Qden (Qred q))) in
    if huge <=? n then (if Qnum (Qred q) <? 0 then NegInf else PosInf)
    else Fin (Qred (Z.sgn (Qnum (Qred q)) * n # Z.to_pos tiny)).
Proof. reflexivity. Qed.

(** A number that is a double already is not changed. *)
Lemma round64_exact (q : Q) (n : Z) :
  0 <= n < huge -> representable n ->
  Z.abs (Qnum q) * tiny = n * Z.pos (Qden q) ->
  round64 q = Fin (Qred q).
Proof.
  intros Hn Hr E. pose proof tiny_pos as Ht.
  assert (Eq : (Qred q == q)%Q) by apply Qred_correct.
  rewrite round64_red. cbv zeta.
  destruct (Qred q) as [p d] eqn:Eqr. destruct q as [p0 d0].
  unfold Qeq in Eq. cbn [Qnum Qden] in *.
  assert (E' : Z.abs p * tiny = n * Z.pos d).
  { assert (Z.abs p * Z.pos d0 = Z.abs p0 * Z.pos d) by nia.
    apply (Z.mul_reg_r _ _ (Z.pos d0)); [lia|]. nia. }
  rewrite (nearestDouble_exact (Z.abs p) (Z.pos d) n) by (try lia; assumption).
  destruct (Z.leb_spec huge n); [lia|].
  f_equal. transitivity (Qred (p # d)); [|rewrite <- Eqr; apply Qcanon.Qred_involutive].
  apply Qred_complete. unfold Qeq. cbn [Qnum Qden]. rewrite Z2Pos.id by lia.
  destruct (Z.sgn_spec p) as [[? ->]|[[? ->]|[? ->]]]; nia.
Qed.

Lemma round64_fixed (q r : Q) : round64 q = Fin r -> round64 r = Fin r.
Proof.
  rewrite round64_red. cbv zeta. pose proof tiny_pos as Ht.
  set (p := Qnum (Qred q)). set (d := Z.pos (Qden (Qred q))).
  destruct (nearestDouble_representable (Z.abs p) d ltac:(lia) ltac:(unfold d; lia))
    as [Hn Hr].
  set (n := nearestDouble (Z.abs p) d) in *.
  destruct (Z.leb_spec huge n) as [|Hlt]; [destruct (p <? 0); discriminate|].
  set (x := (Z.sgn p * n # Z.to_pos tiny)). intros H.
  assert (Er : r = Qred x) by congruence. subst r. clear H.
  rewrite (round64_exact (Qred x) n); [now rewrite Qcanon.Qred_involutive|lia|exact Hr|].
  pose proof (Qred_correct x) as Ex. destruct (Qred x) as [p' d'].
  unfold Qeq, x in Ex. cbn [Qnum Qden] in *. rewrite Z2Pos.id in Ex by lia.
  assert (n = 0 \/ p <> 0) as [Hz|Hp].
  { destruct (Z.eq_dec p 0) as [E0|]; [left|now right].
    unfold n. rewrite E0. apply nearestDouble_zero. unfold d. lia. }
  - rewrite Hz in *. nia.
  - destruct (Z.sgn_spec p) as [[? Es]|[[? Es]|[? Es]]]; rewrite Es in Ex; nia.
Qed.

Lemma double_double (x : number) : double (double x) = double x.
Proof.
  destruct x as [q| | |]; try reflexivity. cbn [double].
  destruct (round64 q) as [r| | |] eqn:E; try reflexivity.
  cbn [double]. apply (round64_fixed q r E).
Qed.

Lemma huge_tiny : huge = 2 ^ 1024 * tiny.
Proof. unfold huge, tiny. rewrite <- Z.pow_add_r by lia. reflexivity. Qed.

(** Every rational with at most 53 significant bits above [2^-1074] is a
    double. *)
Lemma round64_dyadic (q : Q) (m e : Z) :
  0 <= e <= 1074 -> Z.abs m <= 2 ^ 53 -> (q == m # Z.to_pos (2 ^ e))%Q ->
  round64 q = Fin (Qred q).
Proof.
  intros He Hm E. pose proof tiny_pos as Ht.
  assert (Hp : 0 < 2 ^ e) by (apply Z.pow_pos_nonneg; lia).
  assert (Hp' : 0 < 2 ^ (1074 - e)) by (apply Z.pow_pos_nonneg; lia).
  assert (Et : tiny = 2 ^ e * 2 ^ (1074 - e)).
  { unfold tiny. rewrite <- Z.pow_add_r by lia. f_equal. lia. }
  apply (round64_exact q (Z.abs m * 2 ^ (1074 - e))).
  - split; [nia|]. rewrite huge_tiny, Et.
    assert (2 ^ 53 < 2 ^ 1024) by (apply Z.pow_lt_mono_r; lia).
    assert (Z.abs m * 2 ^ (1074 - e) < 2 ^ 1024 * 2 ^ (1074 - e)) by nia.
    nia.
  - apply representable_mul; lia.
  - destruct q as [p d]. unfold Qeq in E. cbn [Qnum Qden] in *.
    rewrite Z2Pos.id in E by lia. rewrite Et.
    assert (Z.abs p * 2 ^ e = Z.abs m * Z.pos d) by nia. nia.
Qed.

Lemma round64_Z (z : Z) : Z.abs z <= 2 ^ 53 -> round64 (inject_Z z) = Fin (inject_Z z).
Proof.
  intros Hz. rewrite (round64_dyadic (inject_Z z) z 0) by (try lia; reflexivity).
  f_equal. apply Qcanon.Qred_identity. cbn. apply Z.gcd_1_r.
Qed.


(** *** The operations *)

Lemma double_round64 (q : Q) : double (round64 q) = round64 q.
Proof. exact (double_double (Fin q)). Qed.

Lemma double_fixed (x : number) (q : Q) : double x = Fin q -> round64 q = Fin q.
Proof.
  intros E. pose proof (double_double x) as H. rewrite E in H. exact H.
Qed.

Lemma double_zero : double (Fin 0) = Fin 0.
Proof. vm_compute. reflexivity. Qed.

Lemma double_ofZ (z : Z) : Z.abs z <= 2 ^ 53 -> double (ofZ z) = Fin (inject_Z z).
Proof. apply round64_Z. Qed.

Lemma add_zero_l (x : number) : add (Fin 0) x = double x.
Proof.
  unfold add. rewrite double_zero. destruct (double x) as [q| | |] eqn:E; try reflexivity.
  rewrite (round64_Qeq (0 + q) q) by ring. apply (double_fixed x q E).
Qed.

Lemma div_one_r (x : number) : div x (ofZ 1) = double x.
Proof.
  unfold div. rewrite double_ofZ by (cbn; lia).
  destruct (double x) as [q| | |] eqn:E; try reflexivity.
  cbn [Qeq_bool Qnum Qden inject_Z]. cbn.
  rewrite (round64_Qeq (q / inject_Z 1) q) by (field). apply (double_fixed x q E).
Qed.

Lemma toFixed0_double (x : number) : toFixed0 (double x) = toFixed0 x.
Proof. unfold toFixed0. now rewrite double_double. Qed.

(** *** Rounding between two doubles *)






(** *** The nearest integer *)



(** Some well-known results: [0.1 + 0.2] is [0.30000000000000004] and not
    [0.3]; [1e308 * 10] is [Infinity]; half the least positive double is
    0, and three halves of it are twice it; [0 / 0] is [NaN]. *)
Example double_arithmetic :
  add (Fin (1 # 10)) (Fin (2 # 10)) = double (Fin (30000000000000004 # 10 ^ 17)) /\
  add (Fin (1 # 10)) (Fin (2 # 10)) <> double (Fin (3 # 10)) /\
  mul (Fin (inject_Z (10 ^ 308))) (Fin 10) = PosInf /\
  div (Fin (1 # 2 ^ 1074)) (Fin 2) = Fin 0 /\
  mul (Fin (1 # 2 ^ 1074)) (Fin (3 # 2)) = Fin (1 # 2 ^ 1073) /\
  div (Fin 0) (Fin 0) = NaN.
Proof.
  split; [vm_compute; reflexivity|]. split; [vm_compute; discriminate|].
  repeat split; vm_compute; reflexivity.
Qed.



Lemma Qle_bool_false (x y : Q) : Qle_bool x y = false -> (y < x)%Q.
Proof.
  intros E. apply Qnot_le_lt. intros H. apply Qle_bool_iff in H. congruence.
Qed.


End NumFacts.

Module GlucoseFacts.
Import Num NumFacts Glucose.

Section Aggregator.
Variable T : Z.

Lemma loop_groups (rest : list reading) :
  forall grouped first joined,
    groupFinish (fold_left (groupStep T) rest (grouped, first :: joined))
    = grouped ++ map aggregate (groupsFrom T first joined rest).
Proof.
  induction rest as [|r rest IH]; intros grouped first joined.
  - reflexivity.
  - cbn [fold_left groupStep groupsFrom].
    destruct (timestamp r - timestamp first <=? T).
    + apply (IH grouped first (joined ++ [r])).
    + rewrite IH, <- app_assoc. reflexivity.
Qed.

Lemma groupsFrom_head (rest : list reading) :
  forall first joined, exists joined' tl,
    groupsFrom T first joined rest = (first, joined') :: tl.
Proof.
  induction rest as [|r rest IH]; intros first joined; cbn [groupsFrom].
  - eauto.
  - destruct (timestamp r - timestamp first <=? T); eauto.
Qed.

Lemma groupsFrom_members (rest : list reading) :
  forall first joined,
    flat_map members (groupsFrom T first joined rest) = first :: joined ++ rest.
Proof.
  induction rest as [|r rest IH]; intros first joined; cbn [groupsFrom].
  - cbn. now rewrite !app_nil_r.
  - destruct (timestamp r - timestamp first <=? T).
    + rewrite IH, <- app_assoc. reflexivity.
    + cbn [flat_map]. rewrite IH. reflexivity.
Qed.

Lemma groupsFrom_ok (rest : list reading) :
  forall first joined,
    group_ok T (first, joined) ->
    Forall (group_ok T) (groupsFrom T first joined rest).
Proof.
  induction rest as [|r rest IH]; intros first joined Hj; cbn [groupsFrom].
  - now constructor.
  - destruct (Z.leb_spec (timestamp r - timestamp first) T) as [Hle|Hgt].
    + apply IH. unfold group_ok in *; cbn in *.
      apply Forall_app; split; [exact Hj|]. now repeat constructor.
    + constructor; [exact Hj|]. apply IH. constructor.
Qed.

Lemma groupsFrom_boundaries (rest : list reading) :
  forall first joined, boundaries_ok T (groupsFrom T first joined rest).
Proof.
  induction rest as [|r rest IH]; intros first joined; cbn [groupsFrom].
  - exact I.
  - destruct (Z.leb_spec (timestamp r - timestamp first) T) as [Hle|Hgt].
    + apply IH.
    + specialize (IH r []).
      destruct (groupsFrom_head rest r []) as (j & tl & E).
      rewrite E in IH |- *. cbn. split; [lia | exact IH].
Qed.

End Aggregator.

(** *** The value of a point *)

Lemma avgValue_single (r : reading) : avgValue [r] = double (value r).
Proof.
  unfold avgValue. cbn [fold_left length Z.of_nat Pos.of_succ_nat].
  rewrite add_zero_l, div_one_r. apply double_double.
Qed.

Lemma whole_exact (rs : list reading) (zs : list Z) :
  Forall2 whole rs zs ->
  Forall2 (fun r q => exactValue (value r) = Some q) rs (map inject_Z zs).
Proof.
  induction 1 as [|r z rs zs [E _] _ IH]; cbn [map]; constructor; assumption.
Qed.








(** The scenario of the README: 70 at 05:57, 77 at 06:12 and 75 at 06:20
    (minutes of the day, in milliseconds) with the 30 minute threshold give
    one point, 74 at 05:57. *)
Example groupGlucoseReadings_scenario :
  groupGlucoseReadings
    [Reading (Fin 70) (357 * 60000); Reading (Fin 77) (372 * 60000);
     Reading (Fin 75) (380 * 60000)]
    (30 * 60 * 1000)
  = [Point (Int 74) (357 * 60000)].
Proof. vm_compute. reflexivity. Qed.

(** *** Threshold 0 *)

Lemma strictly_chronological (readings : list reading) :
  chronological readings -> distinct_instants readings ->
  Sorted (fun a b => timestamp a < timestamp b) readings.
Proof.
  unfold chronological, distinct_instants.
  induction 1 as [|a l HS IH Hd]; intros ND; [constructor|].
  cbn in ND. apply NoDup_cons in ND as [Hnotin ND].
  constructor; [now apply IH|].
  destruct Hd as [|b l' Hab]; constructor.
  assert (timestamp a <> timestamp b); [|lia].
  intros E. apply Hnotin. rewrite E. cbn. left.
Qed.

Lemma groupsFrom_zero (rest : list reading) :
  forall first,
    Sorted (fun a b => timestamp a < timestamp b) (first :: rest) ->
    groupsFrom 0 first [] rest = map (fun r => (r, [])) (first :: rest).
Proof.
  induction rest as [|r rest IH]; intros first HS; [reflexivity|].
  apply Sorted_inv in HS as [HS Hd]. apply HdRel_inv in Hd.
  cbn [groupsFrom]. destruct (Z.leb_spec (timestamp r - timestamp first) 0); [lia|].
  rewrite (IH r HS). reflexivity.
Qed.

(** C2, as the code has it. With the threshold at 0, on a sorted sample
    list without two samples at the same instant, every sample is a group
    of its own: the output has one point per sample, in order, with the
    sample's timestamp and the sample's value rounded to an integer by
    [toFixed(0)]; a sample whose value is an integer keeps it. *)
Theorem threshold_zero_one_point_per_sample (readings : list reading) :
  chronological readings -> distinct_instants readings ->
  Forall2 (fun r p =>
      g_timestamp p = timestamp r /\
      g_value p = toFixed0 (value r) /\
      (forall (q : Q) (z : Z),
         exactValue (value r) = Some q -> (q == inject_Z z)%Q -> g_value p = Int z))
    readings (groupGlucoseReadings readings 0).
Proof.
  intros Hs Hd. pose proof (strictly_chronological _ Hs Hd) as Hlt.
  destruct readings as [|r0 rest]; [constructor|].
  unfold groupGlucoseReadings. rewrite (loop_groups 0 rest [] r0 []).
  rewrite (groupsFrom_zero rest r0 Hlt). cbn [app]. rewrite map_map.
  generalize (r0 :: rest). intros l. induction l as [|r l IH]; constructor; [|exact IH].
  unfold aggregate, closeGroup, members; cbn [fst snd g_timestamp g_value].
  assert (E : toFixed0 (avgValue [r]) = toFixed0 (value r))
    by (rewrite avgValue_single; apply toFixed0_double).
  repeat split; [exact E|].
  intros q z Hq Hz. rewrite E. unfold toFixed0. unfold exactValue in Hq.
  destruct (double (value r)); try discriminate. injection Hq as ->.
  rewrite (roundHalfAway_Qeq _ _ Hz). f_equal. apply roundHalfAway_inject_Z.
Qed.

Lemma threshold_zero_one_point_per_sample_witness :
  chronological [Reading (Fin 75) 1000; Reading (Fin 77) 2000] /\
  Forall2 (fun r p =>
      g_timestamp p = timestamp r /\
      g_value p = toFixed0 (value r) /\
      (forall (q : Q) (z : Z),
         exactValue (value r) = Some q -> (q == inject_Z z)%Q -> g_value p = Int z))
    [Reading (Fin 75) 1000; Reading (Fin 77) 2000]
    (groupGlucoseReadings [Reading (Fin 75) 1000; Reading (Fin 77) 2000] 0).
Proof.
  assert (Hs : chronological [Reading (Fin 75) 1000; Reading (Fin 77) 2000]).
  { unfold chronological. repeat constructor. cbn. lia. }
  split; [exact Hs|].
  apply threshold_zero_one_point_per_sample; [exact Hs|].
  unfold distinct_instants. cbn.
  repeat (constructor; [rewrite ?elem_of_cons, ?elem_of_nil; lia|]). constructor.
Defined.

(** C2 as the specification words it does not hold: the sample 75.5 at
    instant 1000, alone in its list, comes out as 76. *)
Lemma threshold_zero_not_identity :
  chronological [Reading (Fin (151 # 2)) 1000] /\
  distinct_instants [Reading (Fin (151 # 2)) 1000] /\
  ~ Forall2 (fun r p =>
        double (asNumber (g_value p)) = double (value r) /\
        g_timestamp p = timestamp r)
      [Reading (Fin (151 # 2)) 1000]
      (groupGlucoseReadings [Reading (Fin (151 # 2)) 1000] 0).
Proof.
  split; [repeat constructor|]. split.
  - unfold distinct_instants. cbn. repeat constructor. set_solver.
  - intros H. apply Forall2_cons_1 in H as [[E _] _]. vm_compute in E. discriminate.
Qed.

(** *** Event correlator *)

Section Correlator.
Variable e : Z.

Local Abbreviation dist := (dist e).
Local Abbreviation scanned := (scanned e).

Lemma closestStep_scanned (pre : list point) st (g : point) :
  scanned pre st -> scanned (pre ++ [g]) (closestStep e st g).
Proof.
  destruct st as [[p|] [|d]]; cbn; try contradiction.
  - intros [-> (i & Hi & Hmin & Hfirst)].
    fold (dist g). fold (dist p).
    destruct (Z.ltb_spec (dist g) (dist p)) as [Hlt|Hge].
    + split; [reflexivity|]. exists (length pre). split; [|split].
      * rewrite lookup_app_r, Nat.sub_diag by lia. reflexivity.
      * intros j q Hj. apply lookup_app_Some in Hj as [Hj|[_ Hj]].
        -- specialize (Hmin _ _ Hj). lia.
        -- apply list_lookup_singleton_Some in Hj as [_ <-]. lia.
      * intros j q Hj Hq. apply lookup_app_Some in Hj as [Hj|[Hlen _]]; [|lia].
        specialize (Hmin _ _ Hj). lia.
    + split; [reflexivity|]. exists i. split; [|split].
      * apply lookup_app_l_Some, Hi.
      * intros j q Hj. apply lookup_app_Some in Hj as [Hj|[_ Hj]].
        -- eapply Hmin, Hj.
        -- apply list_lookup_singleton_Some in Hj as [_ <-]. lia.
      * intros j q Hj Hq. apply lookup_app_Some in Hj as [Hj|[Hlen _]].
        -- eapply Hfirst; eassumption.
        -- apply lookup_lt_Some in Hi. lia.
  - intros ->. split; [reflexivity|]. exists 0%nat. cbn. split; [reflexivity|]. split.
    + intros [|j] q Hj; cbn in Hj; [|discriminate]. injection Hj as <-. lia.
    + intros; lia.
Qed.

Lemma fold_closestStep_scanned (l : list point) :
  forall pre st, scanned pre st ->
    scanned (pre ++ l) (fold_left (closestStep e) l st).
Proof.
  induction l as [|g l IH]; intros pre st H; cbn [fold_left].
  - now rewrite app_nil_r.
  - replace (pre ++ g :: l) with ((pre ++ [g]) ++ l) by now rewrite <- app_assoc.
    apply IH, closestStep_scanned, H.
Qed.

End Correlator.

(** C3. Given at least one aggregated point, the y-value plotted for an
    event at [e] is the value of a point at the least absolute time
    difference from [e], and among the points at that least difference the
    one the scan meets first; when the points are in chronological order
    that is the earliest of them. *)
Theorem yValue_nearest_first (points : list point) (e : Z) :
  points <> [] ->
  exists i p,
    points !! i = Some p /\
    closestGlucose points e = Some p /\
    yValue points e = g_value p /\
    (forall j q, points !! j = Some q ->
       Z.abs (g_timestamp p - e) <= Z.abs (g_timestamp q - e)) /\
    (forall j q, points !! j = Some q ->
       Z.abs (g_timestamp q - e) = Z.abs (g_timestamp p - e) -> (i <= j)%nat) /\
    (by_time points ->
     forall j q, points !! j = Some q ->
       Z.abs (g_timestamp q - e) = Z.abs (g_timestamp p - e) ->
       g_timestamp p <= g_timestamp q).
Proof.
  intros Hne.
  pose proof (fold_closestStep_scanned e points [] (None, Infinity) eq_refl) as H.
  cbn [app] in H. unfold yValue, closestGlucose.
  destruct (fold_left (closestStep e) points (None, Infinity)) as [[p|] [|d]];
    cbn in H; try contradiction.
  destruct H as [_ (i & Hi & Hmin & Hfirst)].
  exists i, p. cbn [fst]. repeat split; auto.
  intros Hsorted j q Hj Hq. eapply Hsorted; [|exact Hi|exact Hj]. eapply Hfirst; eassumption.
Qed.

(** The example of the specification: points at 08:00 and 08:10 and an
    event at 08:05 (minutes of the day): the point at 08:00 is chosen. *)
Lemma yValue_nearest_first_witness :
  exists i p,
    [Point (Int 90) 480; Point (Int 120) 490] !! i = Some p /\
    closestGlucose [Point (Int 90) 480; Point (Int 120) 490] 485 = Some p /\
    yValue [Point (Int 90) 480; Point (Int 120) 490] 485 = g_value p /\
    (forall j q, [Point (Int 90) 480; Point (Int 120) 490] !! j = Some q ->
       Z.abs (g_timestamp p - 485) <= Z.abs (g_timestamp q - 485)) /\
    (forall j q, [Point (Int 90) 480; Point (Int 120) 490] !! j = Some q ->
       Z.abs (g_timestamp q - 485) = Z.abs (g_timestamp p - 485) -> (i <= j)%nat) /\
    (by_time [Point (Int 90) 480; Point (Int 120) 490] ->
     forall j q, [Point (Int 90) 480; Point (Int 120) 490] !! j = Some q ->
       Z.abs (g_timestamp q - 485) = Z.abs (g_timestamp p - 485) ->
       g_timestamp p <= g_timestamp q).
Proof. apply (yValue_nearest_first [Point (Int 90) 480; Point (Int 120) 490] 485). discriminate. Defined.

Example yValue_tie_earlier :
  closestGlucose [Point (Int 90) 480; Point (Int 120) 490] 485 = Some (Point (Int 90) 480) /\
  yValue [Point (Int 90) 480; Point (Int 120) 490] 485 = Int 90.
Proof. split; reflexivity. Qed.

(** *** Trend estimator *)










(** Outside the bands: two samples at the same instant with the same
    value give the rate [0 / 0], none of the comparisons holds and the
    last branch is taken. *)
Example currentTrend_same_instant_same_value :
  currentTrend [Reading (Fin 100) 0; Reading (Fin 100) 0] = Some ArrowDown.
Proof. vm_compute. reflexivity. Qed.

End GlucoseFacts.

Module ChartFacts.
Import Num Js Glucose Chart.

(** *** The zoom window *)

Lemma zoomWindow_all (start dataMin dataMax : Z) :
  zoomWindow All start (dataMax - dataMin) dataMin dataMax = (dataMin, dataMax).
Proof.
  unfold zoomWindow. rewrite !Z.ltb_irrefl. reflexivity.
Qed.

(** Either the window has the length asked for and starts inside the data,
    or the data are shorter than that length and the window is all of them. *)
Lemma zoomWindow_cases (hours start windowSize dataMin dataMax : Z) :
  let w := zoomWindow (Hours hours) start windowSize dataMin dataMax in
  (snd w = fst w + windowSize /\ dataMin <= fst w) \/
  (w = (dataMin, dataMax) /\ dataMax < dataMin + windowSize).
Proof.
  cbv zeta. unfold zoomWindow.
  destruct ((start =? 0) || (start <? dataMin)) eqn:E0.
  - destruct (Z.ltb_spec dataMax (Z.max dataMin (dataMax - windowSize) + windowSize));
      [destruct (Z.ltb_spec (dataMax - windowSize) dataMin)
      |destruct (Z.ltb_spec (Z.max dataMin (dataMax - windowSize)) dataMin)];
      cbn [fst snd]; first [left; lia | right; split; [reflexivity | lia]].
  - apply orb_false_iff in E0 as [_ E0]. apply Z.ltb_ge in E0.
    destruct (Z.ltb_spec dataMax (start + windowSize));
      [destruct (Z.ltb_spec (dataMax - windowSize) dataMin)
      |destruct (Z.ltb_spec start dataMin)];
      cbn [fst snd]; first [left; lia | right; split; [reflexivity | lia]].
Qed.

(** On an instant of the data, the test against the clamped window is the
    test against the closed interval of the window length. *)
Lemma inWindow_length (zoom : level) (start windowSize dataMin dataMax t : Z) :
  (zoom = All -> windowSize = dataMax - dataMin) ->
  dataMin <= t <= dataMax ->
  let w := zoomWindow zoom start windowSize dataMin dataMax in
  inWindow (fst w) (snd w) t = inWindow (fst w) (fst w + windowSize) t.
Proof.
  intros Hall Ht. cbv zeta. destruct zoom as [|hours].
  - rewrite (Hall eq_refl), zoomWindow_all. cbn [fst snd]. f_equal. f_equal. lia.
  - destruct (zoomWindow_cases hours start windowSize dataMin dataMax) as [[E _]|[E Hlt]].
    + now rewrite E.
    + rewrite E. cbn [fst snd]. unfold inWindow. f_equal.
      destruct (Z.leb_spec t dataMax), (Z.leb_spec t (dataMin + windowSize)); try reflexivity; lia.
Qed.

Lemma fold_min_le (l : list Z) :
  forall a, fold_left Z.min l a <= a /\ forall t, In t l -> fold_left Z.min l a <= t.
Proof.
  induction l as [|b l IH]; intros a; cbn [fold_left].
  - split; [lia|]. intros t [].
  - destruct (IH (Z.min a b)) as [H1 H2]. split; [lia|].
    intros t [<-|Ht]; [lia|]. now apply H2.
Qed.

Lemma fold_max_ge (l : list Z) :
  forall a, a <= fold_left Z.max l a /\ forall t, In t l -> t <= fold_left Z.max l a.
Proof.
  induction l as [|b l IH]; intros a; cbn [fold_left].
  - split; [lia|]. intros t [].
  - destruct (IH (Z.max a b)) as [H1 H2]. split; [lia|].
    intros t [<-|Ht]; [lia|]. now apply H2.
Qed.

Lemma minOf_maxOf (l : list Z) (t : Z) : In t l -> minOf l <= t <= maxOf l.
Proof.
  destruct l as [|a l]; [intros []|]. unfold minOf, maxOf.
  destruct (fold_min_le l a) as [H1 H2]. destruct (fold_max_ge l a) as [H3 H4].
  intros [<-|Ht]; [lia|]. split; [now apply H2 | now apply H4].
Qed.

(** After the clamping the window lies inside the data. *)
Lemma zoomWindow_inside (zoom : level) (start windowSize dataMin dataMax : Z) :
  let w := zoomWindow zoom start windowSize dataMin dataMax in
  dataMin <= fst w /\ snd w <= dataMax.
Proof.
  cbv zeta. unfold zoomWindow.
  destruct zoom as [|hours].
  - destruct (Z.ltb_spec dataMax dataMax); [lia|].
    destruct (Z.ltb_spec dataMin dataMin); cbn [fst snd]; lia.
  - set (s := if (start =? 0) || (start <? dataMin)
              then Z.max dataMin (dataMax - windowSize) else start).
    destruct (Z.ltb_spec dataMax (s + windowSize));
      [destruct (Z.ltb_spec (dataMax - windowSize) dataMin)
      |destruct (Z.ltb_spec s dataMin)];
      cbn [fst snd]; lia.
Qed.

Lemma zoomWindow_fit (hours windowSize dataMin dataMax : Z) :
  dataMax - dataMin <= windowSize ->
  zoomWindow (Hours hours) dataMin windowSize dataMin dataMax = (dataMin, dataMax).
Proof.
  intros H. unfold zoomWindow.
  assert (E : (if (dataMin =? 0) || (dataMin <? dataMin)
               then Z.max dataMin (dataMax - windowSize) else dataMin) = dataMin)
    by (destruct ((dataMin =? 0) || (dataMin <? dataMin)); lia).
  rewrite E.
  destruct (Z.ltb_spec dataMax (dataMin + windowSize));
    [destruct (Z.ltb_spec (dataMax - windowSize) dataMin)
    |destruct (Z.ltb_spec dataMin dataMin)]; f_equal; lia.
Qed.

Lemma zoomWindow_recent (hours windowSize dataMin dataMax : Z) :
  windowSize < dataMax - dataMin ->
  zoomWindow (Hours hours) (dataMax - windowSize) windowSize dataMin dataMax
  = (dataMax - windowSize, dataMax).
Proof.
  intros H. unfold zoomWindow.
  assert (E : (if (dataMax - windowSize =? 0) || (dataMax - windowSize <? dataMin)
               then Z.max dataMin (dataMax - windowSize) else dataMax - windowSize)
              = dataMax - windowSize)
    by (destruct ((dataMax - windowSize =? 0) || (dataMax - windowSize <? dataMin)); lia).
  rewrite E.
  destruct (Z.ltb_spec dataMax (dataMax - windowSize + windowSize)); [lia|].
  destruct (Z.ltb_spec (dataMax - windowSize) dataMin); [lia|]. f_equal. lia.
Qed.

Section WithParseFloat.
Variable parseFloat : jsstring -> number.

Abbreviation updateChart := (updateChart parseFloat).
Abbreviation setZoomLevel := (setZoomLevel parseFloat).
Abbreviation moveZoomWindow := (moveZoomWindow parseFloat).

(** [updateChart] leaves the events, the threshold and the two zoom refs
    alone; when it draws a chart, the window of that chart is [zoomWindow]
    over the range it has just stored. *)
Lemma updateChart_fields (st : state) :
  events (updateChart st) = events st /\
  timeThreshold (updateChart st) = timeThreshold st /\
  zoomLevel (updateChart st) = zoomLevel st /\
  zoomWindowStart (updateChart st) = zoomWindowStart st /\
  (chartInstance (updateChart st) = None ->
     fullDataRange (updateChart st) = fullDataRange st) /\
  (forall c, chartInstance (updateChart st) = Some c ->
     (windowStart c, windowEnd c) =
       zoomWindow (zoomLevel st) (zoomWindowStart st)
         (getZoomWindowSize (updateChart st))
         (range_min (fullDataRange (updateChart st)))
         (range_max (fullDataRange (updateChart st)))).
Proof.
  unfold Chart.updateChart. cbv zeta.
  destruct (length _ =? 0)%nat; [cbn; repeat split; intros; congruence|].
  cbn [events timeThreshold zoomLevel zoomWindowStart fullDataRange chartInstance].
  unfold getZoomWindowSize at 4.
  cbn [events timeThreshold zoomLevel zoomWindowStart fullDataRange chartInstance
       range_min range_max].
  destruct (zoomWindow _ _ _ _ _) as [ws we] eqn:W.
  cbn [events timeThreshold zoomLevel zoomWindowStart fullDataRange chartInstance
       range_min range_max].
  repeat split; try congruence.
  intros c [= <-]. cbn [windowStart windowEnd].
  unfold getZoomWindowSize in *.
  cbn [events timeThreshold zoomLevel zoomWindowStart fullDataRange chartInstance
       range_min range_max] in *.
  now rewrite W.
Qed.

(** *** The invariant of the zoom state *)

Lemma range_after (st : state) :
  fullDataRange (updateChart st) =
    if (length (groupedGlucoseData parseFloat st) =? 0)%nat then fullDataRange st
    else Range (minOf (allTimestamps parseFloat st)) (maxOf (allTimestamps parseFloat st)).
Proof.
  unfold Chart.updateChart. cbv zeta.
  destruct (length _ =? 0)%nat; [reflexivity|].
  destruct (zoomWindow _ _ _ _ _). reflexivity.
Qed.

Lemma range_size_after (st : state) :
  getZoomWindowSize (updateChart st) =
    match zoomLevel st with
    | All => range_max (fullDataRange (updateChart st))
             - range_min (fullDataRange (updateChart st))
    | Hours hours => hours * 60 * 60 * 1000
    end.
Proof.
  unfold getZoomWindowSize.
  destruct (updateChart_fields st) as (_ & _ & -> & _). reflexivity.
Qed.

Lemma range_after_ext (st1 st2 : state) :
  events st1 = events st2 -> timeThreshold st1 = timeThreshold st2 ->
  fullDataRange st1 = fullDataRange st2 ->
  fullDataRange (updateChart st1) = fullDataRange (updateChart st2).
Proof.
  intros He Ht Hr. rewrite !range_after.
  unfold groupedGlucoseData, allTimestamps, groupedGlucoseData.
  now rewrite He, Ht, Hr.
Qed.

Lemma synced_updateChart (st1 st : state) :
  events st1 = events st -> timeThreshold st1 = timeThreshold st ->
  fullDataRange st1 = fullDataRange st ->
  synced parseFloat st ->
  synced parseFloat (updateChart st1) /\ fullDataRange (updateChart st1) = fullDataRange st.
Proof.
  intros He Ht Hr Hs. unfold synced in *.
  assert (E : fullDataRange (updateChart st1) = fullDataRange st)
    by (rewrite <- Hs; now apply range_after_ext).
  split; [|exact E].
  destruct (updateChart_fields st1) as (He1 & Ht1 & _).
  rewrite E, <- Hs. apply range_after_ext; congruence.
Qed.

Lemma drawn_updateChart (st : state) : drawn_window_inside (updateChart st).
Proof.
  intros c Hc. destruct (updateChart_fields st) as (_ & _ & _ & _ & _ & Hw).
  specialize (Hw c Hc).
  pose proof (zoomWindow_inside (zoomLevel st) (zoomWindowStart st)
                (getZoomWindowSize (updateChart st))
                (range_min (fullDataRange (updateChart st)))
                (range_max (fullDataRange (updateChart st)))) as Hin.
  cbv zeta in Hin. rewrite <- Hw in Hin. exact Hin.
Qed.

Lemma run_synced (o : op) (st : state) :
  synced parseFloat st ->
  synced parseFloat (run parseFloat o st) /\
  fullDataRange (run parseFloat o st) = fullDataRange st.
Proof.
  intros Hs. destruct o as [lvl|dir]; cbn [run].
  - unfold Chart.setZoomLevel. now apply synced_updateChart.
  - unfold Chart.moveZoomWindow. destruct (zoomLevel st); [now split|].
    destruct (_ <=? 0); [now split|]. now apply synced_updateChart.
Qed.

Lemma run_drawn (o : op) (st : state) :
  drawn_window_inside st -> drawn_window_inside (run parseFloat o st).
Proof.
  intros Hd. destruct o as [lvl|dir]; cbn [run].
  - apply drawn_updateChart.
  - unfold Chart.moveZoomWindow. destruct (zoomLevel st); [exact Hd|].
    destruct (_ <=? 0); [exact Hd|]. apply drawn_updateChart.
Qed.

Lemma run_fields (o : op) (st : state) :
  events (run parseFloat o st) = events st /\
  timeThreshold (run parseFloat o st) = timeThreshold st.
Proof.
  destruct o as [lvl|dir]; cbn [run].
  - unfold Chart.setZoomLevel. set (st1 := State _ _ _ _ _ _).
    destruct (updateChart_fields st1) as (He & Ht & _). now rewrite He, Ht.
  - unfold Chart.moveZoomWindow. destruct (zoomLevel st); [now split|].
    destruct (_ <=? 0); [now split|]. set (st1 := State _ _ _ _ _ _).
    destruct (updateChart_fields st1) as (He & Ht & _). now rewrite He, Ht.
Qed.

(** Choosing a zoom establishes the invariant; a step keeps it. *)
Lemma run_zoom_invariant (o : op) (st : state) :
  synced parseFloat st -> zoom_invariant st -> zoom_invariant (run parseFloat o st).
Proof.
  intros Hs Hin. unfold zoom_invariant in *.
  destruct (run_synced o st Hs) as [_ Hfull]. rewrite Hfull.
  destruct o as [lvl|dir]; cbn [run] in *.
  - unfold Chart.setZoomLevel in *. set (st1 := State _ _ _ _ _ _) in *.
    destruct (updateChart_fields st1) as (_ & _ & Hl & Hst & _).
    cbn [zoomLevel zoomWindowStart st1] in Hl, Hst.
    rewrite Hl. intros Hfit hours Hlvl. rewrite Hl in Hlvl. rewrite Hfull, Hst.
    destruct lvl as [|h]; [discriminate|]. injection Hlvl as Hh.
    cbn [fits] in Hfit. rewrite Hh in Hfit |- *.
    destruct (Z.leb_spec (range_max (fullDataRange st) - range_min (fullDataRange st))
                (hours * 60 * 60 * 1000)); lia.
  - unfold Chart.moveZoomWindow in *.
    destruct (zoomLevel st) as [|h] eqn:Hz; [now rewrite Hz|].
    destruct (Z.leb_spec (range_max (fullDataRange st) - range_min (fullDataRange st)) 0);
      [now rewrite Hz|].
    set (st1 := State _ _ _ _ _ _) in *.
    destruct (updateChart_fields st1) as (_ & _ & Hl & Hst & _).
    cbn [zoomLevel zoomWindowStart st1] in Hl, Hst.
    rewrite Hl. intros Hfit hours Hlvl. rewrite Hl in Hlvl. injection Hlvl as Hh.
    rewrite Hfull, Hst. unfold getZoomWindowSize. rewrite Hz. rewrite Hh in *.
    cbn [fits] in Hfit. destruct (Hin Hfit hours Hz) as [Hlo Hhi].
    assert (Hstep : 0 <= hours * 60 * 60 * 1000 / 2 <= hours * 60 * 60 * 1000)
      by (split; [apply Z.div_pos; lia | apply Z.div_le_upper_bound; lia]).
    destruct dir; lia.
Qed.

Lemma fold_run (ops : list op) :
  forall st,
    synced parseFloat st -> drawn_window_inside st -> zoom_invariant st ->
    let st' := fold_left (fun s o => run parseFloat o s) ops st in
    synced parseFloat st' /\
    fullDataRange st' = fullDataRange st /\
    events st' = events st /\
    drawn_window_inside st' /\
    zoom_invariant st'.
Proof.
  induction ops as [|o ops IH]; intros st Hs Hd Hj; cbn [fold_left].
  - split; [exact Hs|]. split; [reflexivity|]. split; [reflexivity|].
    split; [exact Hd|exact Hj].
  - destruct (run_synced o st Hs) as [Hs1 Hf1].
    pose proof (run_drawn o st Hd) as Hd1.
    pose proof (run_zoom_invariant o st Hs Hj) as Hj1.
    destruct (run_fields o st) as [He1 _].
    destruct (IH _ Hs1 Hd1 Hj1) as (Hs' & Hf' & He' & Hd' & Hj').
    rewrite Hf1 in Hf'. rewrite He1 in He'.
    split; [exact Hs'|]. split; [exact Hf'|]. split; [exact He'|].
    split; [exact Hd'|exact Hj'].
Qed.

Lemma moveZoomWindow_start (dir : direction) (st : state) :
  (zoomLevel st = All \/ range_max (fullDataRange st) - range_min (fullDataRange st) <= 0 ->
     moveZoomWindow dir st = st) /\
  (forall hours,
     zoomLevel st = Hours hours ->
     0 < range_max (fullDataRange st) - range_min (fullDataRange st) ->
     let len := hours * 60 * 60 * 1000 in
     zoomWindowStart (moveZoomWindow dir st) =
       match dir with
       | PanLeft => Z.max (range_min (fullDataRange st)) (zoomWindowStart st - len / 2)
       | PanRight => Z.min (range_max (fullDataRange st) - len) (zoomWindowStart st + len / 2)
       end).
Proof.
  unfold Chart.moveZoomWindow. split.
  - intros [Hz|Hr]; destruct (zoomLevel st); try reflexivity; try discriminate.
    destruct (Z.leb_spec (range_max (fullDataRange st) - range_min (fullDataRange st)) 0);
      [reflexivity|lia].
  - intros hours Hz Hr. cbv zeta. unfold getZoomWindowSize. rewrite Hz.
    destruct (Z.leb_spec (range_max (fullDataRange st) - range_min (fullDataRange st)) 0);
      [lia|].
    set (st1 := State _ _ _ _ _ _).
    destruct (updateChart_fields st1) as (_ & _ & _ & Hst & _).
    rewrite Hst. destruct dir; reflexivity.
Qed.

(** *** The points and markers on display *)

Lemma updateChart_chart (st : state) (c : chart) :
  chartInstance (updateChart st) = Some c ->
  let dataMin := minOf (allTimestamps parseFloat st) in
  let dataMax := maxOf (allTimestamps parseFloat st) in
  let size :=
    match zoomLevel st with
    | All => dataMax - dataMin
    | Hours hours => hours * 60 * 60 * 1000
    end in
  let w := zoomWindow (zoomLevel st) (zoomWindowStart st) size dataMin dataMax in
  let filtered :=
    List.filter (fun point => inWindow (fst w) (snd w) (pt_x point))
      (glucoseDataPoints parseFloat st) in
  getZoomWindowSize (updateChart st) = size /\
  windowStart c = fst w /\
  windowEnd c = snd w /\
  displayDataPoints c =
    (if (0 <? length filtered)%nat then filtered else glucoseDataPoints parseFloat st) /\
  scatterData c =
    map (markerOf parseFloat st)
      (List.filter (fun ev => inWindow (fst w) (snd w) (ev_timestamp ev))
         (otherEvents (events st))).
Proof.
  unfold Chart.updateChart. cbv zeta.
  destruct (length _ =? 0)%nat; [discriminate|].
  unfold getZoomWindowSize. cbn [zoomLevel fullDataRange range_min range_max].
  destruct (zoomWindow _ _ _ _ _) as [ws we].
  cbn [chartInstance zoomLevel fst snd]. intros [= <-].
  cbn [windowStart windowEnd displayDataPoints scatterData]. repeat split; reflexivity.
Qed.

(** C7. When a chart is drawn, with [windowStart] the start of its zoom
    window and [len] the window length ([getZoomWindowSize]: the span of
    the full range for ['all']): the markers are those of the non-glucose
    events whose instant lies in the closed interval
    [windowStart, windowStart + len]; the points are the aggregated points
    whose instant lies in that interval, unless there is none, in which
    case all the aggregated points are shown. *)
Theorem rendered_in_window (st : state) (c : chart) :
  chartInstance (updateChart st) = Some c ->
  let len := getZoomWindowSize (updateChart st) in
  let visible := inWindow (windowStart c) (windowStart c + len) in
  let shown := List.filter (fun p => visible (pt_x p)) (glucoseDataPoints parseFloat st) in
  (forall t, visible t = true <-> windowStart c <= t <= windowStart c + len) /\
  (forall p, In p shown <->
     In p (glucoseDataPoints parseFloat st) /\
     windowStart c <= pt_x p <= windowStart c + len) /\
  displayDataPoints c =
    (match shown with [] => glucoseDataPoints parseFloat st | _ :: _ => shown end) /\
  scatterData c =
    map (markerOf parseFloat st)
      (List.filter (fun ev => visible (ev_timestamp ev)) (otherEvents (events st))) /\
  (forall m, In m (scatterData c) <->
     exists ev, In ev (otherEvents (events st)) /\
       windowStart c <= ev_timestamp ev <= windowStart c + len /\
       m = markerOf parseFloat st ev).
Proof.
  intros Hc len visible shown.
  assert (Hvis : forall t, visible t = true <-> windowStart c <= t <= windowStart c + len).
  { intros t. unfold visible, inWindow. rewrite andb_true_iff, !Z.leb_le. tauto. }
  destruct (updateChart_chart st c Hc) as (Hsz & Hws & Hwe & Hdisp & Hscat).
  set (dataMin := minOf (allTimestamps parseFloat st)) in *.
  set (dataMax := maxOf (allTimestamps parseFloat st)) in *.
  set (size := match zoomLevel st with All => _ | Hours hours => _ end) in *.
  assert (Hw : forall t, In t (allTimestamps parseFloat st) ->
                 inWindow (windowStart c) (windowEnd c) t = visible t).
  { intros t Ht. unfold visible, len. rewrite Hsz, Hws, Hwe.
    apply inWindow_length; [|now apply minOf_maxOf].
    intros Hz. unfold size. now rewrite Hz. }
  rewrite <- Hws, <- Hwe in Hdisp, Hscat.
  assert (Ep : List.filter (fun point => inWindow (windowStart c) (windowEnd c) (pt_x point))
                 (glucoseDataPoints parseFloat st) = shown).
  { apply filter_ext_in. intros p Hp. apply Hw.
    unfold allTimestamps. apply in_or_app. left.
    unfold glucoseDataPoints in Hp. apply in_map_iff in Hp as (g & <- & Hg).
    cbn [pt_x]. now apply in_map. }
  assert (Ee : List.filter (fun ev => inWindow (windowStart c) (windowEnd c) (ev_timestamp ev))
                 (otherEvents (events st))
               = List.filter (fun ev => visible (ev_timestamp ev)) (otherEvents (events st))).
  { apply filter_ext_in. intros ev Hev. apply Hw.
    unfold allTimestamps. apply in_or_app. right. now apply in_map. }
  rewrite Ep in Hdisp. rewrite Ee in Hscat.
  assert (Hdata :
    displayDataPoints c =
      (match shown with [] => glucoseDataPoints parseFloat st | _ :: _ => shown end) /\
    scatterData c =
      map (markerOf parseFloat st)
        (List.filter (fun ev => visible (ev_timestamp ev)) (otherEvents (events st)))).
  { split; [|exact Hscat]. rewrite Hdisp. clear. destruct shown; reflexivity. }
  destruct Hdata as [Hd Hm]. split; [exact Hvis|]. split; [|split; [exact Hd|split; [exact Hm|]]].
  - intros p. unfold shown. rewrite filter_In, Hvis. tauto.
  - intros m. rewrite Hm, in_map_iff. split.
    + intros (ev & <- & Hev). apply filter_In in Hev as [Hin Hv]. apply Hvis in Hv. eauto.
    + intros (ev & Hin & Hv & ->). exists ev. split; [reflexivity|].
      apply filter_In. split; [exact Hin|]. now apply Hvis.
Qed.

End WithParseFloat.

Lemma rendered_in_window_witness :
  exists c,
    chartInstance (updateChart hundred (State lunch_day 30 (Hours 1) 0 (Range 0 0) None))
      = Some c /\
    displayDataPoints c = [XY 43200000 (Int 100)] /\
    map m_x (scatterData c) = [39600000].
Proof.
  eexists. split; [vm_compute; reflexivity|].
  match goal with
  | |- displayDataPoints ?c = _ /\ _ =>
      destruct (rendered_in_window hundred
                  (State lunch_day 30 (Hours 1) 0 (Range 0 0) None) c
                  ltac:(vm_compute; reflexivity))
        as (_ & _ & Hd & Hs & _)
  end.
  split; [rewrite Hd | rewrite Hs]; vm_compute; reflexivity.
Defined.

End ChartFacts.

Module ClassifierFacts.
Import Js JsFacts Classifier.

Lemma find_by_key {A : Type} (key : A -> jsstring) (l : list A) (x : A) :
  NoDup (map key l) -> In x l ->
  List.find (fun y => jseq (key y) (key x)) l = Some x.
Proof.
  induction l as [|y l IH]; intros Hnd Hin; [destruct Hin|].
  cbn in Hnd. apply NoDup_cons in Hnd as [Hy Hnd]. cbn [List.find].
  destruct Hin as [->|Hin].
  - assert (E : jseq (key x) (key x) = true) by now apply jseq_eq.
    now rewrite E.
  - destruct (jseq (key y) (key x)) eqn:E.
    + apply jseq_eq in E. exfalso. apply Hy. rewrite E.
      apply list_elem_of_In. now apply in_map.
    + now apply IH.
Qed.

(** No two entries of the catalog have the same normalized form. *)
Lemma normalized_distinct : NoDup (map normalized getNormalizedTypes).
Proof. apply (bool_decide_unpack _). vm_compute. exact I. Qed.

(** A label that [normalizeInput] brings to the normalized form of an entry
    of the catalog is matched to that entry by the first test of
    [findMatchingType], before any score is computed. *)
Lemma findMatchingType_first_test (input : jsstring) (nt : normalizedType) :
  In nt getNormalizedTypes ->
  normalized nt = normalizeInput input ->
  List.find (fun t => jseq (normalized t) (normalizeInput input)) getNormalizedTypes
    = Some nt /\
  findMatchingType input = Some (original nt).
Proof.
  intros Hin Hn.
  assert (Hfind : List.find (fun t => jseq (normalized t) (normalizeInput input))
                    getNormalizedTypes = Some nt).
  { rewrite <- Hn. apply find_by_key; [apply normalized_distinct | exact Hin]. }
  split; [exact Hfind|].
  unfold findMatchingType. cbv zeta. now rewrite Hfind.
Qed.

(** C8. [normalizeInput] removes a closing parenthesis at the end of the
    label, with the trailing markers, before it looks for a trailing
    parenthetical: of a label that ends in a unit in parentheses only the
    closing parenthesis goes. "Peso (Kg)" becomes "peso (kg", where the
    entries of the catalog are normalized without their parenthetical and
    the same text would become "peso"; it is no entry's normalized form,
    the first test fails and "Peso" comes from the scores, "peso" being
    the only normalized entry that "peso (kg" contains. "Grasa (Grasa
    Visceral)", "grasa" without its parenthetical, becomes
    "grasa (grasa visceral", contains the normalized forms of two entries,
    and the scores give "Grasa Visceral" where the entry with its
    normalized form is "Grasa". The labels "peso" and "Peso" are matched
    to "Peso" by the first test. *)
Theorem findMatchingType_keeps_parenthetical :
  normalizeInput (utf16 "Peso (Kg)") = utf16 "peso (kg" /\
  normalizeType (utf16 "Peso (Kg)") = utf16 "peso" /\
  List.find (fun t => jseq (normalized t) (utf16 "peso (kg")) getNormalizedTypes = None /\
  map s_type (omap (scoreType (utf16 "peso (kg")) getNormalizedTypes) = [utf16 "Peso"] /\
  findMatchingType (utf16 "Peso (Kg)") = Some (utf16 "Peso") /\
  normalizeInput (utf16 "Grasa (Grasa Visceral)") = utf16 "grasa (grasa visceral" /\
  normalizeType (utf16 "Grasa (Grasa Visceral)") = utf16 "grasa" /\
  In (NT (utf16 "Grasa") (utf16 "grasa")) getNormalizedTypes /\
  map s_type (omap (scoreType (utf16 "grasa (grasa visceral")) getNormalizedTypes)
    = [utf16 "Grasa"; utf16 "Grasa Visceral"] /\
  findMatchingType (utf16 "Grasa (Grasa Visceral)") = Some (utf16 "Grasa Visceral") /\
  findMatchingType (utf16 "Grasa") = Some (utf16 "Grasa") /\
  List.find (fun t => jseq (normalized t) (normalizeInput (utf16 "peso"))) getNormalizedTypes
    = Some (NT (utf16 "Peso") (utf16 "peso")) /\
  findMatchingType (utf16 "peso") = Some (utf16 "Peso") /\
  findMatchingType (utf16 "Peso") = Some (utf16 "Peso").
Proof.
  repeat split; try (vm_compute; reflexivity).
  vm_compute. do 2 right. left. reflexivity.
Qed.

(** *** Blocks *)

Lemma fold_parseStep (blocks : list jsstring) :
  forall matched unmatched,
    fold_left parseStep blocks (matched, unmatched) =
      (matched ++ omap (fun b => matchedOf (classifyBlock b)) blocks,
       unmatched ++ omap (fun b => unmatchedOf (classifyBlock b)) blocks).
Proof.
  induction blocks as [|b blocks IH]; intros matched unmatched; cbn [fold_left omap].
  - now rewrite !app_nil_r.
  - unfold parseStep at 2.
    destruct (classifyBlock b) eqn:E; rewrite IH; cbn; rewrite E; cbn;
      now rewrite <- ?app_assoc.
Qed.

Lemma classifyBlock_cases (b : jsstring) :
  (hasTwoLines b = false -> classifyBlock b = Skipped) /\
  (hasTwoLines b = true ->
     (exists item, classifyBlock b = Matched item) \/ classifyBlock b = Unmatched (trim b)).
Proof.
  unfold hasTwoLines, classifyBlock.
  destruct (linesOf b) as [|l0 [|l1 more]]; cbn [length]; split; intros H;
    try reflexivity; try discriminate.
  destruct (findMatchingType l0) as [[|c t]|]; eauto.
Qed.

Lemma outcomes_count (blocks : list jsstring) :
  (length (omap (fun b => matchedOf (classifyBlock b)) blocks)
   + length (omap (fun b => unmatchedOf (classifyBlock b)) blocks)
   = length (List.filter hasTwoLines blocks))%nat.
Proof.
  induction blocks as [|b blocks IH]; [reflexivity|].
  destruct (classifyBlock_cases b) as [Hs Hm].
  cbn [omap list_omap List.filter].
  destruct (hasTwoLines b).
  - destruct (Hm eq_refl) as [[item E]|E]; rewrite E; cbn [matchedOf unmatchedOf length]; lia.
  - rewrite (Hs eq_refl). cbn [matchedOf unmatchedOf]. exact IH.
Qed.

(** C9, as the code has it. The text is cut at the blank lines. A block
    with at least two lines that are not blank either gives one entry of
    the classified list or comes back, trimmed, in [unmatchedBlocks]; a
    block with fewer such lines gives neither. The entries are appended to
    the list in the order of the blocks, the new text is the unmatched
    blocks joined by a blank line, and there are as many entries and
    unmatched blocks together as blocks with two lines. *)
Theorem parseWeightText_blocks (f : form) :
  let blocks := splitBlankLines (weightText f) 0 [] in
  let f' := parseWeightText f in
  exists matched,
    weightItems f' = weightItems f ++ matched /\
    weightText f' = join [LF; LF] (unmatchedBlocks f') /\
    matched = omap (fun b => matchedOf (classifyBlock b)) blocks /\
    unmatchedBlocks f' = omap (fun b => unmatchedOf (classifyBlock b)) blocks /\
    (forall b, In b blocks -> hasTwoLines b = true ->
       (exists item, classifyBlock b = Matched item /\ In item matched) \/
       (classifyBlock b = Unmatched (trim b) /\ In (trim b) (unmatchedBlocks f'))) /\
    (forall b, In b blocks -> hasTwoLines b = false -> classifyBlock b = Skipped) /\
    (length matched + length (unmatchedBlocks f')
     = length (List.filter hasTwoLines blocks))%nat.
Proof.
  intros blocks f'. unfold f', parseWeightText. fold blocks.
  rewrite (fold_parseStep blocks [] []). cbn [app weightItems weightText unmatchedBlocks].
  eexists. split; [reflexivity|]. split; [reflexivity|]. split; [reflexivity|].
  split; [reflexivity|]. split; [|split].
  - intros b Hin Htwo. destruct (classifyBlock_cases b) as [_ Hm].
    destruct (Hm Htwo) as [[item E]|E]; [left; exists item|right]; (split; [exact E|]);
      apply list_elem_of_In, list_elem_of_omap; exists b;
      (split; [now apply list_elem_of_In | now rewrite E]).
  - intros b _ Htwo. now apply classifyBlock_cases.
  - apply outcomes_count.
Qed.

(** A block that matches and one that does not: one entry, and the text
    that is left is the block that did not match. *)
Example parseWeightText_matched_and_unmatched :
  parseWeightText (Form matched_and_unmatched [] []) =
    Form (utf16 "Foo" ++ [LF] ++ utf16 "12")
      [WeightItem (utf16 "Peso") (utf16 "80") []]
      [utf16 "Foo" ++ [LF] ++ utf16 "12"].
Proof. vm_compute. reflexivity. Qed.

(** C9 as the specification words it does not hold: of the two blocks of
    this text the first gives the one entry and the second, a label
    without a value, gives no entry and is not in the text that is left. *)
Lemma parseWeightText_drops_short_block :
  splitBlankLines matched_and_label_only 0 []
    = [utf16 "Peso" ++ [LF] ++ utf16 "80"; utf16 "foo"] /\
  findMatchingType (utf16 "foo") = None /\
  parseWeightText (Form matched_and_label_only [] []) =
    Form [] [WeightItem (utf16 "Peso") (utf16 "80") []] [] /\
  includes (weightText (parseWeightText (Form matched_and_label_only [] []))) (utf16 "foo")
    = false.
Proof. repeat split; vm_compute; reflexivity. Qed.

End ClassifierFacts.

Module BodyStatsFacts.
Import Js JsFacts BodyStats.

(** *** The date key *)









(** *** The texts of the numbers *)














(** *** The groups *)







(** An inherited name never becomes a key of [groups]. *)
Lemma groupStep_inherited (groups : store) (it : item) (ty : jsstring) :
  isInherited ty = true -> own groups !! ty = None ->
  own (groupStep groups it) !! ty = None.
Proof.
  intros Hi Hn. unfold groupStep.
  destruct (own groups !! type it) as [byDate|] eqn:Eo.
  - cbn [own]. rewrite lookup_insert_ne; [exact Hn|]. intros E. congruence.
  - destruct (jseq (type it) PROTO); [exact Hn|].
    destruct (isInherited (type it)) eqn:Ei; [exact Hn|].
    destruct (onPrototype groups !! type it); [exact Hn|].
    cbn [own]. rewrite lookup_insert_ne; [exact Hn|]. intros E. congruence.
Qed.

Lemma fold_groupStep_inherited (bodyStats : list item) (ty : jsstring) :
  isInherited ty = true ->
  forall groups, own groups !! ty = None ->
    own (fold_left groupStep bodyStats groups) !! ty = None.
Proof.
  intros Hi. induction bodyStats as [|it rest IH]; intros groups Hn; cbn [fold_left].
  - exact Hn.
  - apply IH. now apply groupStep_inherited.
Qed.





(** C10. The records are grouped in a plain object, and a type is looked
    up in it along the prototype chain. A record whose type is a name
    every object inherits finds something there and gets no group: the
    week whose one record has the type ['constructor'] has no grid at all,
    and no list of records gives a grid to such a type. A record of type
    ['__proto__'] is written on [Object.prototype], from where the grids
    of the other types read it: in the week with a weight on the second
    day and a ['__proto__'] record on the third, the grid of the weight
    has data on both days. *)
Theorem groupedBodyStats_inherited_names :
  groupedBodyStats constructor_week week_start = ∅ /\
  (forall bodyStats startDate ty,
     In ty inheritedNames -> groupedBodyStats bodyStats startDate !! ty = None) /\
  map hasData <$> groupedBodyStats proto_week week_start !! utf16 "Peso"
    = Some [false; true; true; false; false; false; false] /\
  map cell_value <$> groupedBodyStats proto_week week_start !! utf16 "Peso"
    = Some [None; Some (utf16 "80.5"); Some (utf16 "81"); None; None; None; None] /\
  groupedBodyStats proto_week week_start !! PROTO = None.
Proof.
  split; [vm_compute; reflexivity|]. split.
  - intros bodyStats startDate ty Hin. unfold groupedBodyStats, groupsOf. cbv zeta.
    rewrite lookup_fmap, fold_groupStep_inherited; [reflexivity| |apply lookup_empty].
    unfold isInherited. apply existsb_exists. exists ty. split; [exact Hin|].
    now apply jseq_eq.
  - repeat split; vm_compute; reflexivity.
Qed.

End BodyStatsFacts.

Module SortFacts.
Import Js.

Section Sorting.
Context {A : Type} (key : A -> Z).

Abbreviation le := (fun a b => key a <=? key b).

Lemma insertBy_perm (a : A) (l : list A) : Permutation (insertBy le a l) (a :: l).
Proof.
  induction l as [|b l IH]; cbn; [reflexivity|].
  destruct (key a <=? key b); [reflexivity|].
  rewrite IH. apply perm_swap.
Qed.

Lemma sortBy_perm (l : list A) : Permutation (sortBy le l) l.
Proof.
  induction l as [|a l IH]; cbn; [reflexivity|].
  rewrite insertBy_perm. now constructor.
Qed.

Lemma insertBy_sorted (a : A) (l : list A) :
  Sorted (fun x y => key x <= key y) l ->
  Sorted (fun x y => key x <= key y) (insertBy le a l).
Proof.
  induction 1 as [|b l HS IH Hd]; cbn; [repeat constructor|].
  destruct (Z.leb_spec (key a) (key b)).
  - repeat constructor; assumption.
  - constructor; [exact IH|].
    destruct Hd as [|c l' Hbc]; cbn.
    + constructor. lia.
    + destruct (Z.leb_spec (key a) (key c)); constructor; lia.
Qed.

Lemma sortBy_sorted (l : list A) : Sorted (fun x y => key x <= key y) (sortBy le l).
Proof.
  induction l as [|a l IH]; cbn; [constructor|]. now apply insertBy_sorted.
Qed.

(** The sort is stable: elements with the same key keep their order. *)
Lemma insertBy_filter (k : Z) (a : A) (l : list A) :
  Sorted (fun x y => key x <= key y) l ->
  List.filter (fun x => key x =? k) (insertBy le a l)
  = List.filter (fun x => key x =? k) (a :: l).
Proof.
  induction 1 as [|b l HS IH Hd]; [reflexivity|]. cbn [insertBy].
  destruct (Z.leb_spec (key a) (key b)); [reflexivity|].
  cbn [List.filter] in *. rewrite IH.
  destruct (Z.eqb_spec (key a) k), (Z.eqb_spec (key b) k); try reflexivity. lia.
Qed.

Lemma sortBy_stable (k : Z) (l : list A) :
  List.filter (fun x => key x =? k) (sortBy le l) = List.filter (fun x => key x =? k) l.
Proof.
  induction l as [|a l IH]; [reflexivity|]. cbn [sortBy fold_right].
  fold (sortBy le l). rewrite insertBy_filter by apply sortBy_sorted.
  cbn [List.filter]. now rewrite IH.
Qed.

End Sorting.

End SortFacts.

Module StatsFacts.
Import Num NumFacts Js Glucose GlucoseFacts Stats.




(** *** The order of the numbers *)

Lemma round64_not_NaN (q : Q) : round64 q <> NaN.
Proof.
  unfold round64. cbv zeta.
  destruct (huge <=? _); [destruct (_ <? 0)|]; discriminate.
Qed.

Lemma double_NaN (x : number) : double x = NaN -> x = NaN.
Proof.
  destruct x as [q| | |]; cbn [double]; try discriminate; [|reflexivity].
  intros E. now apply round64_not_NaN in E.
Qed.

Ltac not_NaN x :=
  let E := fresh "E" in
  destruct (double x) eqn:E;
  [ | | | apply double_NaN in E; subst x; try discriminate; try congruence ].

Lemma le_refl (x : number) : x <> NaN -> le x x = true.
Proof.
  intros H. unfold le. not_NaN x; try reflexivity. apply Qle_bool_iff, Qle_refl.
Qed.




Lemma le_not_NaN (x y : number) : le x y = true -> x <> NaN /\ y <> NaN.
Proof.
  unfold le. split; intros ->; cbn [double] in H; [discriminate|].
  destruct (double x); discriminate.
Qed.


(** *** The greatest and the least *)












(** *** The mean of whole numbers *)








(** *** The spots *)

Lemma statsFor_partition (z : zone) (lo hi : Q) (readings : list reading) :
  double (zone_min z) = Fin lo -> double (zone_max z) = Fin hi -> (lo <= hi)%Q ->
  (inRange (statsFor z readings) + aboveRange (statsFor z readings)
   + belowRange (statsFor z readings) = length (numeric readings))%nat /\
  total (statsFor z readings) = length readings.
Proof.
  intros Elo Ehi Hz. split; [|reflexivity].
  unfold statsFor, numeric; cbn [inRange aboveRange belowRange].
  induction readings as [|r rs IH]; [reflexivity|]. cbn [List.filter].
  unfold ge, gt, le, lt in *. rewrite Elo, Ehi in *.
  destruct (double (value r)) as [q| | |] eqn:E.
  - assert (En : isNaN (value r) = false).
    { destruct (value r); try reflexivity. discriminate. }
    rewrite En. cbn [negb length].
    destruct (Qle_bool lo q) eqn:E1; destruct (Qle_bool q hi) eqn:E2;
      cbn [andb negb length]; try lia.
    apply Qle_bool_false in E1, E2. lra.
  - assert (En : isNaN (value r) = false).
    { destruct (value r); try reflexivity. discriminate. }
    rewrite En. cbn [andb negb length]. lia.
  - assert (En : isNaN (value r) = false).
    { destruct (value r); try reflexivity. discriminate. }
    rewrite En. cbn [andb negb length]. lia.
  - apply double_NaN in E. rewrite E. cbn [isNaN andb negb length]. exact IH.
Qed.

Lemma numeric_all (readings : list reading) :
  length (numeric readings) = length readings <->
  forall r, In r readings -> value r <> NaN.
Proof.
  unfold numeric. induction readings as [|r rs IH]; cbn [List.filter length].
  - split; [intros _ r []|reflexivity].
  - pose proof (filter_length_le (fun r => negb (isNaN (value r))) rs) as Hle.
    destruct (value r) eqn:E; cbn [isNaN negb length].
    4: { split; [lia|]. intros H. exfalso. apply (H r); [now left|exact E]. }
    all: rewrite Nat.succ_inj_wd, IH;
      (split; [intros H x [<-|Hx]; [congruence|now apply H]
              |intros H x Hx; apply H; now right]).
Qed.

(** X2. In the sweet spot and in the perfect spot statistics every
    reading whose value is a number is counted once, inside, above or
    below the spot; a reading whose text is not a number is in none of the
    three counts. The total is the number of readings, so that the three
    counts add up to it exactly when every reading is a number. *)
Theorem spot_counts_add_up (glucoseReadings : list reading) :
  (inRange (sweetSpotStats glucoseReadings) + aboveRange (sweetSpotStats glucoseReadings)
   + belowRange (sweetSpotStats glucoseReadings)
   = length (numeric glucoseReadings))%nat /\
  total (sweetSpotStats glucoseReadings) = length glucoseReadings /\
  (inRange (perfectSpotStats glucoseReadings) + aboveRange (perfectSpotStats glucoseReadings)
   + belowRange (perfectSpotStats glucoseReadings)
   = length (numeric glucoseReadings))%nat /\
  total (perfectSpotStats glucoseReadings) = length glucoseReadings /\
  (length (numeric glucoseReadings) = length glucoseReadings <->
   forall r, In r glucoseReadings -> value r <> NaN).
Proof.
  destruct (statsFor_partition sweetSpot 60 180 glucoseReadings) as [S1 S2];
    [vm_compute; reflexivity | vm_compute; reflexivity | lra |].
  destruct (statsFor_partition perfectSpot 80 120 glucoseReadings) as [P1 P2];
    [vm_compute; reflexivity | vm_compute; reflexivity | lra |].
  split; [exact S1|]. split; [exact S2|]. split; [exact P1|]. split; [exact P2|].
  apply numeric_all.
Qed.

End StatsFacts.

Module AggregatorFacts.
Import Num NumFacts Js Glucose GlucoseFacts Chart SortFacts Stats.

(** *** The order of the readings and of the events *)

(** X3. [glucoseData] is in chronological order, holds exactly the
    glucose readings of the day (each as often as it occurs) and keeps the
    order of the response among readings of the same instant;
    [otherEvents] is the same for the other events. *)
Theorem prepared_data_sorted (parseFloat : jsstring -> number) (evs : list event) :
  let readings :=
    map (fun ev => Reading (parseFloat (ev_desc ev)) (ev_timestamp ev))
      (List.filter (fun ev => is_glucose (ev_type ev)) evs) in
  let others := List.filter (fun ev => negb (is_glucose (ev_type ev))) evs in
  chronological (glucoseData parseFloat evs) /\
  Permutation (glucoseData parseFloat evs) readings /\
  (forall t, List.filter (fun r => timestamp r =? t) (glucoseData parseFloat evs)
             = List.filter (fun r => timestamp r =? t) readings) /\
  Sorted (fun a b => ev_timestamp a <= ev_timestamp b) (otherEvents evs) /\
  Permutation (otherEvents evs) others /\
  (forall t, List.filter (fun ev => ev_timestamp ev =? t) (otherEvents evs)
             = List.filter (fun ev => ev_timestamp ev =? t) others).
Proof.
  cbv zeta. unfold glucoseData, otherEvents, chronological. repeat split.
  - apply (sortBy_sorted timestamp).
  - apply (sortBy_perm timestamp).
  - intros t. apply (sortBy_stable timestamp).
  - apply (sortBy_sorted ev_timestamp).
  - apply (sortBy_perm ev_timestamp).
  - intros t. apply (sortBy_stable ev_timestamp).
Qed.

(** *** The order of the aggregated points *)

Lemma boundaries_sorted (T : Z) (gs : list group) :
  boundaries_ok T gs ->
  Sorted (fun p q => T < g_timestamp q - g_timestamp p) (map aggregate gs).
Proof.
  induction gs as [|g gs IH]; intros H; cbn [map]; [constructor|].
  destruct gs as [|g' gs]; [repeat constructor|].
  destruct H as [Hgap H]. constructor; [now apply IH|].
  cbn [map]. constructor. exact Hgap.
Qed.

Lemma groupGlucoseReadings_groups (readings : list reading) (T : Z) :
  exists gs,
    groupGlucoseReadings readings T = map aggregate gs /\
    flat_map members gs = readings /\
    Forall (group_ok T) gs /\ boundaries_ok T gs.
Proof.
  destruct readings as [|r0 rest].
  - exists []. repeat split; constructor.
  - exists (groupsFrom T r0 [] rest). unfold groupGlucoseReadings.
    rewrite (loop_groups T rest [] r0 []). repeat split.
    + apply groupsFrom_members.
    + apply groupsFrom_ok. constructor.
    + apply groupsFrom_boundaries.
Qed.

Lemma strongly_sorted_lookup {A : Type} (R : A -> A -> Prop) (l : list A) :
  StronglySorted R l ->
  forall i j a b, (i < j)%nat -> l !! i = Some a -> l !! j = Some b -> R a b.
Proof.
  induction 1 as [|x l HS IH Hx]; intros i j a b Hij Hi Hj; [destruct i; discriminate|].
  destruct j as [|j]; [lia|]. cbn in Hj. destruct i as [|i]; cbn in Hi.
  - injection Hi as <-. rewrite Forall_forall in Hx. apply Hx.
    eapply list_elem_of_lookup_2, Hj.
  - eapply IH; [|exact Hi|exact Hj]. lia.
Qed.

Lemma points_increasing (readings : list reading) (T : Z) :
  0 <= T ->
  Sorted (fun p q => g_timestamp p < g_timestamp q) (groupGlucoseReadings readings T).
Proof.
  intros HT. destruct (groupGlucoseReadings_groups readings T) as (gs & -> & _ & _ & Hb).
  pose proof (boundaries_sorted T gs Hb) as HS.
  induction HS as [|p l _ IH Hd]; constructor; [exact IH|].
  destruct Hd; constructor. lia.
Qed.

(** X4. Whatever the readings, two consecutive aggregated points are more
    than the threshold apart; with a threshold that is not negative the
    points are therefore in strictly increasing order of time, no two at
    the same instant. *)
Theorem points_apart (readings : list reading) (T : Z) :
  Sorted (fun p q => T < g_timestamp q - g_timestamp p) (groupGlucoseReadings readings T) /\
  (0 <= T ->
     Sorted (fun p q => g_timestamp p < g_timestamp q) (groupGlucoseReadings readings T) /\
     by_time (groupGlucoseReadings readings T) /\
     NoDup (map g_timestamp (groupGlucoseReadings readings T))).
Proof.
  split.
  { destruct (groupGlucoseReadings_groups readings T) as (gs & -> & _ & _ & Hb).
    apply (boundaries_sorted T gs Hb). }
  intros HT. pose proof (points_increasing readings T HT) as Hlt.
  assert (Hss : StronglySorted (fun p q => g_timestamp p < g_timestamp q)
                  (groupGlucoseReadings readings T)).
  { apply Sorted_StronglySorted; [|exact Hlt]. intros a b c. lia. }
  split; [exact Hlt|]. split.
  - intros i j a b Hij Hi Hj. destruct (decide (i = j)) as [->|Hne].
    + rewrite Hi in Hj. injection Hj as <-. lia.
    + pose proof (strongly_sorted_lookup _ _ Hss i j a b ltac:(lia) Hi Hj) as Hab.
      cbn beta in Hab. lia.
  - clear Hlt. induction Hss as [|p l _ IH Hp]; cbn [map]; constructor; [|exact IH].
    intros Hin. apply list_elem_of_In, in_map_iff in Hin as (q & Hq & Hin).
    rewrite Forall_forall in Hp. specialize (Hp q (proj2 (list_elem_of_In _ _) Hin)).
    cbn beta in Hp. lia.
Qed.

(** *** Every reading has its point *)

Lemma strongly_sorted_groups (R : reading -> reading -> Prop) (gs : list group) :
  StronglySorted R (flat_map members gs) ->
  Forall (fun g => Forall (R (fst g)) (snd g)) gs.
Proof.
  induction gs as [|g gs IH]; intros H; constructor.
  - cbn [flat_map] in H. unfold members in H. cbn [app] in H.
    apply StronglySorted_inv in H as [_ H]. apply Forall_app in H. tauto.
  - apply IH. cbn [flat_map] in H. unfold members in H.
    clear IH. change (fst g :: snd g) with ([fst g] ++ snd g) in H.
    rewrite <- app_assoc in H. cbn [app] in H.
    apply StronglySorted_inv in H as [H _].
    induction (snd g) as [|x l IHl]; [exact H|].
    apply IHl. cbn [app] in H. now apply StronglySorted_inv in H.
Qed.

(** X5. On readings in chronological order and with a threshold that is
    not negative, every reading is represented: some aggregated point is
    dated at or before the reading and at most the threshold before it. *)
Theorem every_reading_covered (readings : list reading) (T : Z) (r : reading) :
  chronological readings -> 0 <= T -> In r readings ->
  exists p, In p (groupGlucoseReadings readings T) /\
    g_timestamp p <= timestamp r <= g_timestamp p + T.
Proof.
  intros Hs HT Hin.
  destruct (groupGlucoseReadings_groups readings T) as (gs & -> & Hm & Hok & _).
  assert (Hss : StronglySorted (fun a b => timestamp a <= timestamp b) (flat_map members gs)).
  { rewrite Hm. apply Sorted_StronglySorted; [|exact Hs]. intros a b c. lia. }
  pose proof (strongly_sorted_groups _ gs Hss) as Hin_order.
  rewrite <- Hm in Hin. apply in_flat_map in Hin as (g & Hg & Hr).
  exists (aggregate g). split; [now apply in_map|].
  unfold aggregate, closeGroup; cbn [g_timestamp].
  rewrite Forall_forall in Hok, Hin_order.
  specialize (Hok g (proj2 (list_elem_of_In _ _) Hg)).
  specialize (Hin_order g (proj2 (list_elem_of_In _ _) Hg)). cbn beta in Hin_order.
  unfold group_ok in Hok. rewrite Forall_forall in Hok, Hin_order.
  destruct Hr as [<-|Hr]; [lia|].
  apply list_elem_of_In in Hr. specialize (Hok r Hr). specialize (Hin_order r Hr). lia.
Qed.

Lemma every_reading_covered_witness :
  exists p,
    In p (groupGlucoseReadings
            [Reading (Fin 70) 21420000; Reading (Fin 77) 22320000; Reading (Fin 75) 22800000] 1800000) /\
    g_timestamp p <= 22800000 <= g_timestamp p + 1800000.
Proof.
  apply (every_reading_covered
           [Reading (Fin 70) 21420000; Reading (Fin 77) 22320000; Reading (Fin 75) 22800000]
           1800000 (Reading (Fin 75) 22800000)).
  - unfold chronological. repeat constructor; cbn; lia.
  - lia.
  - right. right. left. reflexivity.
Defined.

(** *** One group for the whole day *)

Lemma groupsFrom_all (T : Z) (first : reading) (rest : list reading) :
  Forall (fun r => timestamp r - timestamp first <= T) rest ->
  forall joined, groupsFrom T first joined rest = [(first, joined ++ rest)].
Proof.
  induction 1 as [|r rest Hr _ IH]; intros joined; cbn [groupsFrom].
  - now rewrite app_nil_r.
  - destruct (Z.leb_spec (timestamp r - timestamp first) T); [|lia].
    rewrite IH, <- app_assoc. reflexivity.
Qed.

Lemma fold_left_values (rs : list reading) (acc : number) :
  fold_left (fun a b => add a b) (map value rs) acc
  = fold_left (fun sum r => add sum (value r)) rs acc.
Proof. revert acc. induction rs as [|r rs IH]; intros acc; cbn; [reflexivity|apply IH]. Qed.

(** X6. When every reading of the day is at most the threshold after the
    first one, the chart has a single point, dated as the first reading,
    and its value is the average shown in the statistics. *)
Theorem one_point_is_the_average (first : reading) (rest : list reading) (T : Z) :
  Forall (fun r => timestamp r - timestamp first <= T) rest ->
  exists v,
    groupGlucoseReadings (first :: rest) T = [Point v (timestamp first)] /\
    avgGlucose (first :: rest) = Fixed v.
Proof.
  intros H. exists (toFixed0 (avgValue (first :: rest))). split.
  - unfold groupGlucoseReadings. rewrite (loop_groups T rest [] first []).
    rewrite (groupsFrom_all T first rest H []). reflexivity.
  - unfold avgGlucose. cbv zeta. rewrite length_map. cbn [length Nat.eqb].
    rewrite fold_left_values. reflexivity.
Qed.

Lemma one_point_is_the_average_witness :
  exists v,
    groupGlucoseReadings
      [Reading (Fin 70) 21420000; Reading (Fin 77) 22320000; Reading (Fin 75) 22800000] 1800000
      = [Point v 21420000] /\
    avgGlucose [Reading (Fin 70) 21420000; Reading (Fin 77) 22320000; Reading (Fin 75) 22800000] = Fixed v.
Proof.
  apply (one_point_is_the_average (Reading (Fin 70) 21420000)
           [Reading (Fin 77) 22320000; Reading (Fin 75) 22800000] 1800000).
  repeat constructor; cbn; lia.
Defined.

End AggregatorFacts.

Module RenderFacts.
Import Num NumFacts Js Glucose GlucoseFacts Chart ChartFacts SortFacts AggregatorFacts.

Lemma strongly_sorted_filter {A : Type} (R : A -> A -> Prop) (f : A -> bool) (l : list A) :
  StronglySorted R l -> StronglySorted R (List.filter f l).
Proof.
  induction 1 as [|x l HS IH Hx]; cbn [List.filter]; [constructor|].
  destruct (f x); [|exact IH]. constructor; [exact IH|].
  rewrite Forall_forall in Hx |- *. intros y Hy.
  apply Hx. apply list_elem_of_In. apply list_elem_of_In, filter_In in Hy. tauto.
Qed.

Lemma strongly_sorted_map {A B : Type} (R : B -> B -> Prop) (f : A -> B) (l : list A) :
  StronglySorted (fun a b => R (f a) (f b)) l -> StronglySorted R (map f l).
Proof.
  induction 1 as [|x l HS IH Hx]; cbn [map]; constructor; [exact IH|].
  rewrite Forall_forall in Hx. rewrite Forall_forall. intros y Hy.
  apply list_elem_of_In, in_map_iff in Hy as (a & <- & Ha).
  apply Hx. now apply list_elem_of_In.
Qed.

Lemma grouped_empty_iff (readings : list reading) (T : Z) :
  groupGlucoseReadings readings T = [] <-> readings = [].
Proof.
  destruct readings as [|r0 rest]; [tauto|]. unfold groupGlucoseReadings.
  rewrite (loop_groups T rest [] r0 []).
  destruct (groupsFrom_head T rest r0 []) as (j & tl & ->). split; discriminate.
Qed.

Section WithParseFloat.
Variable parseFloat : jsstring -> number.

Abbreviation updateChart := (updateChart parseFloat).
Abbreviation groupedGlucoseData := (groupedGlucoseData parseFloat).

Lemma no_grouped_iff (st : state) :
  groupedGlucoseData st = [] <->
  forall ev, In ev (events st) -> is_glucose (ev_type ev) = false.
Proof.
  unfold Chart.groupedGlucoseData. rewrite grouped_empty_iff.
  unfold glucoseData.
  set (rs := map _ (List.filter _ (events st))).
  pose proof (sortBy_perm timestamp rs) as Hp. split.
  - intros E. rewrite E in Hp. apply Permutation_nil in Hp.
    apply map_eq_nil in Hp. intros ev Hin.
    destruct (is_glucose (ev_type ev)) eqn:Eg; [|reflexivity].
    assert (Hf : In ev (List.filter (fun ev => is_glucose (ev_type ev)) (events st)))
      by (apply filter_In; auto).
    rewrite Hp in Hf. destruct Hf.
  - intros H. assert (E : rs = []).
    { unfold rs. destruct (List.filter _ (events st)) as [|ev l] eqn:Ef; [reflexivity|].
      assert (Hin : In ev (List.filter (fun ev => is_glucose (ev_type ev)) (events st)))
        by (rewrite Ef; now left).
      apply filter_In in Hin as [Hin Hg]. rewrite (H ev Hin) in Hg. discriminate. }
    rewrite E. reflexivity.
Qed.

Lemma chart_iff_grouped (st : state) :
  chartInstance (updateChart st) = None <-> groupedGlucoseData st = [].
Proof.
  unfold Chart.updateChart. cbv zeta.
  destruct (Chart.groupedGlucoseData parseFloat st) as [|p l]; cbn [length Nat.eqb].
  - cbn. tauto.
  - destruct (zoomWindow _ _ _ _ _). cbn. split; discriminate.
Qed.

Lemma chart_drawn (st : state) :
  chartInstance (updateChart st) = None <-> no_glucose st.
Proof.
  rewrite chart_iff_grouped, no_grouped_iff. split; intros H ev Hin.
  - specialize (H ev Hin). intros E. rewrite E in H. discriminate.
  - specialize (H ev Hin). destruct (ev_type ev); try reflexivity. congruence.
Qed.

(** X7. [updateChart] draws a chart exactly when the day has at least one
    glucose reading, whatever other events it has. A chart that is drawn
    has at least one point on its line, and the stored full range then
    runs from the earliest to the latest instant of the aggregated points
    and the other events. *)
Theorem chart_drawn_iff (st : state) :
  (chartInstance (updateChart st) = None <->
     forall ev, In ev (events st) -> ev_type ev <> glucose_reading) /\
  (forall c, chartInstance (updateChart st) = Some c ->
     displayDataPoints c <> [] /\
     fullDataRange (updateChart st)
       = Range (minOf (allTimestamps parseFloat st)) (maxOf (allTimestamps parseFloat st)) /\
     forall t, In t (allTimestamps parseFloat st) ->
       range_min (fullDataRange (updateChart st)) <= t
       <= range_max (fullDataRange (updateChart st))).
Proof.
  split.
  - rewrite chart_iff_grouped, no_grouped_iff. split; intros H ev Hin.
    + specialize (H ev Hin). intros E. rewrite E in H. discriminate.
    + specialize (H ev Hin). destruct (ev_type ev); try reflexivity. congruence.
  - intros c Hc.
    assert (Hg : groupedGlucoseData st <> []).
    { intros E. apply chart_iff_grouped in E. congruence. }
    destruct (updateChart_chart parseFloat st c Hc) as (_ & _ & _ & Hd & _).
    assert (Hr : fullDataRange (updateChart st)
                 = Range (minOf (allTimestamps parseFloat st))
                     (maxOf (allTimestamps parseFloat st))).
    { rewrite range_after. destruct (Chart.groupedGlucoseData parseFloat st); [congruence|].
      reflexivity. }
    split; [|split; [exact Hr|]].
    + rewrite Hd. clear Hd.
      destruct (List.filter _ (glucoseDataPoints parseFloat st)) as [|p l];
        cbn [length Nat.ltb Nat.leb]; [|discriminate].
      unfold glucoseDataPoints. destruct (Chart.groupedGlucoseData parseFloat st);
        [congruence|discriminate].
    + intros t Ht. rewrite Hr. cbn [range_min range_max]. now apply minOf_maxOf.
Qed.

Lemma updateChart_ext (st1 st2 : state) :
  events st1 = events st2 -> timeThreshold st1 = timeThreshold st2 ->
  zoomLevel st1 = zoomLevel st2 -> zoomWindowStart st1 = zoomWindowStart st2 ->
  (groupedGlucoseData st2 = [] -> fullDataRange st1 = fullDataRange st2) ->
  updateChart st1 = updateChart st2.
Proof.
  destruct st1 as [e1 t1 z1 s1 r1 c1], st2 as [e2 t2 z2 s2 r2 c2].
  cbn [events timeThreshold zoomLevel zoomWindowStart fullDataRange].
  intros -> -> -> -> Hr.
  unfold Chart.updateChart, getZoomWindowSize, glucoseDataPoints, markerOf, allTimestamps,
    Chart.groupedGlucoseData in *.
  cbn [events timeThreshold zoomLevel zoomWindowStart fullDataRange chartInstance] in *.
  destruct (groupGlucoseReadings _ _) as [|p l]; cbn [length Nat.eqb].
  - now rewrite Hr.
  - reflexivity.
Qed.

(** X8. Drawing the chart again changes nothing: [updateChart] is
    idempotent, so the triggers that call it (a date change, a threshold
    change, a zoom change) can do so any number of times. *)
Theorem updateChart_idempotent (st : state) :
  updateChart (updateChart st) = updateChart st.
Proof.
  destruct (updateChart_fields parseFloat st) as (He & Ht & Hz & Hs & Hn & _).
  apply updateChart_ext; try assumption.
  intros Hg. apply Hn. now apply chart_iff_grouped.
Qed.

(** X9. In a chart that is drawn, every marker stands for a non-glucose
    event of the day, at the instant of that event, inside the zoom window
    and strictly inside the bounds of the x axis; its height is the value
    of one of the aggregated points, never the fallback 40 of the code. *)
Theorem markers_of_events (st : state) (c : chart) (m : marker) :
  chartInstance (updateChart st) = Some c -> In m (scatterData c) ->
  In (m_event m) (events st) /\
  ev_type (m_event m) <> glucose_reading /\
  m_x m = ev_timestamp (m_event m) /\
  windowStart c <= m_x m <= windowEnd c /\
  axis_min c < m_x m < axis_max c /\
  exists p, In p (groupedGlucoseData st) /\
    closestGlucose (groupedGlucoseData st) (m_x m) = Some p /\ m_y m = g_value p.
Proof.
  intros Hc Hm.
  assert (Hg : groupedGlucoseData st <> []).
  { intros E. apply chart_iff_grouped in E. congruence. }
  assert (Haxis : axis_min c = windowStart c - 240000 /\ axis_max c = windowEnd c + 240000).
  { revert Hc. unfold Chart.updateChart. cbv zeta.
    destruct (length _ =? 0)%nat; [discriminate|].
    destruct (zoomWindow _ _ _ _ _). cbn [chartInstance]. intros [= <-].
    cbn [axis_min axis_max windowStart windowEnd]. lia. }
  destruct (updateChart_chart parseFloat st c Hc) as (_ & Hws & Hwe & _ & Hs).
  rewrite <- Hws, <- Hwe in Hs. rewrite Hs in Hm.
  apply in_map_iff in Hm as (ev & <- & Hev). apply filter_In in Hev as [Hev Hin].
  unfold inWindow in Hin. apply andb_true_iff in Hin as [H1 H2].
  apply Z.leb_le in H1, H2.
  unfold otherEvents in Hev.
  apply (Permutation_in _ (sortBy_perm ev_timestamp _)) in Hev.
  apply filter_In in Hev as [Hev Hng].
  unfold markerOf; cbn [m_event m_x m_y]. destruct Haxis as [-> ->].
  split; [exact Hev|]. split.
  { intros E. rewrite E in Hng. discriminate. }
  split; [reflexivity|]. split; [lia|]. split; [lia|].
  pose proof (fold_closestStep_scanned (ev_timestamp ev) (groupedGlucoseData st) []
                (None, Infinity) eq_refl) as Hscan.
  cbn [app] in Hscan. unfold yValue, closestGlucose.
  destruct (fold_left _ (groupedGlucoseData st) (None, Infinity)) as [[p|] [|d]];
    cbn in Hscan; try contradiction.
  destruct Hscan as [_ (i & Hi & _)]. exists p. cbn [fst].
  split; [|split; reflexivity].
  apply list_elem_of_In. eapply list_elem_of_lookup_2, Hi.
Qed.

(** X10. With a threshold that is not negative, the points of the line
    are in strictly increasing order of time, and the markers are in
    order of time. *)
Theorem series_in_time_order (st : state) (c : chart) :
  0 <= timeThreshold st -> chartInstance (updateChart st) = Some c ->
  Sorted (fun a b => pt_x a < pt_x b) (displayDataPoints c) /\
  Sorted (fun a b => m_x a <= m_x b) (scatterData c).
Proof.
  intros HT Hc.
  destruct (updateChart_chart parseFloat st c Hc) as (_ & _ & _ & Hd & Hs).
  assert (Hp : StronglySorted (fun a b => pt_x a < pt_x b) (glucoseDataPoints parseFloat st)).
  { unfold glucoseDataPoints.
    pose proof (points_increasing (glucoseData parseFloat (events st))
                  (timeThreshold st * 60 * 1000) ltac:(lia)) as Hlt.
    apply Sorted_StronglySorted in Hlt; [|intros a b d; lia].
    apply (strongly_sorted_map (fun a b => pt_x a < pt_x b)
             (fun r => XY (g_timestamp r) (g_value r))).
    exact Hlt. }
  split.
  - rewrite Hd. apply StronglySorted_Sorted.
    destruct (0 <? length _)%nat; [now apply strongly_sorted_filter | exact Hp].
  - rewrite Hs. apply StronglySorted_Sorted.
    apply (strongly_sorted_map (fun a b => m_x a <= m_x b) (markerOf parseFloat st)).
    apply strongly_sorted_filter.
    assert (Ho : StronglySorted (fun a b => ev_timestamp a <= ev_timestamp b)
                   (otherEvents (events st)))
      by (apply Sorted_StronglySorted;
          [intros a b d; lia | apply (sortBy_sorted ev_timestamp)]).
    exact Ho.
Qed.

End WithParseFloat.

Lemma markers_of_events_witness :
  exists p, In p (Chart.groupedGlucoseData hundred (State lunch_day 30 All 0 (Range 0 0) None)) /\
    closestGlucose (Chart.groupedGlucoseData hundred (State lunch_day 30 All 0 (Range 0 0) None))
      39600000 = Some p /\
    Int 100 = g_value p.
Proof.
  apply (markers_of_events hundred (State lunch_day 30 All 0 (Range 0 0) None)
           (MkChart 36000000 43200000 35760000 43440000
              [XY 36000000 (Int 100); XY 43200000 (Int 100)]
              [Marker 39600000 (Int 100) (Event food (utf16 "lunch") 39600000)])
           (Marker 39600000 (Int 100) (Event food (utf16 "lunch") 39600000))).
  - vm_compute. reflexivity.
  - left. reflexivity.
Defined.

Lemma series_in_time_order_witness :
  Sorted (fun a b => pt_x a < pt_x b) [XY 36000000 (Int 100); XY 43200000 (Int 100)].
Proof.
  apply (series_in_time_order hundred (State lunch_day 30 All 0 (Range 0 0) None)
           (MkChart 36000000 43200000 35760000 43440000
              [XY 36000000 (Int 100); XY 43200000 (Int 100)]
              [Marker 39600000 (Int 100) (Event food (utf16 "lunch") 39600000)])).
  - cbn. lia.
  - vm_compute. reflexivity.
Defined.

End RenderFacts.


Module ZoomFacts.
Import Num Js Glucose Chart ChartFacts RenderFacts.

Section WithParseFloat.
Variable parseFloat : jsstring -> number.

Abbreviation updateChart := (updateChart parseFloat).
Abbreviation setZoomLevel := (setZoomLevel parseFloat).
Abbreviation moveZoomWindow := (moveZoomWindow parseFloat).

Lemma setZoomLevel_chart (lvl : level) (st : state) :
  chartInstance (setZoomLevel lvl st) = None <-> no_glucose st.
Proof. unfold Chart.setZoomLevel. now rewrite chart_drawn. Qed.

Lemma run_chart (o : op) (st : state) :
  (chartInstance st = None <-> no_glucose st) ->
  (chartInstance (run parseFloat o st) = None <-> no_glucose (run parseFloat o st)).
Proof.
  intros H. destruct (run_fields parseFloat o st) as [He _].
  assert (En : no_glucose (run parseFloat o st) <-> no_glucose st)
    by (unfold no_glucose; now rewrite He).
  rewrite En. destruct o as [lvl|dir]; cbn [run].
  - apply setZoomLevel_chart.
  - unfold Chart.moveZoomWindow. destruct (zoomLevel st); [exact H|].
    destruct (_ <=? 0); [exact H|]. now rewrite chart_drawn.
Qed.

Lemma fold_run_chart (ops : list op) :
  forall st,
    (chartInstance st = None <-> no_glucose st) ->
    let st' := fold_left (fun s o => run parseFloat o s) ops st in
    (chartInstance st' = None <-> no_glucose st').
Proof.
  induction ops as [|o ops IH]; intros st H; cbn [fold_left]; [exact H|].
  apply IH, run_chart, H.
Qed.

(** C5. [setZoomLevel] draws a chart exactly when the day has a glucose
    reading. After [setZoomLevel('all')] the window of the chart is the
    full range. After [setZoomLevel] with a fixed length: when the span of
    the stored full range is at most that length the window starts at the
    start of the range (and the chart shows the whole range); otherwise it
    starts at the end of the range minus the length (and the chart shows
    that last slice). The window of the chart is read against the range
    the chart was drawn for, which is the stored one when the events on
    display have not changed. *)
Theorem setZoomLevel_window (st : state) :
  (forall lvl, chartInstance (setZoomLevel lvl st) = None <-> no_glucose st) /\
  (forall c, chartInstance (setZoomLevel All st) = Some c ->
     windowStart c = range_min (fullDataRange (setZoomLevel All st)) /\
     windowEnd c = range_max (fullDataRange (setZoomLevel All st))) /\
  (forall hours,
     let len := hours * 60 * 60 * 1000 in
     let full := fullDataRange st in
     let st' := setZoomLevel (Hours hours) st in
     zoomLevel st' = Hours hours /\
     (synced parseFloat st -> fullDataRange st' = full) /\
     (range_max full - range_min full <= len ->
        zoomWindowStart st' = range_min full /\
        (forall c, fullDataRange st' = full -> chartInstance st' = Some c ->
           windowStart c = range_min full /\ windowEnd c = range_max full)) /\
     (len < range_max full - range_min full ->
        zoomWindowStart st' = range_max full - len /\
        (forall c, fullDataRange st' = full -> chartInstance st' = Some c ->
           windowStart c = range_max full - len /\ windowEnd c = range_max full))).
Proof.
  split; [intros lvl; apply setZoomLevel_chart|]. split.
  - intros c Hc. unfold Chart.setZoomLevel in *.
    set (st1 := State _ _ _ _ _ _) in *.
    destruct (updateChart_fields parseFloat st1) as (_ & _ & Hl & _ & _ & Hw).
    specialize (Hw c Hc). unfold getZoomWindowSize in Hw. rewrite Hl in Hw.
    cbn [zoomLevel st1] in Hw. rewrite zoomWindow_all in Hw. now injection Hw.
  - intros hours len full st'.
    split; [|split].
    { unfold st', Chart.setZoomLevel. set (st1 := State _ _ _ _ _ _).
      now destruct (updateChart_fields parseFloat st1) as (_ & _ & Hl & _). }
    { intros Hs. now destruct (run_synced parseFloat (SetZoom (Hours hours)) st Hs). }
    unfold st', Chart.setZoomLevel.
    set (st1 := State _ _ _ _ _ _).
    destruct (updateChart_fields parseFloat st1) as (_ & _ & Hl & Hs & _ & Hw).
    unfold getZoomWindowSize in Hw. rewrite Hl in Hw.
    cbn [zoomLevel zoomWindowStart st1] in Hw, Hs. fold full len in Hw, Hs.
    split; intros Hspan.
    + destruct (Z.leb_spec (range_max full - range_min full) len); [|lia].
      split; [exact Hs|]. intros c Hfull Hc. specialize (Hw c Hc).
      rewrite Hfull, zoomWindow_fit in Hw by lia. now injection Hw.
    + destruct (Z.leb_spec (range_max full - range_min full) len); [lia|].
      split; [exact Hs|]. intros c Hfull Hc. specialize (Hw c Hc).
      rewrite Hfull, zoomWindow_recent in Hw by lia. now injection Hw.
Qed.

(** C6, as the code has it. Let the stored full range be the range of the
    events on display, and let the zoom state satisfy the invariant to
    begin with, as it does when the page opens, at zoom ['all']. Whatever
    the sequence of [setZoomLevel] and [moveZoomWindow] calls: the full
    range stays what it was; the window of the chart on display, after the
    clamping of [updateChart], lies inside the full range; and whenever
    the zoom is a fixed length that is not negative and not longer than
    the span of the full range, the stored window does too:
    fullRange.start <= windowStart and
    windowStart + windowLength <= fullRange.end. A chart is on display
    exactly when the day has a glucose reading, if that was so to begin
    with. When the span of the full range is shorter than a fixed length,
    [setZoomLevel] with that length stores the start of the range as the
    window start and the chart shows exactly the full range.
    [moveZoomWindow] changes nothing when the zoom is ['all'] or the full
    range has no span; otherwise it moves [zoomWindowStart] by half the
    window length, to the left not below the start of the range and to the
    right not above the end of the range minus the window length. *)
Theorem zoom_window_invariant (st : state) (ops : list op) :
  synced parseFloat st -> drawn_window_inside st ->
  (fits (fullDataRange st) (zoomLevel st) -> stored_window_inside st) ->
  let st' := fold_left (fun s o => run parseFloat o s) ops st in
  fullDataRange st' = fullDataRange st /\
  drawn_window_inside st' /\
  (fits (fullDataRange st') (zoomLevel st') -> stored_window_inside st') /\
  ((chartInstance st = None <-> no_glucose st) ->
   (chartInstance st' = None <-> no_glucose st')) /\
  (forall hours,
     let len := hours * 60 * 60 * 1000 in
     let zoomed := setZoomLevel (Hours hours) st' in
     range_max (fullDataRange st') - range_min (fullDataRange st') < len ->
     zoomLevel zoomed = Hours hours /\
     fullDataRange zoomed = fullDataRange st' /\
     zoomWindowStart zoomed = range_min (fullDataRange st') /\
     (chartInstance zoomed = None <-> no_glucose st') /\
     (forall c, chartInstance zoomed = Some c ->
        windowStart c = range_min (fullDataRange st') /\
        windowEnd c = range_max (fullDataRange st'))) /\
  (forall dir,
     (zoomLevel st' = All \/
      range_max (fullDataRange st') - range_min (fullDataRange st') <= 0 ->
        moveZoomWindow dir st' = st') /\
     (forall hours,
        zoomLevel st' = Hours hours ->
        0 < range_max (fullDataRange st') - range_min (fullDataRange st') ->
        let len := hours * 60 * 60 * 1000 in
        zoomWindowStart (moveZoomWindow dir st') =
          match dir with
          | PanLeft =>
              Z.max (range_min (fullDataRange st')) (zoomWindowStart st' - len / 2)
          | PanRight =>
              Z.min (range_max (fullDataRange st') - len) (zoomWindowStart st' + len / 2)
          end)).
Proof.
  intros Hs Hd Hj st'.
  destruct (fold_run parseFloat ops st Hs Hd Hj) as (Hs' & Hf & He & Hd' & Hj').
  fold st' in Hs', Hf, He, Hd', Hj'.
  split; [exact Hf|]. split; [exact Hd'|]. split; [exact Hj'|]. split; [|split].
  - apply fold_run_chart.
  - intros hours len zoomed Hspan.
    destruct (run_synced parseFloat (SetZoom (Hours hours)) st' Hs') as [_ Hfz].
    cbn [run] in Hfz. fold zoomed in Hfz.
    pose proof (setZoomLevel_chart (Hours hours) st') as Hchart. fold zoomed in Hchart.
    unfold zoomed, Chart.setZoomLevel in *. set (st1 := State _ _ _ _ _ _) in *.
    destruct (updateChart_fields parseFloat st1) as (_ & _ & Hl & Hst & _ & Hw).
    cbn [zoomLevel zoomWindowStart st1] in Hl, Hst.
    destruct (Z.leb_spec (range_max (fullDataRange st') - range_min (fullDataRange st'))
                (hours * 60 * 60 * 1000)) as [_|]; [|lia].
    split; [exact Hl|]. split; [exact Hfz|]. split; [exact Hst|]. split; [exact Hchart|].
    intros c Hc. specialize (Hw c Hc). unfold getZoomWindowSize in Hw. rewrite Hl in Hw.
    cbn [zoomLevel zoomWindowStart st1] in Hw. rewrite Hfz in Hw.
    rewrite zoomWindow_fit in Hw by (fold len; lia). now injection Hw.
  - intros dir. apply moveZoomWindow_start.
Qed.

End WithParseFloat.

(** A day of two hours and a day of ten, at the 4 hour zoom: all of the
    first day, the last four hours of the second. *)
Lemma setZoomLevel_window_witness :
  (exists c,
     chartInstance (Chart.setZoomLevel hundred (Hours 4) (drawn two_hours)) = Some c /\
     windowStart c = 36000000 /\ windowEnd c = 43200000) /\
  (exists c,
     chartInstance (Chart.setZoomLevel hundred (Hours 4) (drawn ten_hours)) = Some c /\
     windowStart c = 28800000 /\ windowEnd c = 43200000).
Proof.
  split.
  - destruct (setZoomLevel_window hundred (drawn two_hours)) as (Hdrawn & _ & Hfixed).
    destruct (Hfixed 4) as (_ & Hfull & Hshort & _). cbv zeta in Hfull, Hshort.
    destruct Hshort as [_ Hw]; [vm_compute; discriminate|].
    destruct (chartInstance (Chart.setZoomLevel hundred (Hours 4) (drawn two_hours)))
      as [c|] eqn:Ec.
    + exists c. split; [reflexivity|].
      apply (Hw c); [apply Hfull; vm_compute; reflexivity | reflexivity].
    + exfalso. apply (Hdrawn (Hours 4)) in Ec.
      apply (Ec (Event glucose_reading (utf16 "100") 36000000)); [|reflexivity].
      vm_compute. now left.
  - destruct (setZoomLevel_window hundred (drawn ten_hours)) as (Hdrawn & _ & Hfixed).
    destruct (Hfixed 4) as (_ & Hfull & _ & Hlong). cbv zeta in Hfull, Hlong.
    destruct Hlong as [_ Hw]; [vm_compute; reflexivity|].
    destruct (chartInstance (Chart.setZoomLevel hundred (Hours 4) (drawn ten_hours)))
      as [c|] eqn:Ec.
    + exists c. split; [reflexivity|].
      apply (Hw c); [apply Hfull; vm_compute; reflexivity | reflexivity].
    + exfalso. apply (Hdrawn (Hours 4)) in Ec.
      apply (Ec (Event glucose_reading (utf16 "100") 7200000)); [|reflexivity].
      vm_compute. now left.
Defined.

(** A day of ten hours: the 12 hour zoom does not fit, the 4 hour zoom
    chosen after it does, and the window stays inside the range through
    the steps that follow. *)
Lemma zoom_window_invariant_witness :
  let st := drawn ten_hours in
  let st' := fold_left (fun s o => run hundred o s)
               [SetZoom (Hours 12); SetZoom (Hours 4); Pan PanLeft; Pan PanLeft;
                Pan PanRight] st in
  fullDataRange st' = fullDataRange st /\
  drawn_window_inside st' /\
  stored_window_inside st' /\
  chartInstance st' <> None.
Proof.
  cbv zeta.
  assert (Hs : synced hundred (drawn ten_hours)) by (vm_compute; reflexivity).
  assert (Hd : drawn_window_inside (drawn ten_hours)) by apply drawn_updateChart.
  assert (Hj : fits (fullDataRange (drawn ten_hours)) (zoomLevel (drawn ten_hours)) ->
               stored_window_inside (drawn ten_hours))
    by (intros _ hours Hz; discriminate Hz).
  destruct (zoom_window_invariant hundred (drawn ten_hours)
              [SetZoom (Hours 12); SetZoom (Hours 4); Pan PanLeft; Pan PanLeft;
               Pan PanRight] Hs Hd Hj)
    as (Hf & Hd' & Hst & Hc & _).
  split; [exact Hf|]. split; [exact Hd'|]. split.
  - apply Hst. rewrite Hf. vm_compute. split; discriminate.
  - intros Hn. apply Hc in Hn.
    + apply (Hn (Event glucose_reading (utf16 "100") 7200000)); [|reflexivity].
      vm_compute. now left.
    + split; [intros E; vm_compute in E; discriminate|].
      intros Hn'. exfalso.
      apply (Hn' (Event glucose_reading (utf16 "100") 7200000)); [|reflexivity].
      vm_compute. now left.
Defined.

(** C6 as the specification words it does not hold. On a day whose
    readings span two hours, after the 4 hour zoom is chosen the zoom is a
    fixed length, the stored window starts at the start of the range and
    the chart shows exactly the range: in both, the start plus the four
    hours is past the end of the range. *)
Lemma zoom_window_longer_than_data :
  let st := Chart.setZoomLevel hundred (Hours 4) (drawn two_hours) in
  zoomLevel st = Hours 4 /\
  fullDataRange st = Range 36000000 43200000 /\
  zoomWindowStart st = 36000000 /\
  ~ (zoomWindowStart st + 4 * 60 * 60 * 1000 <= range_max (fullDataRange st)) /\
  exists c, chartInstance st = Some c /\
    windowStart c = 36000000 /\ windowEnd c = 43200000 /\
    ~ (windowStart c + 4 * 60 * 60 * 1000 <= range_max (fullDataRange st)).
Proof.
  cbv zeta. set (st := setZoomLevel _ _ _). vm_compute in st. subst st.
  cbn [zoomLevel fullDataRange zoomWindowStart chartInstance range_max].
  split; [reflexivity|]. split; [reflexivity|]. split; [reflexivity|]. split; [lia|].
  eexists. split; [reflexivity|]. cbn [windowStart windowEnd].
  split; [reflexivity|]. split; [reflexivity|]. lia.
Qed.

(** On the same day a step to the right then stores a start before the
    start of the range; the chart still shows exactly the range. *)
Example moveZoomWindow_right_short_day :
  let st := Chart.moveZoomWindow hundred PanRight
              (Chart.setZoomLevel hundred (Hours 4) (drawn two_hours)) in
  zoomWindowStart st = 28800000 /\
  range_min (fullDataRange st) = 36000000 /\
  exists c, chartInstance st = Some c /\
    windowStart c = 36000000 /\ windowEnd c = 43200000.
Proof.
  cbv zeta. set (st := moveZoomWindow _ _ _). vm_compute in st. subst st.
  cbn [zoomLevel fullDataRange zoomWindowStart chartInstance range_min].
  split; [reflexivity|]. split; [reflexivity|].
  eexists. split; [reflexivity|]. split; reflexivity.
Qed.

End ZoomFacts.

Module PanFacts.
Import Num Js Glucose Chart ChartFacts.

Section WithParseFloat.
Variable parseFloat : jsstring -> number.

Abbreviation moveZoomWindow := (moveZoomWindow parseFloat).
Abbreviation setZoomLevel := (setZoomLevel parseFloat).

Lemma pan_keeps (dir : direction) (st : state) :
  synced parseFloat st ->
  synced parseFloat (moveZoomWindow dir st) /\
  fullDataRange (moveZoomWindow dir st) = fullDataRange st /\
  zoomLevel (moveZoomWindow dir st) = zoomLevel st.
Proof.
  intros Hs. destruct (run_synced parseFloat (Pan dir) st Hs) as [H1 H2].
  cbn [run] in H1, H2. split; [exact H1|]. split; [exact H2|].
  unfold Chart.moveZoomWindow. destruct (zoomLevel st) eqn:Hz; [exact Hz|].
  destruct (_ <=? 0); [exact Hz|].
  set (st1 := State _ _ _ _ _ _).
  destruct (updateChart_fields parseFloat st1) as (_ & _ & Hl & _). rewrite Hl.
  subst st1. cbn [zoomLevel]. first [exact Hz | reflexivity].
Qed.

Lemma half_window (hours : Z) :
  0 <= hours -> 0 <= hours * 60 * 60 * 1000 / 2 /\
  hours * 60 * 60 * 1000 / 2 * 2 = hours * 60 * 60 * 1000.
Proof.
  intros H. replace (hours * 60 * 60 * 1000) with (hours * 1800000 * 2) by lia.
  rewrite Z.div_mul by lia. lia.
Qed.

(** X11. With a fixed zoom on data that have a span, [k] steps to the
    left move the stored window start by [k] half windows, but not below
    the start of the range; [k] steps to the right move it by [k] half
    windows, but not above the end of the range minus the window length.
    Once at such a bound, further steps in that direction change nothing. *)
Theorem pan_steps (st : state) (hours : Z) (k : nat) :
  synced parseFloat st -> zoomLevel st = Hours hours -> 0 <= hours ->
  0 < range_max (fullDataRange st) - range_min (fullDataRange st) ->
  let len := hours * 60 * 60 * 1000 in
  let lo := range_min (fullDataRange st) in
  let hi := range_max (fullDataRange st) - len in
  (lo <= zoomWindowStart st ->
     zoomWindowStart (Nat.iter k (moveZoomWindow PanLeft) st)
     = Z.max lo (zoomWindowStart st - Z.of_nat k * (len / 2))) /\
  (zoomWindowStart st <= hi ->
     zoomWindowStart (Nat.iter k (moveZoomWindow PanRight) st)
     = Z.min hi (zoomWindowStart st + Z.of_nat k * (len / 2))).
Proof.
  intros Hs Hz Hh Hspan len lo hi.
  destruct (half_window hours Hh) as [Hstep _]. fold len in Hstep.
  assert (Hiter : forall dir n,
            synced parseFloat (Nat.iter n (moveZoomWindow dir) st) /\
            fullDataRange (Nat.iter n (moveZoomWindow dir) st) = fullDataRange st /\
            zoomLevel (Nat.iter n (moveZoomWindow dir) st) = Hours hours).
  { intros dir n. induction n as [|n (I1 & I2 & I3)];
      [split; [exact Hs|split; [reflexivity|exact Hz]]|]. rewrite Nat.iter_succ.
    destruct (pan_keeps dir _ I1) as (P1 & P2 & P3).
    split; [exact P1|]. split; [rewrite P2; exact I2 | rewrite P3; exact I3]. }
  split; intros Hstart.
  - induction k as [|k IH]; [unfold Nat.iter; cbn [nat_rect]; lia|].
    rewrite Nat.iter_succ. destruct (Hiter PanLeft k) as (I1 & I2 & I3).
    destruct (moveZoomWindow_start parseFloat PanLeft
                (Nat.iter k (moveZoomWindow PanLeft) st)) as [_ Hm].
    rewrite (Hm hours I3) by (rewrite I2; exact Hspan). cbv zeta.
    rewrite I2, IH. fold lo len. lia.
  - induction k as [|k IH]; [unfold Nat.iter; cbn [nat_rect]; lia|].
    rewrite Nat.iter_succ. destruct (Hiter PanRight k) as (I1 & I2 & I3).
    destruct (moveZoomWindow_start parseFloat PanRight
                (Nat.iter k (moveZoomWindow PanRight) st)) as [_ Hm].
    rewrite (Hm hours I3) by (rewrite I2; exact Hspan). cbv zeta.
    rewrite I2, IH. fold len. fold hi. lia.
Qed.

(** X12. After a fixed zoom is chosen on data longer than its length, the
    window is the most recent slice: a step to the right leaves the stored
    window start where it is, and a step to the left followed by a step to
    the right brings it back. *)
Theorem pan_after_zoom (st : state) (hours : Z) :
  synced parseFloat st -> 0 <= hours ->
  hours * 60 * 60 * 1000 < range_max (fullDataRange st) - range_min (fullDataRange st) ->
  let zoomed := setZoomLevel (Hours hours) st in
  zoomWindowStart zoomed = range_max (fullDataRange st) - hours * 60 * 60 * 1000 /\
  zoomWindowStart (moveZoomWindow PanRight zoomed) = zoomWindowStart zoomed /\
  zoomWindowStart (moveZoomWindow PanRight (moveZoomWindow PanLeft zoomed))
    = zoomWindowStart zoomed.
Proof.
  intros Hs Hh Hspan zoomed.
  destruct (half_window hours Hh) as [Hstep _].
  destruct (run_synced parseFloat (SetZoom (Hours hours)) st Hs) as [Hs1 Hf1].
  cbn [run] in Hs1, Hf1. fold zoomed in Hs1, Hf1.
  assert (Hz : zoomLevel zoomed = Hours hours /\
               zoomWindowStart zoomed
               = range_max (fullDataRange st) - hours * 60 * 60 * 1000).
  { unfold zoomed, Chart.setZoomLevel. set (st1 := State _ _ _ _ _ _).
    destruct (updateChart_fields parseFloat st1) as (_ & _ & Hl & Hst & _).
    rewrite Hl, Hst. cbn [zoomLevel zoomWindowStart st1].
    destruct (Z.leb_spec (range_max (fullDataRange st) - range_min (fullDataRange st))
                (hours * 60 * 60 * 1000)); [lia|]. split; reflexivity. }
  destruct Hz as [Hz Hstart]. split; [exact Hstart|].
  assert (Hspan1 : 0 < range_max (fullDataRange zoomed) - range_min (fullDataRange zoomed))
    by (rewrite Hf1; lia).
  destruct (moveZoomWindow_start parseFloat PanRight zoomed) as [_ Hr].
  destruct (moveZoomWindow_start parseFloat PanLeft zoomed) as [_ Hl].
  specialize (Hr hours Hz Hspan1). specialize (Hl hours Hz Hspan1). cbv zeta in Hr, Hl.
  split; [rewrite Hr, Hf1; lia|].
  destruct (pan_keeps PanLeft zoomed Hs1) as (P1 & P2 & P3).
  destruct (moveZoomWindow_start parseFloat PanRight (moveZoomWindow PanLeft zoomed))
    as [_ Hrl].
  rewrite (Hrl hours) by (rewrite ?P2, ?P3; assumption). cbv zeta.
  rewrite P2, Hl, Hf1. lia.
Qed.

End WithParseFloat.

Lemma pan_steps_witness :
  zoomWindowStart
    (Nat.iter 3 (Chart.moveZoomWindow hundred PanLeft)
       (Chart.setZoomLevel hundred (Hours 4) (drawn ten_hours)))
  = Z.max 7200000 (28800000 - 3 * 7200000).
Proof.
  assert (Hs : synced hundred (Chart.setZoomLevel hundred (Hours 4) (drawn ten_hours)))
    by (vm_compute; reflexivity).
  destruct (pan_steps hundred (Chart.setZoomLevel hundred (Hours 4) (drawn ten_hours)) 4 3 Hs)
    as [Hl _]; [vm_compute; reflexivity | lia | vm_compute; reflexivity |].
  rewrite Hl by (vm_compute; congruence). vm_compute. reflexivity.
Defined.

Lemma pan_after_zoom_witness :
  zoomWindowStart
    (Chart.moveZoomWindow hundred PanRight
       (Chart.moveZoomWindow hundred PanLeft
          (Chart.setZoomLevel hundred (Hours 4) (drawn ten_hours))))
  = zoomWindowStart (Chart.setZoomLevel hundred (Hours 4) (drawn ten_hours)).
Proof.
  apply (pan_after_zoom hundred (drawn ten_hours) 4).
  - vm_compute. reflexivity.
  - lia.
  - vm_compute. reflexivity.
Defined.

End PanFacts.

Module ClassifierMoreFacts.
Import Js JsFacts Classifier ClassifierFacts Weight.

Lemma insertBy_perm_any {A : Type} (le : A -> A -> bool) (a : A) (l : list A) :
  Permutation (insertBy le a l) (a :: l).
Proof.
  induction l as [|b l IH]; cbn; [reflexivity|].
  destruct (le a b); [reflexivity|]. rewrite IH. apply perm_swap.
Qed.

Lemma sortBy_perm_any {A : Type} (le : A -> A -> bool) (l : list A) :
  Permutation (sortBy le l) l.
Proof.
  induction l as [|a l IH]; cbn; [reflexivity|].
  rewrite insertBy_perm_any. now constructor.
Qed.

Lemma startsWith_refl (s : jsstring) : startsWith s s = true.
Proof. induction s as [|c s IH]; cbn; [reflexivity|]. now rewrite N.eqb_refl. Qed.

Lemma includes_refl (s : jsstring) : includes s s = true.
Proof. destruct s; cbn; [reflexivity|]. now rewrite N.eqb_refl, startsWith_refl. Qed.

Lemma scoreType_type (ni : jsstring) (nt : normalizedType) (m : scored) :
  scoreType ni nt = Some m -> s_type m = original nt.
Proof.
  unfold scoreType. destruct (negb _ && negb _); [discriminate|].
  intros [= <-]. reflexivity.
Qed.

Lemma scoreType_None (ni : jsstring) (nt : normalizedType) :
  scoreType ni nt = None <->
  includes (normalized nt) ni = false /\ includes ni (normalized nt) = false.
Proof.
  unfold scoreType.
  destruct (includes (normalized nt) ni), (includes ni (normalized nt)); cbn;
    split; try tauto; try discriminate; intros [? ?]; discriminate.
Qed.

Lemma original_in_catalog (nt : normalizedType) :
  In nt getNormalizedTypes -> In (original nt) weightTypes.
Proof.
  unfold getNormalizedTypes. intros H. apply in_map_iff in H as (t & <- & Ht). exact Ht.
Qed.

Lemma findMatchingType_in_catalog (input type : jsstring) :
  findMatchingType input = Some type -> In type weightTypes.
Proof.
  unfold findMatchingType. cbv zeta.
  set (ni := normalizeInput input).
  destruct (List.find _ getNormalizedTypes) as [nt|] eqn:Ef.
  - apply find_some in Ef as [Hin _]. intros [= <-]. now apply original_in_catalog.
  - pose proof (sortBy_perm_any byScore
                  (omap (scoreType ni) getNormalizedTypes)) as Hp.
    destruct (sortBy _ _) as [|best rest]; [discriminate|]. intros [= <-].
    assert (Hb : best ∈ omap (scoreType ni) getNormalizedTypes).
    { rewrite <- Hp. left. }
    apply list_elem_of_omap in Hb as (nt & Hin & Hs).
    rewrite (scoreType_type _ _ _ Hs). apply original_in_catalog. now apply list_elem_of_In.
Qed.

(** X13. [findMatchingType] never makes up a type: what it returns is an
    entry of the catalog, as the catalog writes it. It returns [null]
    exactly when the normalized label and the normalized form of every
    entry are such that neither contains the other. *)
Theorem findMatchingType_result (input : jsstring) :
  (forall type, findMatchingType input = Some type -> In type weightTypes) /\
  (findMatchingType input = None <->
     forall nt, In nt getNormalizedTypes ->
       includes (normalized nt) (normalizeInput input) = false /\
       includes (normalizeInput input) (normalized nt) = false).
Proof.
  split; [intros type; apply findMatchingType_in_catalog|].
  unfold findMatchingType. cbv zeta.
  set (ni := normalizeInput input).
  destruct (List.find _ getNormalizedTypes) as [nt|] eqn:Ef.
  - apply find_some in Ef as [Hin Heq]. apply jseq_eq in Heq.
    split; [discriminate|]. intros H. destruct (H nt Hin) as [H1 _].
    rewrite Heq, includes_refl in H1. discriminate.
  - pose proof (sortBy_perm_any byScore
                  (omap (scoreType ni) getNormalizedTypes)) as Hp.
    destruct (sortBy _ _) as [|best rest].
    + split; [|reflexivity]. intros _ nt Hin. apply Permutation_nil in Hp.
      apply scoreType_None.
      destruct (scoreType ni nt) as [m|] eqn:Em; [|reflexivity].
      assert (Hm : m ∈ omap (scoreType ni) getNormalizedTypes).
      { apply list_elem_of_omap. exists nt. split; [now apply list_elem_of_In | exact Em]. }
      rewrite Hp in Hm. inversion Hm.
    + split; [discriminate|]. intros H.
      assert (Hb : best ∈ omap (scoreType ni) getNormalizedTypes).
      { rewrite <- Hp. left. }
      apply list_elem_of_omap in Hb as (nt & Hin & Hs).
      apply list_elem_of_In in Hin. apply H, scoreType_None in Hin. congruence.
Qed.

Lemma catalog_names_fixed (type : jsstring) :
  In type weightTypes -> findMatchingType type = Some type.
Proof.
  intros H. repeat (destruct H as [<-|H]; [vm_compute; reflexivity|]). destruct H.
Qed.

(** X14. [findMatchingType] is idempotent: the type it gives for a label
    is classified as itself, so an entry keeps its type when its type is
    read as a label again. *)
Theorem findMatchingType_idempotent (input type : jsstring) :
  findMatchingType input = Some type -> findMatchingType type = Some type.
Proof.
  intros H. apply catalog_names_fixed. apply (findMatchingType_in_catalog input), H.
Qed.

Lemma findMatchingType_idempotent_witness :
  findMatchingType (utf16 "• peso muscular (kg)") = Some (utf16 "Peso muscular") /\
  findMatchingType (utf16 "Peso muscular") = Some (utf16 "Peso muscular").
Proof.
  split; [vm_compute; reflexivity|].
  apply (findMatchingType_idempotent (utf16 "• peso muscular (kg)")).
  vm_compute. reflexivity.
Defined.

(** X15. [getCommonPrefixLength] is the length of the longest common
    prefix: the two strings agree on that many code units, and the code
    units that come next, if both strings have one, differ. *)
Theorem getCommonPrefixLength_longest (str1 str2 : jsstring) :
  let n := getCommonPrefixLength str1 str2 in
  (n <= length str1)%nat /\ (n <= length str2)%nat /\
  take n str1 = take n str2 /\
  (forall x y, str1 !! n = Some x -> str2 !! n = Some y -> x <> y).
Proof.
  cbv zeta. revert str2. induction str1 as [|x s1 IH]; intros [|y s2]; cbn;
    try (repeat split; try lia; intros; discriminate).
  destruct (N.eqb_spec x y) as [->|Hne].
  - destruct (IH s2) as (H1 & H2 & H3 & H4). cbn. repeat split; try lia.
    + now rewrite H3.
    + exact H4.
  - cbn. repeat split; try lia. intros a b [= <-] [= <-]. exact Hne.
Qed.

(** *** What [parseWeightText] leaves in the form *)

Lemma linesOf_nonempty (b line : jsstring) : In line (linesOf b) -> line <> [].
Proof.
  unfold linesOf. intros H. apply filter_In in H as [_ H]. destruct line; [discriminate|].
  discriminate.
Qed.

Lemma classifyBlock_Matched (b : jsstring) (item : weightItem) :
  classifyBlock b = Matched item ->
  In (w_type item) weightTypes /\ w_value item <> [] /\
  exists typeInput more,
    linesOf b = typeInput :: w_value item :: more /\
    findMatchingType typeInput = Some (w_type item).
Proof.
  unfold classifyBlock.
  destruct (linesOf b) as [|l0 [|l1 more]] eqn:El; try discriminate.
  destruct (findMatchingType l0) as [[|c t]|] eqn:Ef; try discriminate.
  intros [= <-]. cbn [w_type w_value]. split; [|split].
  - apply (findMatchingType_in_catalog l0), Ef.
  - apply (linesOf_nonempty b). rewrite El. right. now left.
  - exists l0, more. split; [reflexivity|exact Ef].
Qed.

Lemma classifyBlock_Unmatched (b text : jsstring) :
  classifyBlock b = Unmatched text ->
  text = trim b /\
  exists typeInput value more,
    linesOf b = typeInput :: value :: more /\ findMatchingType typeInput = None.
Proof.
  unfold classifyBlock.
  destruct (linesOf b) as [|l0 [|l1 more]] eqn:El; try discriminate.
  destruct (findMatchingType l0) as [[|c t]|] eqn:Ef; try discriminate.
  - apply (findMatchingType_in_catalog l0) in Ef.
    exfalso. revert Ef. vm_compute. intros Ef.
    repeat (destruct Ef as [Ef|Ef]; [discriminate|]). destruct Ef.
  - intros [= <-]. split; [reflexivity|]. exists l0, l1, more. split; [reflexivity|exact Ef].
Qed.

(** X16. After [parseWeightText], an entry of the classified list that
    was not there before has a type of the catalog, the one
    [findMatchingType] gives for the first line of its block, and a value
    that is not empty, the second line; and every text of
    [unmatchedBlocks] is a trimmed block of at least two lines for whose
    first line [findMatchingType] gives [null]. *)
Theorem parseWeightText_outcome (f : form) :
  let blocks := splitBlankLines (weightText f) 0 [] in
  let f' := parseWeightText f in
  (forall item, In item (weightItems f') ->
     In item (weightItems f) \/
     exists b typeInput more,
       In b blocks /\ linesOf b = typeInput :: w_value item :: more /\
       findMatchingType typeInput = Some (w_type item) /\
       In (w_type item) weightTypes /\ w_value item <> []) /\
  (forall text, In text (unmatchedBlocks f') ->
     exists b typeInput value more,
       In b blocks /\ text = trim b /\
       linesOf b = typeInput :: value :: more /\ findMatchingType typeInput = None).
Proof.
  intros blocks f'. unfold f', parseWeightText. fold blocks.
  rewrite (fold_parseStep blocks [] []). cbn [app weightItems unmatchedBlocks]. split.
  - intros item Hin. apply in_app_or in Hin as [Hin|Hin]; [now left|right].
    apply list_elem_of_In, list_elem_of_omap in Hin as (b & Hb & Hm).
    destruct (classifyBlock b) as [item'| |] eqn:Ec; try discriminate.
    injection Hm as ->.
    destruct (classifyBlock_Matched b item Ec) as (Ht & Hv & typeInput & more & El & Ef).
    exists b, typeInput, more. repeat split; auto. now apply list_elem_of_In.
  - intros text Hin.
    apply list_elem_of_In, list_elem_of_omap in Hin as (b & Hb & Hm).
    destruct (classifyBlock b) as [|text'|] eqn:Ec; try discriminate.
    injection Hm as ->.
    destruct (classifyBlock_Unmatched b text Ec) as (Ht & typeInput & value & more & El & Ef).
    exists b, typeInput, value, more. repeat split; auto. now apply list_elem_of_In.
Qed.

(** *** Editing an entry *)

Lemma withoutIndex_shift {A : Type} (index k : nat) (items : list A) :
  map snd
    (List.filter (fun p => negb (fst p =? index + k)%nat)
       (combine (seq k (length items)) items))
  = take index items ++ drop (S index) items.
Proof.
  revert index k. induction items as [|x items IH]; intros index k.
  - cbn. now rewrite ?take_nil, ?drop_nil.
  - cbn [length seq combine List.filter fst].
    destruct index as [|index].
    + cbn [Nat.add]. rewrite Nat.eqb_refl. cbn [negb take drop app].
      clear IH. assert (H : forall (l : list A) j, (k < j)%nat ->
        map snd (List.filter (fun p => negb (fst p =? k)%nat) (combine (seq j (length l)) l)) = l).
      { induction l as [|y l IHl]; intros j Hj; [reflexivity|].
        cbn [length seq combine List.filter fst].
        destruct (Nat.eqb_spec j k); [lia|]. cbn [negb map snd]. f_equal. apply IHl. lia. }
      apply H. lia.
    + destruct (Nat.eqb_spec k (S index + k)); [lia|]. cbn [negb map snd take drop app].
      f_equal. replace (S index + k)%nat with (index + S k)%nat by lia. apply IH.
Qed.

(** X17. [editWeightItem] fails when there is no entry at the index.
    Otherwise it takes exactly that entry out of the classified list, the
    others keeping their order, appends the text of the entry to the
    pending text (after a blank line when there is text already) and
    leaves [unmatchedBlocks] alone. *)
Theorem editWeightItem_moves_entry (index : nat) (f : form) :
  (editWeightItem index f = None <-> (length (weightItems f) <= index)%nat) /\
  (forall f', editWeightItem index f = Some f' ->
     exists item,
       weightItems f !! index = Some item /\
       weightItems f' = take index (weightItems f) ++ drop (S index) (weightItems f) /\
       S (length (weightItems f')) = length (weightItems f) /\
       weightItems f = take index (weightItems f') ++ item :: drop index (weightItems f') /\
       weightText f' = (if isEmpty (weightText f) then textOf item
                        else weightText f ++ [LF; LF] ++ textOf item) /\
       unmatchedBlocks f' = unmatchedBlocks f).
Proof.
  unfold editWeightItem. split.
  - destruct (nth_error (weightItems f) index) eqn:E.
    + split; [discriminate|]. intros H. apply nth_error_None in H. congruence.
    + split; [|reflexivity]. intros _. now apply nth_error_None.
  - intros f'. destruct (nth_error (weightItems f) index) as [item|] eqn:E; [|discriminate].
    intros [= <-]. exists item. cbn [weightItems weightText unmatchedBlocks].
    assert (Hl : weightItems f !! index = Some item).
    { rewrite <- E. clear. revert index. induction (weightItems f) as [|x l IH];
        intros [|i]; cbn; auto. }
    assert (Hw : withoutIndex index (weightItems f)
                 = take index (weightItems f) ++ drop (S index) (weightItems f)).
    { unfold withoutIndex. rewrite <- (withoutIndex_shift index 0).
      now rewrite Nat.add_0_r. }
    pose proof (lookup_lt_Some _ _ _ Hl) as Hlt.
    rewrite Hw. repeat split; try reflexivity; try exact Hl.
    + rewrite length_app, length_take, length_drop. lia.
    + rewrite take_app_le by (rewrite length_take; lia).
      rewrite take_take, Nat.min_id.
      rewrite drop_app_ge by (rewrite length_take; lia).
      rewrite length_take, Nat.min_l, Nat.sub_diag by lia. cbn [drop].
      rewrite <- (take_drop_middle _ _ _ Hl) at 1. reflexivity.
Qed.

End ClassifierMoreFacts.

Module BodyStatsOrderFacts.
Import Js JsFacts BodyStats BodyStatsOrder ClassifierMoreFacts.

(** X18. The date [getPreviousMonday] formats is a Monday in UTC, at the
    time of day of [today], and at most six days before [today]. *)
Theorem previousMonday_is_monday (today : Z) :
  getUTCDay (previousMonday today) = 1 /\
  (previousMonday today) mod msPerDay = today mod msPerDay /\
  0 <= today / msPerDay - previousMonday today / msPerDay <= 6.
Proof.
  unfold previousMonday, getUTCDay, msPerDay. cbv zeta.
  set (d := today / 86400000).
  assert (Hdiv : forall k, (today - k * 86400000) / 86400000 = d - k).
  { intros k. replace (today - k * 86400000) with (today + (- k) * 86400000) by lia.
    rewrite Z.div_add by lia. unfold d. lia. }
  assert (Hmod : forall k, (today - k * 86400000) mod 86400000 = today mod 86400000).
  { intros k. replace (today - k * 86400000) with (today + (- k) * 86400000) by lia.
    now rewrite Z.mod_add by lia. }
  pose proof (Z.mod_pos_bound (d + 4) 7 ltac:(lia)) as Hb.
  pose proof (Z.div_mod (d + 4) 7 ltac:(lia)) as Hd.
  destruct (Z.eqb_spec ((d + 4) mod 7) 0) as [E|E]; rewrite Hdiv, Hmod.
  - split; [|split; [reflexivity|lia]].
    replace (d - 6 + 4) with (1 + ((d + 4) / 7 - 1) * 7) by lia.
    now rewrite Z.mod_add by lia.
  - split; [|split; [reflexivity|lia]].
    replace (d - ((d + 4) mod 7 - 1) + 4) with (1 + ((d + 4) / 7) * 7) by lia.
    now rewrite Z.mod_add by lia.
Qed.

Lemma indexFrom_range (array : list jsstring) (s : jsstring) :
  forall i, 0 <= i -> indexFrom i array s = -1 \/ i <= indexFrom i array s.
Proof.
  induction array as [|x array IH]; intros i Hi; cbn; [now left|].
  destruct (jseq x s); [right; lia|].
  destruct (IH (i + 1) ltac:(lia)); [now left | right; lia].
Qed.

Lemma indexFrom_In (s : jsstring) (array : list jsstring) :
  forall i, 0 <= i -> (In s array <-> indexFrom i array s <> -1).
Proof.
  induction array as [|x l IH]; intros i Hi; cbn; [split; [tauto|congruence]|].
  destruct (jseq x s) eqn:E.
  - apply jseq_eq in E. split; [lia | now left].
  - rewrite <- (IH (i + 1)) by lia. split; [|tauto].
    intros [->|H]; [|exact H]. rewrite (proj2 (jseq_eq s s) eq_refl) in E. discriminate.
Qed.

Lemma indexOf_range (s : jsstring) :
  indexOf priorityOrder s = -1 \/ 0 <= indexOf priorityOrder s.
Proof. apply indexFrom_range. lia. Qed.

Lemma may_precede_trans (a b c : jsstring) :
  may_precede a b -> may_precede b c -> may_precede a c.
Proof. unfold may_precede. lia. Qed.

Section WithLocaleCompare.
Variable localeCompare : jsstring -> jsstring -> Z.

Abbreviation le := (fun a b => compareTypes localeCompare a b <=? 0).

Lemma compare_le (a b : jsstring) : le a b = true -> may_precede a b.
Proof.
  unfold compareTypes, may_precede. cbv zeta.
  destruct (indexOf_range a) as [Ha|Ha], (indexOf_range b) as [Hb|Hb];
    destruct (Z.eqb_spec (indexOf priorityOrder a) (-1)),
             (Z.eqb_spec (indexOf priorityOrder b) (-1));
    cbn [negb andb]; try lia; intros H; apply Z.leb_le in H; lia.
Qed.

Lemma compare_gt (a b : jsstring) : le a b = false -> may_precede b a.
Proof.
  unfold compareTypes, may_precede. cbv zeta.
  destruct (indexOf_range a) as [Ha|Ha], (indexOf_range b) as [Hb|Hb];
    destruct (Z.eqb_spec (indexOf priorityOrder a) (-1)),
             (Z.eqb_spec (indexOf priorityOrder b) (-1));
    cbn [negb andb]; try lia; intros H; apply Z.leb_gt in H; lia.
Qed.

Lemma insertBy_precede (a : jsstring) (l : list jsstring) :
  StronglySorted may_precede l -> StronglySorted may_precede (insertBy le a l).
Proof.
  induction 1 as [|b l HS IH Hb]; cbn [insertBy]; [repeat constructor|].
  destruct (le a b) eqn:E.
  - apply compare_le in E. constructor; [now constructor|].
    constructor; [exact E|]. rewrite Forall_forall in Hb. rewrite Forall_forall.
    intros x Hx. eapply may_precede_trans; [exact E | now apply Hb].
  - apply compare_gt in E. constructor; [exact IH|].
    rewrite Forall_forall in Hb. rewrite Forall_forall. intros x Hx.
    rewrite (insertBy_perm_any le a l) in Hx.
    apply elem_of_cons in Hx as [->|Hx]; [exact E | now apply Hb].
Qed.

(** X19. In every locale, [orderedBodyStatsTypes] gives
    the types it is given, each as often, with the priority types first:
    no type outside the priority list stands before one of the list, and
    the types of the list stand in the order of the list. *)
Theorem orderedBodyStatsTypes_priority (allTypes : list jsstring) :
  Permutation (orderedBodyStatsTypes localeCompare allTypes) allTypes /\
  StronglySorted may_precede (orderedBodyStatsTypes localeCompare allTypes) /\
  (forall i j a b, (i < j)%nat ->
     orderedBodyStatsTypes localeCompare allTypes !! i = Some a ->
     orderedBodyStatsTypes localeCompare allTypes !! j = Some b ->
     In b priorityOrder ->
     In a priorityOrder /\ indexOf priorityOrder a <= indexOf priorityOrder b).
Proof.
  assert (HS : StronglySorted may_precede (orderedBodyStatsTypes localeCompare allTypes)).
  { unfold orderedBodyStatsTypes. induction allTypes as [|a l IH]; cbn; [constructor|].
    now apply insertBy_precede. }
  split; [apply sortBy_perm_any|]. split; [exact HS|].
  intros i j a b Hij Hi Hj Hb.
  pose proof (AggregatorFacts.strongly_sorted_lookup _ _ HS i j a b Hij Hi Hj) as Hab.
  assert (Hin : forall s, In s priorityOrder <-> indexOf priorityOrder s <> -1)
    by (intros s; apply indexFrom_In; lia).
  destruct Hab as [Hab|Hab]; [apply Hin in Hb; contradiction|].
  split; [apply Hin; lia | lia].
Qed.

End WithLocaleCompare.

End BodyStatsOrderFacts.

Module StringFacts.
Import Js Weight.

Lemma splitOn_nonempty (sep : N) (s : jsstring) : splitOn sep s <> [].
Proof.
  induction s as [|c s IH]; cbn; [discriminate|].
  destruct (splitOn sep s); [congruence|]. destruct (c =? sep)%N; discriminate.
Qed.

Lemma splitOn_app (sep : N) (a b : jsstring) :
  splitOn sep (a ++ sep :: b) = splitOn sep a ++ splitOn sep b.
Proof.
  induction a as [|c a IH]; cbn [app splitOn].
  - rewrite N.eqb_refl. pose proof (splitOn_nonempty sep b).
    destruct (splitOn sep b); [congruence|reflexivity].
  - rewrite IH. pose proof (splitOn_nonempty sep a).
    destruct (splitOn sep a) as [|p ps]; [congruence|]. cbn [app].
    destruct (c =? sep)%N; reflexivity.
Qed.

Lemma splitOn_free (sep : N) (w : jsstring) :
  Forall (fun c => c <> sep) w -> splitOn sep w = [w].
Proof.
  induction 1 as [|c w Hc _ IH]; cbn; [reflexivity|].
  rewrite IH. destruct (N.eqb_spec c sep); [contradiction|reflexivity].
Qed.

Lemma splitOn_pieces_free (sep : N) (s : jsstring) :
  Forall (Forall (fun c => c <> sep)) (splitOn sep s).
Proof.
  induction s as [|c s IH]; cbn [splitOn]; [repeat constructor|].
  pose proof (splitOn_nonempty sep s) as Hne.
  destruct (splitOn sep s) as [|p ps]; [congruence|].
  - inversion IH as [|? ? Hp Hps]; subst.
    destruct (N.eqb_spec c sep); repeat constructor; assumption.
Qed.

(** *** [trim] *)

Lemma dropWhile_headOk (s : jsstring) : headOk (dropWhile isSpace s).
Proof.
  induction s as [|c s IH]; cbn; [exact I|].
  destruct (isSpace c) eqn:E; [exact IH|exact E].
Qed.

Lemma headOk_dropWhile (s : jsstring) : headOk s -> dropWhile isSpace s = s.
Proof. destruct s as [|c s]; cbn; [reflexivity|]. now intros ->. Qed.

Lemma dropWhile_suffix (s : jsstring) : exists w, s = w ++ dropWhile isSpace s.
Proof.
  induction s as [|c s [w Hw]]; [now exists []|]. cbn.
  destruct (isSpace c); [|now exists []].
  exists (c :: w). cbn. now f_equal.
Qed.

Lemma headOk_prefix (y z : jsstring) : headOk (y ++ z) -> headOk y.
Proof. destruct y; cbn; auto. Qed.

Lemma headOk_app (s r : jsstring) : s <> [] -> headOk s -> headOk (s ++ r).
Proof. destruct s; [congruence|cbn; auto]. Qed.

Lemma trim_tidy (s : jsstring) : tidy (trim s).
Proof.
  unfold tidy, trim. split.
  - destruct (dropWhile_suffix (rev (dropWhile isSpace s))) as [w Hw].
    apply (headOk_prefix _ (rev w)). rewrite <- rev_app_distr, <- Hw, rev_involutive.
    apply dropWhile_headOk.
  - rewrite rev_involutive. apply dropWhile_headOk.
Qed.

Lemma trim_id (s : jsstring) : tidy s -> trim s = s.
Proof.
  intros [H1 H2]. unfold trim. rewrite (headOk_dropWhile s H1).
  rewrite (headOk_dropWhile _ H2). apply rev_involutive.
Qed.

Lemma trim_LF_end (s : jsstring) : s <> [] -> tidy s -> trim (s ++ [LF]) = s.
Proof.
  intros Hne [H1 H2]. unfold trim.
  rewrite (headOk_dropWhile (s ++ [LF])) by now apply headOk_app.
  rewrite rev_app_distr. cbn [rev app dropWhile].
  change (isSpace LF) with true. cbv iota.
  rewrite (headOk_dropWhile _ H2). apply rev_involutive.
Qed.

Lemma Forall_dropWhile (P : N -> Prop) (s : jsstring) :
  Forall P s -> Forall P (dropWhile isSpace s).
Proof.
  induction 1 as [|c s Hc Hs IH]; cbn; [constructor|].
  destruct (isSpace c); [exact IH|now constructor].
Qed.

Lemma Forall_trim (P : N -> Prop) (s : jsstring) : Forall P s -> Forall P (trim s).
Proof.
  intros H. unfold trim.
  apply List.Forall_rev, Forall_dropWhile, List.Forall_rev, Forall_dropWhile, H.
Qed.

Lemma tidy_lines (a b : jsstring) :
  a <> [] -> b <> [] -> tidy a -> tidy b -> tidy (a ++ LF :: b).
Proof.
  intros Ha Hb [Ha1 Ha2] [Hb1 Hb2]. split; [now apply headOk_app|].
  rewrite rev_app_distr. cbn [rev]. rewrite <- app_assoc. apply headOk_app; [|exact Hb2].
  intros E. apply (f_equal (@rev N)) in E. rewrite rev_involutive in E. now cbn in E.
Qed.

(** *** [split(/\s+/)] and [join(' ')] *)

Lemma splitSpaces_word (w rest : jsstring) (inRun : bool) (cur : jsstring) :
  Forall (fun c => isSpace c = false) w ->
  splitSpaces (w ++ rest) inRun cur
  = splitSpaces rest (if isEmpty w then inRun else false) (rev w ++ cur).
Proof.
  intros Hw. revert inRun cur.
  induction Hw as [|c w Hc Hw IH]; intros inRun cur; [reflexivity|].
  cbn [app splitSpaces isEmpty]. rewrite Hc, IH. cbn [rev]. rewrite <- app_assoc. cbn [app].
  now destruct w.
Qed.

Lemma splitSpaces_join (ws : list jsstring) :
  ws <> [] -> Forall word ws ->
  forall inRun, splitSpaces (join [SPACE] ws) inRun [] = ws.
Proof.
  intros Hne Hws. induction Hws as [|w ws [Hw1 Hw2] Hws IH]; [congruence|]. intros inRun.
  destruct ws as [|w' ws].
  - cbn [join]. rewrite <- (app_nil_r w) at 1. rewrite splitSpaces_word by exact Hw2.
    cbn [splitSpaces]. now rewrite app_nil_r, rev_involutive.
  - change (join [SPACE] (w :: w' :: ws))
      with (w ++ SPACE :: join [SPACE] (w' :: ws)).
    rewrite splitSpaces_word by exact Hw2. cbn [splitSpaces].
    change (isSpace SPACE) with true. cbv iota.
    destruct w as [|c w]; [congruence|]. cbn [isEmpty].
    rewrite app_nil_r, rev_involutive. f_equal. now apply IH.
Qed.

Lemma splitSpaces_pieces (s : jsstring) :
  forall inRun cur,
    Forall (fun c => isSpace c = false) cur ->
    Forall (Forall (fun c => isSpace c = false)) (splitSpaces s inRun cur).
Proof.
  induction s as [|c s IH]; intros inRun cur Hcur; cbn [splitSpaces].
  - constructor; [|constructor]. now apply List.Forall_rev.
  - destruct (isSpace c) eqn:E.
    + destruct inRun; [now apply IH|]. constructor; [now apply List.Forall_rev|].
      apply IH. constructor.
    + apply IH. now constructor.
Qed.

Lemma join_words (ws : list jsstring) :
  ws <> [] -> Forall word ws ->
  join [SPACE] ws <> [] /\ tidy (join [SPACE] ws) /\
  Forall (fun c => c <> LF) (join [SPACE] ws).
Proof.
  intros Hne Hws. induction Hws as [|w ws [Hw1 Hw2] Hws IH]; [congruence|].
  assert (Hw : tidy w /\ Forall (fun c => c <> LF) w).
  { split; [split|].
    - destruct Hw2; [exact I|assumption].
    - apply List.Forall_rev in Hw2. destruct Hw2; [exact I|assumption].
    - eapply Forall_impl; [exact Hw2|]. intros c Hc ->. discriminate Hc. }
  destruct ws as [|w' ws]; [cbn [join]; tauto|].
  change (join [SPACE] (w :: w' :: ws)) with (w ++ SPACE :: join [SPACE] (w' :: ws)).
  destruct IH as (I1 & [I2 I3] & I4); [discriminate|].
  destruct Hw as [[T1 T2] T3]. split; [|split; [split|]].
  - destruct w; [congruence|discriminate].
  - now apply headOk_app.
  - rewrite rev_app_distr. cbn [rev]. rewrite <- app_assoc. apply headOk_app; [|exact I3].
    intros E. apply (f_equal (@rev N)) in E. rewrite rev_involutive in E. now cbn in E.
  - apply Forall_app. split; [exact T3|]. constructor; [discriminate|exact I4].
Qed.

(** *** [split(/\n\s*\n/)] *)

Lemma splitBlankLines_calm (s : jsstring) :
  forall cur, calm s = true -> splitBlankLines s 0 cur = [rev cur ++ s].
Proof.
  induction s as [|c s IH]; intros cur H; cbn [splitBlankLines].
  - now rewrite app_nil_r.
  - cbn [calm] in H. apply andb_prop in H as [H1 H2].
    assert (E : splitBlankLines s 0 (c :: cur) = [rev cur ++ c :: s]).
    { rewrite IH by exact H2. cbn [rev]. now rewrite <- app_assoc. }
    destruct (c =? LF)%N; [|exact E].
    destruct (throughLastLF (takeWhile isSpace s)); [discriminate|exact E].
Qed.

Lemma calm_free (a b : jsstring) :
  Forall (fun c => c <> LF) a -> calm (a ++ b) = calm b.
Proof.
  induction 1 as [|c a Hc Ha IH]; [reflexivity|]. cbn [app calm].
  destruct (N.eqb_spec c LF); [contradiction|]. exact IH.
Qed.

Lemma calm_line (a b : jsstring) :
  Forall (fun c => c <> LF) a -> b <> [] -> headOk b ->
  calm (a ++ LF :: b) = calm b.
Proof.
  intros Ha Hb Hh. rewrite calm_free by exact Ha.
  destruct b as [|c b]; [congruence|]. cbn [headOk] in Hh.
  change (calm (LF :: c :: b))
    with ((if (LF =? LF)%N
           then match throughLastLF (takeWhile isSpace (c :: b)) with
                | Some _ => false
                | None => true
                end
           else true) && calm (c :: b)).
  cbn [takeWhile]. rewrite Hh. reflexivity.
Qed.

End StringFacts.

Module SessionFacts.
Import Js Session.

Lemma act_consistent (a : action) (st : session) :
  consistent st -> consistent (act a st).
Proof.
  intros [Ht Hw]. destruct a as [s|r|]; cbn [act].
  - unfold setSection. destruct s, (authToken st) eqn:E; split; cbn; auto; congruence.
  - unfold login, withError. destruct r as [|status token]; [split; assumption|].
    destruct (status =? 401); [split; assumption|].
    destruct (negb (ok status)); [split; assumption|].
    destruct token as [[|c t]|]; split; cbn; auto; congruence.
  - split; cbn; [reflexivity|discriminate].
Qed.

(** X20. Whatever the stored token at start and whatever the sequence of
    section changes, login answers and logouts: the input section is
    current only while there is a token, the token in use is the one in
    [localStorage], so that starting again from the storage gives the same
    token; and [setSection('weight')] without a token opens the login
    dialog and leaves the section as it is. *)
Theorem session_gate (stored : option jsstring) (actions : list action) :
  let st := fold_left (fun s a => act a s) actions (start stored) in
  (currentSection st = weight -> authToken st <> []) /\
  authToken st = default [] (storedToken st) /\
  authToken (start (storedToken st)) = authToken st /\
  (authToken st = [] ->
     currentSection (setSection weight st) = currentSection st /\
     showLoginModal (setSection weight st) = true).
Proof.
  cbv zeta.
  assert (H : consistent (fold_left (fun s a => act a s) actions (start stored))).
  { assert (H0 : consistent (start stored)) by (split; cbn; [reflexivity|discriminate]).
    revert H0. generalize (start stored). induction actions as [|a l IH]; intros st H0;
      cbn [fold_left]; [exact H0|]. apply IH, act_consistent, H0. }
  destruct H as [Ht Hw]. split; [exact Hw|]. split; [exact Ht|].
  split; [cbn; now rewrite Ht|].
  intros E. unfold setSection. rewrite E. split; reflexivity.
Qed.

End SessionFacts.

Module TooltipFacts.
Import Js Tooltip StringFacts.

Lemma wordsOf_app (l1 l2 : list jsstring) : wordsOf (l1 ++ l2) = wordsOf l1 ++ wordsOf l2.
Proof. unfold wordsOf. now rewrite flat_map_app, List.filter_app. Qed.

Lemma wrapStep_eq (lines : list jsstring) (cur w : jsstring) :
  wrapStep (lines, cur) w
  = if (length (cur ++ [SPACE] ++ w) <=? maxCharsPerLine)%nat
    then (lines, cur ++ (if isEmpty cur then [] else [SPACE]) ++ w)
    else ((if isEmpty cur then lines else lines ++ [cur]), w).
Proof. reflexivity. Qed.

Lemma wrap_invariant (all words : list jsstring) :
  Forall (Forall (fun c => c <> SPACE)) words ->
  (forall w, In w words -> In w all) ->
  forall lines cur done,
    Forall (fine all) lines -> (cur = [] \/ fine all cur) ->
    wordsOf (lines ++ [cur]) = List.filter (fun w => negb (isEmpty w)) done ->
    let st := fold_left wrapStep words (lines, cur) in
    Forall (fine all) (fst st) /\ (snd st = [] \/ fine all (snd st)) /\
    wordsOf (fst st ++ [snd st])
      = List.filter (fun w => negb (isEmpty w)) (done ++ words).
Proof.
  induction 1 as [|w words Hw Hws IH]; intros Hall lines cur done Hl Hc Hd; cbn [fold_left].
  - cbv zeta. cbn [fst snd]. rewrite app_nil_r. auto.
  - specialize (IH (fun x Hx => Hall x (or_intror Hx))).
    replace (done ++ w :: words) with ((done ++ [w]) ++ words) by now rewrite <- app_assoc.
    assert (Hsplit : splitOn SPACE w = [w]) by now apply splitOn_free.
    assert (Hone : forall l, wordsOf (l ++ [w])
                   = wordsOf l ++ List.filter (fun w => negb (isEmpty w)) [w]).
    { intros l. rewrite wordsOf_app. f_equal. unfold wordsOf. cbn [flat_map].
      now rewrite Hsplit, app_nil_r. }
    assert (Hempty : forall l, wordsOf (l ++ [[]]) = wordsOf l).
    { intros l. rewrite wordsOf_app. unfold wordsOf at 2. cbn. apply app_nil_r. }
    cbv zeta. rewrite wrapStep_eq.
    destruct (Nat.leb_spec (length (cur ++ [SPACE] ++ w)) maxCharsPerLine) as [Hfit|Hlong].
    + apply IH; [exact Hl| |].
      * destruct cur as [|c cur]; cbn [isEmpty app].
        -- destruct w as [|c w]; [now left|right]. split; [discriminate|left].
           cbn [app length] in Hfit |- *. lia.
        -- right. split; [discriminate|left]. exact Hfit.
      * rewrite List.filter_app, <- Hd. destruct cur as [|c cur]; cbn [isEmpty app].
        -- rewrite Hempty. apply Hone.
        -- rewrite !wordsOf_app. rewrite <- app_assoc. f_equal.
           unfold wordsOf. cbn [flat_map]. rewrite !app_nil_r.
           change (c :: cur ++ SPACE :: w) with ((c :: cur) ++ SPACE :: w).
           rewrite splitOn_app, Hsplit, List.filter_app. reflexivity.
    + apply IH.
      * destruct cur as [|c cur]; cbn [isEmpty]; [exact Hl|].
        apply Forall_app. split; [exact Hl|]. constructor; [|constructor].
        destruct Hc as [Hc|Hc]; [discriminate|exact Hc].
      * destruct w as [|c w]; [now left|right]. split; [discriminate|right].
        apply Hall. now left.
      * rewrite List.filter_app, <- Hd. destruct cur as [|c cur]; cbn [isEmpty].
        -- rewrite Hempty. apply Hone.
        -- apply Hone.
Qed.

(** The lines [wrapWords] makes of words without spaces. *)
Lemma wrapWords_lines (words : list jsstring) :
  Forall (Forall (fun c => c <> SPACE)) words ->
  Forall (fun line =>
            line <> [] /\ ((length line <= 50)%nat \/ In line words)) (wrapWords words) /\
  wordsOf (wrapWords words) = List.filter (fun w => negb (isEmpty w)) words.
Proof.
  intros Hw.
  destruct (wrap_invariant words words Hw (fun w H => H) [] [] []
              ltac:(constructor) ltac:(now left) eq_refl) as (H1 & H2 & H3).
  unfold wrapWords. destruct (fold_left wrapStep words ([], [])) as [lines cur].
  cbn [fst snd app] in *. destruct cur as [|c cur]; cbn [isEmpty].
  - split; [exact H1|]. rewrite <- H3, wordsOf_app. unfold wordsOf at 3. cbn.
    now rewrite app_nil_r.
  - split; [|exact H3]. apply Forall_app. split; [exact H1|].
    constructor; [|constructor]. destruct H2 as [H2|H2]; [discriminate|exact H2].
Qed.

(** X21. The label of a marker: a text of at most 50 code units is
    given as it is; a longer one is given as lines, none empty, each at
    most 50 code units long or a single word of the text, whose words are
    the words of the text. *)
Theorem scatterLabel_wraps (text : jsstring) :
  match scatterLabel text with
  | OneLine t => t = text /\ (length text <= 50)%nat
  | Lines lines =>
      (50 < length text)%nat /\
      Forall (fun line =>
                line <> [] /\
                ((length line <= 50)%nat \/ In line (splitOn SPACE text))) lines /\
      wordsOf lines = wordsOf [text]
  end.
Proof.
  unfold scatterLabel, maxCharsPerLine.
  destruct (Nat.ltb_spec 50 (length text)) as [Hlong|Hshort]; [|split; [reflexivity|lia]].
  destruct (wrapWords_lines (splitOn SPACE text) (splitOn_pieces_free SPACE text)) as [H1 H2].
  split; [exact Hlong|]. split; [exact H1|]. rewrite H2. unfold wordsOf. cbn [flat_map].
  now rewrite app_nil_r.
Qed.

End TooltipFacts.

Module LegacyFacts.
Import Num Js Glucose Legacy.

Lemma fold_closerStep (e : Z) (g : list reading) :
  forall l pre st,
    g = pre ++ l -> nearest_so_far e g pre st ->
    nearest_so_far e g g
      (fold_left (closerStep e) (combine (seq (length pre) (length l)) l) st).
Proof.
  induction l as [|x l IH]; intros pre [i r] Hg (Hi & Hle & Hall).
  - cbn [length seq combine fold_left]. rewrite app_nil_r in Hg. subst pre.
    split; [exact Hi|]. split; [exact Hle|exact Hall].
  - cbn [length seq combine fold_left].
    replace (S (length pre)) with (length (pre ++ [x])) by (rewrite length_app; cbn; lia).
    assert (Hx : g !! length pre = Some x).
    { rewrite Hg. rewrite lookup_app_r by lia. now rewrite Nat.sub_diag. }
    apply IH; [now rewrite <- app_assoc|].
    unfold closerStep. cbn [fst snd] in *. fold (away e x) (away e r).
    destruct (Z.ltb_spec (away e x) (away e r)) as [Hlt|Hge];
      unfold nearest_so_far; cbn [fst snd].
    + split; [exact Hx|]. split; [rewrite length_app; cbn; lia|].
      intros j q Hj. destruct (Nat.lt_ge_cases j (length pre)) as [Hlt'|Hge'].
      * rewrite lookup_app_l in Hj by exact Hlt'. destruct (Hall j q Hj). lia.
      * rewrite lookup_app_r in Hj by exact Hge'.
        destruct (j - length pre)%nat eqn:E; cbn in Hj; [|now destruct n].
        injection Hj as <-. lia.
    + split; [exact Hi|]. split; [rewrite length_app; cbn; lia|].
      intros j q Hj. destruct (Nat.lt_ge_cases j (length pre)) as [Hlt'|Hge'].
      * rewrite lookup_app_l in Hj by exact Hlt'. apply (Hall j q Hj).
      * rewrite lookup_app_r in Hj by exact Hge'.
        destruct (j - length pre)%nat eqn:E; cbn in Hj; [|now destruct n].
        injection Hj as <-. lia.
Qed.

(** X22. In the first version of the chart, with readings to draw, the
    marker of an event gets the place [x] and the value [y] of one reading:
    a reading nearest in time to the event and, of the readings as near,
    the first in the series. *)
Theorem scatterPoint_nearest_first (glucoseData : list reading) (eventTimestamp : Z) :
  glucoseData <> [] ->
  exists x r,
    scatterPoint glucoseData eventTimestamp = Some (x, value r) /\
    glucoseData !! x = Some r /\
    forall j q, glucoseData !! j = Some q ->
      Z.abs (timestamp r - eventTimestamp) <= Z.abs (timestamp q - eventTimestamp) /\
      (Z.abs (timestamp q - eventTimestamp) = Z.abs (timestamp r - eventTimestamp) ->
       (x <= j)%nat).
Proof.
  intros Hne. destruct glucoseData as [|first rest]; [congruence|].
  unfold scatterPoint.
  destruct (fold_closerStep eventTimestamp (first :: rest) (first :: rest) []
              (0%nat, first) eq_refl) as (H1 & _ & H2).
  { split; [reflexivity|]. split; [cbn; lia|]. intros j q Hj. now destruct j. }
  change (length []) with 0%nat in H1, H2.
  destruct (fold_left _ _ _) as [x r]. cbn [fst snd] in *.
  exists x, r. split; [reflexivity|]. split; [exact H1|]. exact H2.
Qed.

Lemma scatterPoint_nearest_first_witness :
  exists x r,
    scatterPoint [Reading (Fin 100) 0; Reading (Fin 120) 600000; Reading (Fin 90) 1200000] 900000
    = Some (x, value r) /\
    [Reading (Fin 100) 0; Reading (Fin 120) 600000; Reading (Fin 90) 1200000] !! x = Some r /\
    forall j q,
      [Reading (Fin 100) 0; Reading (Fin 120) 600000; Reading (Fin 90) 1200000] !! j = Some q ->
      Z.abs (timestamp r - 900000) <= Z.abs (timestamp q - 900000) /\
      (Z.abs (timestamp q - 900000) = Z.abs (timestamp r - 900000) -> (x <= j)%nat).
Proof.
  apply (scatterPoint_nearest_first
           [Reading (Fin 100) 0; Reading (Fin 120) 600000; Reading (Fin 90) 1200000] 900000).
  discriminate.
Defined.

End LegacyFacts.

Module EditFacts.
Import Js Classifier Weight StringFacts.

Lemma headOk_bool (s : jsstring) :
  match s with [] => true | c :: _ => negb (isSpace c) end = true -> headOk s.
Proof. destruct s as [|c s]; cbn; [auto|]. now destruct (isSpace c). Qed.

Lemma catalog_types (t : jsstring) :
  In t weightTypes ->
  findMatchingType t = Some t /\ t <> [] /\ tidy t /\ Forall (fun c => c <> LF) t.
Proof.
  intros H.
  assert (Hall : forallb
                   (fun t =>
                      match findMatchingType t with
                      | Some t' => jseq t' t
                      | None => false
                      end
                      && negb (isEmpty t)
                      && match t with [] => true | c :: _ => negb (isSpace c) end
                      && match rev t with [] => true | c :: _ => negb (isSpace c) end
                      && forallb (fun c => negb (c =? LF)%N) t)
                   weightTypes = true) by (vm_compute; reflexivity).
  rewrite forallb_forall in Hall. specialize (Hall t H).
  apply andb_prop in Hall as [Hall H5]. apply andb_prop in Hall as [Hall H4].
  apply andb_prop in Hall as [Hall H3]. apply andb_prop in Hall as [H1 H2].
  split; [|split; [|split; [split|]]].
  - destruct (findMatchingType t) as [t'|]; [|discriminate].
    apply JsFacts.jseq_eq in H1. now subst.
  - intros ->. discriminate H2.
  - now apply headOk_bool.
  - now apply headOk_bool.
  - apply List.Forall_forall. intros c Hc ->.
    rewrite forallb_forall in H5. specialize (H5 _ Hc). discriminate H5.
Qed.

Lemma lines_tidy (b line : jsstring) :
  In line (linesOf b) -> line <> [] /\ tidy line /\ Forall (fun c => c <> LF) line.
Proof.
  unfold linesOf. intros H. apply filter_In in H as [H Hne].
  apply in_map_iff in H as (x & <- & Hx). split; [|split].
  - destruct (trim x); [discriminate|discriminate].
  - apply trim_tidy.
  - apply Forall_trim. pose proof (splitOn_pieces_free LF (trim b)) as Hf.
    rewrite List.Forall_forall in Hf. now apply Hf.
Qed.

Lemma filter_words (s : jsstring) :
  Forall word (List.filter (fun w => (2 <=? length w)%nat) (splitSpaces s false [])) /\
  Forall (fun w => (2 <=? length w)%nat = true)
    (List.filter (fun w => (2 <=? length w)%nat) (splitSpaces s false [])).
Proof.
  pose proof (splitSpaces_pieces s false [] ltac:(constructor)) as H.
  rewrite List.Forall_forall in H. split; apply List.Forall_forall; intros w Hw;
    apply filter_In in Hw as [Hw Hl]; [|exact Hl].
  split; [|now apply H]. intros ->. discriminate Hl.
Qed.

Lemma filter_all {A : Type} (p : A -> bool) (l : list A) :
  Forall (fun x => p x = true) l -> List.filter p l = l.
Proof. induction 1 as [|x l Hx _ IH]; cbn; [reflexivity|]. now rewrite Hx, IH. Qed.

(** The entries [classifyBlock] makes. *)
Lemma classifyBlock_entry (block : jsstring) (item : weightItem) :
  classifyBlock block = Matched item ->
  exists ws,
    item = WeightItem (w_type item) (w_value item) (join [SPACE] ws) /\
    In (w_type item) weightTypes /\
    (w_value item <> [] /\ tidy (w_value item) /\ Forall (fun c => c <> LF) (w_value item)) /\
    Forall word ws /\ Forall (fun w => (2 <=? length w)%nat = true) ws.
Proof.
  unfold classifyBlock.
  destruct (linesOf block) as [|l0 [|v more]] eqn:El; try discriminate.
  destruct (findMatchingType l0) as [[|c0 t0]|] eqn:Ef; try discriminate.
  intros E.
  exists (List.filter (fun w => (2 <=? length w)%nat)
            (splitSpaces
               (trim (match more with [] => [] | _ => join [SPACE] more end)) false [])).
  split; [now injection E as <-|].
  assert (Et : w_type item = c0 :: t0) by now injection E as <-.
  assert (Ev : w_value item = v) by now injection E as <-.
  rewrite Et, Ev. split; [|split].
  - apply (ClassifierMoreFacts.findMatchingType_in_catalog l0), Ef.
  - apply (lines_tidy block). rewrite El. right. now left.
  - apply filter_words.
Qed.

(** What [classifyBlock] makes of the text of such an entry. *)
Lemma classifyBlock_textOf (t v : jsstring) (ws : list jsstring) :
  In t weightTypes ->
  v <> [] -> tidy v -> Forall (fun c => c <> LF) v ->
  Forall word ws -> Forall (fun w => (2 <=? length w)%nat = true) ws ->
  classifyBlock (textOf (WeightItem t v (join [SPACE] ws)))
  = Matched (WeightItem t v (join [SPACE] ws)) /\
  calm (textOf (WeightItem t v (join [SPACE] ws))) = true.
Proof.
  intros Hin Nv Tv Lv Hws Hlen.
  destruct (catalog_types t Hin) as (Ft & Nt & Tt & Lt).
  unfold textOf. cbn [w_type w_value w_comment].
  assert (Ttv : tidy (t ++ LF :: v)) by now apply tidy_lines.
  assert (Ctv : calm (t ++ LF :: v) = true).
  { rewrite calm_line by (try assumption; apply Tv).
    rewrite <- (app_nil_r v). now rewrite calm_free. }
  assert (Stv : splitOn LF (t ++ LF :: v) = [t; v]).
  { rewrite splitOn_app, !splitOn_free by assumption. reflexivity. }
  destruct ws as [|w ws'].
  - (* no comment: the line feed at the end is trimmed away *)
    cbn [join].
    replace (t ++ [LF] ++ v ++ [LF] ++ []) with ((t ++ LF :: v) ++ [LF])
      by (rewrite <- !app_assoc; reflexivity).
    rewrite trim_LF_end by (try assumption; now destruct t).
    split; [|exact Ctv].
    unfold classifyBlock, linesOf. rewrite (trim_id _ Ttv), Stv. cbn [map].
    rewrite (trim_id _ Tt), (trim_id _ Tv).
    destruct t as [|ct t]; [congruence|]. destruct v as [|cv v]; [congruence|].
    cbn [List.filter isEmpty negb]. rewrite Ft. reflexivity.
  - (* a comment: a third line *)
    destruct (join_words (w :: ws') ltac:(discriminate) Hws) as (Nc & Tc & Lc).
    assert (Ew : splitSpaces (join [SPACE] (w :: ws')) false [] = w :: ws')
      by (apply splitSpaces_join; [discriminate|exact Hws]).
    set (c := join [SPACE] (w :: ws')) in *.
    assert (Tvc : tidy (v ++ LF :: c)) by now apply tidy_lines.
    assert (Tall : tidy (t ++ [LF] ++ v ++ [LF] ++ c)).
    { apply tidy_lines; try assumption. now destruct v. }
    rewrite (trim_id _ Tall).
    change (t ++ [LF] ++ v ++ [LF] ++ c) with (t ++ LF :: (v ++ LF :: c)) in *.
    split.
    + unfold classifyBlock, linesOf. rewrite (trim_id _ Tall).
      rewrite !splitOn_app, !splitOn_free by assumption. cbn [app map].
      rewrite (trim_id _ Tt), (trim_id _ Tv), (trim_id _ Tc).
      destruct t as [|ct t]; [congruence|]. destruct v as [|cv v]; [congruence|].
      destruct c as [|cc c'] eqn:Ec; [congruence|].
      cbn [List.filter isEmpty negb join]. rewrite Ft. rewrite <- Ec in *.
      rewrite (trim_id _ Tc), Ew, (filter_all _ _ Hlen). reflexivity.
    + rewrite calm_line; [|assumption|now destruct v|apply Tvc].
      rewrite calm_line by (try assumption; apply Tc).
      rewrite <- (app_nil_r c). now rewrite calm_free.
Qed.

(** X23. An entry that [parseWeightText] has made of a block comes
    back when it is edited and parsed again: with an empty text box,
    [editWeightItem] puts the text of the entry in the box and takes the
    entry out of the list, and [parseWeightText] then reads the very same
    entry, puts it at the end of the list and leaves the box empty, with no
    unmatched block. *)
Theorem edit_then_parse (f : form) (index : nat) (item : weightItem) (block : jsstring) :
  classifyBlock block = Matched item ->
  nth_error (weightItems f) index = Some item ->
  weightText f = [] ->
  exists f',
    editWeightItem index f = Some f' /\
    weightText f' = textOf item /\
    weightItems f' = withoutIndex index (weightItems f) /\
    parseWeightText f' = Form [] (withoutIndex index (weightItems f) ++ [item]) [].
Proof.
  intros Hb Hi Ht.
  destruct (classifyBlock_entry block item Hb) as (ws & E & Hin & (Nv & Tv & Lv) & Hws & Hlen).
  destruct (classifyBlock_textOf _ _ ws Hin Nv Tv Lv Hws Hlen) as [Hc Hcalm].
  rewrite <- E in Hc, Hcalm.
  unfold editWeightItem. rewrite Hi, Ht. cbn [isEmpty].
  eexists. split; [reflexivity|]. cbn [weightText weightItems]. split; [reflexivity|].
  split; [reflexivity|].
  unfold parseWeightText. cbn [weightText weightItems].
  rewrite splitBlankLines_calm by exact Hcalm. cbn [rev app fold_left].
  unfold parseStep. rewrite Hc. reflexivity.
Qed.

Lemma edit_then_parse_witness :
  exists f',
    editWeightItem 0
      (parseWeightText
         (Form (utf16 "peso" ++ [LF] ++ utf16 " 80 kg " ++ [LF] ++ utf16 "after  a run")
               [] [])) = Some f' /\
    weightText f' = textOf (WeightItem (utf16 "Peso") (utf16 "80 kg") (utf16 "after run")) /\
    weightItems f' = [] /\
    parseWeightText f'
    = Form [] [WeightItem (utf16 "Peso") (utf16 "80 kg") (utf16 "after run")] [].
Proof.
  apply (edit_then_parse
           (parseWeightText
              (Form (utf16 "peso" ++ [LF] ++ utf16 " 80 kg " ++ [LF] ++ utf16 "after  a run")
                    [] []))
           0 (WeightItem (utf16 "Peso") (utf16 "80 kg") (utf16 "after run"))
           (utf16 "peso" ++ [LF] ++ utf16 " 80 kg " ++ [LF] ++ utf16 "after  a run"));
    vm_compute; reflexivity.
Defined.

End EditFacts.

Module ThresholdFacts.
Import Num Js Glucose GlucoseFacts.

Lemma groupsFrom_length_joined (T : Z) (rest : list reading) :
  forall first joined joined',
    length (groupsFrom T first joined rest) = length (groupsFrom T first joined' rest).
Proof.
  induction rest as [|r rest IH]; intros first joined joined'; cbn [groupsFrom]; [reflexivity|].
  destruct (timestamp r - timestamp first <=? T); [apply IH|reflexivity].
Qed.

(** Two runs of the loop over the same readings, the second with the larger
    threshold: it makes no more groups when its open group started no
    earlier, and at most one more otherwise. *)
Lemma groupsFrom_length_mono (T T' : Z) (rest : list reading) :
  T <= T' ->
  StronglySorted (fun a b => timestamp a <= timestamp b) rest ->
  forall f f' joined joined',
    Forall (fun r => timestamp f <= timestamp r) rest ->
    (timestamp f <= timestamp f' ->
     (length (groupsFrom T' f' joined' rest) <= length (groupsFrom T f joined rest))%nat) /\
    (length (groupsFrom T' f' joined' rest) <= S (length (groupsFrom T f joined rest)))%nat.
Proof.
  intros HT Hs. induction Hs as [|r rest Hs IH Hr]; intros f f' joined joined' Hf.
  - cbn. split; intros; lia.
  - apply Forall_cons in Hf as [Hfr Hf]. cbn [groupsFrom].
    assert (Hrr : Forall (fun x => timestamp r <= timestamp x) rest) by exact Hr.
    destruct (Z.leb_spec (timestamp r - timestamp f) T) as [Hj|Hn];
      destruct (Z.leb_spec (timestamp r - timestamp f') T') as [Hj'|Hn']; cbn [length].
    + apply IH, Hf.
    + split.
      * intros Hff. lia.
      * pose proof (proj1 (IH f r (joined ++ [r]) [] Hf) Hfr). lia.
    + split.
      * intros _. apply (IH r f' [] (joined' ++ [r]) Hrr).
      * pose proof (proj2 (IH r f' [] (joined' ++ [r]) Hrr)). lia.
    + split.
      * intros _. pose proof (proj1 (IH r r [] [] Hrr) (Z.le_refl _)). lia.
      * pose proof (proj1 (IH r r [] [] Hrr) (Z.le_refl _)). lia.
Qed.

(** X24. On readings in chronological order, a larger threshold never
    gives more aggregated points. *)
Theorem larger_threshold_fewer_points (readings : list reading) (T T' : Z) :
  chronological readings -> T <= T' ->
  (length (groupGlucoseReadings readings T') <= length (groupGlucoseReadings readings T))%nat.
Proof.
  intros Hc HT. destruct readings as [|r0 rest]; [reflexivity|].
  unfold groupGlucoseReadings.
  rewrite (loop_groups T rest [] r0 []), (loop_groups T' rest [] r0 []).
  cbn [app]. rewrite !length_map.
  assert (Hs : StronglySorted (fun a b => timestamp a <= timestamp b) (r0 :: rest)).
  { apply Sorted_StronglySorted; [intros a b c; lia|exact Hc]. }
  apply StronglySorted_inv in Hs as [Hs Hr].
  apply (groupsFrom_length_mono T T' rest HT Hs r0 r0 [] [] Hr). lia.
Qed.

Lemma larger_threshold_fewer_points_witness :
  (length (groupGlucoseReadings
             [Reading (Fin 100) 0; Reading (Fin 120) 600000; Reading (Fin 90) 1200000; Reading (Fin 95) 4000000]
             1800000)
   <= length (groupGlucoseReadings
                [Reading (Fin 100) 0; Reading (Fin 120) 600000; Reading (Fin 90) 1200000; Reading (Fin 95) 4000000]
                600000))%nat.
Proof.
  apply (larger_threshold_fewer_points
           [Reading (Fin 100) 0; Reading (Fin 120) 600000; Reading (Fin 90) 1200000; Reading (Fin 95) 4000000]
           600000 1800000); [|lia].
  repeat constructor; cbn; lia.
Defined.

End ThresholdFacts.
